(** * SQL dump parser and identifier mapper of sql-to-firestore-migration

    A shallow embedding of [sql-dump-parser.js] (value lexer, field
    splitter, row splitter, schema/row zip) and of the two [uuid-mapper]
    modules of the repository (the enhanced, name-based one and the older
    random one), followed by the properties of the specification.

    Modelling conventions.
    - A JavaScript string is a [string]: each [ascii] stands for the UTF-16
      code unit with the same number, so the dump text ranges over the
      code units U+0000..U+00FF.
    - A JavaScript Number is a binary64 value, a [spec_float] of precision
      53 and maximal exponent 1024.
    - A plain object used as a dictionary is a [gmap] over its own string
      keys; keys inherited from [Object.prototype] (and the [_meta] key of
      the mapping table, kept in a field of its own) are not entity types
      or source ids of the model.
    - A file holds the JSON document written to it. *)

From Stdlib Require Import ZArith List Ascii String Bool Lia.
From Stdlib Require Import Floats.SpecFloat DecimalString QArith Qabs.
From stdpp Require Import gmap strings list fin_maps.
Import ListNotations.

Local Open Scope string_scope.
Local Open Scope Z_scope.

#[local] Set Warnings "-clear-no-such-hyp".

(** ** JavaScript strings *)

Module JsString.

Definition dquote : ascii := "034"%char.
Definition squote : ascii := "039"%char.
Definition backslash : ascii := "092"%char.

Definition code (c : ascii) : Z := Z.of_nat (nat_of_ascii c).

(** WhiteSpace and LineTerminator code units below 256: TAB, LF, VT, FF,
    CR, SP and NBSP. *)
Definition isWhiteSpace (c : ascii) : bool :=
  let n := code c in
  ((9 <=? n) && (n <=? 13)) || (n =? 32) || (n =? 160).

Fixpoint trimStart (s : string) : string :=
  match s with
  | EmptyString => EmptyString
  | String c r => if isWhiteSpace c then trimStart r else s
  end.

(** [trimEnd] keeps a character when it is not white space or when
    something is kept after it. *)
Fixpoint trimEnd (s : string) : string :=
  match s with
  | EmptyString => EmptyString
  | String c r =>
      match trimEnd r with
      | EmptyString => if isWhiteSpace c then EmptyString else String c EmptyString
      | r' => String c r'
      end
  end.

Definition trim (s : string) : string := trimEnd (trimStart s).

(** [toUpperCase] on the letters whose upper case is again below 256.
    The three other lower-case code units of the range (U+00B5, U+00DF,
    U+00FF) have upper cases outside it, none of them made of ASCII
    letters; they are left in place, which gives the same answer to every
    comparison with an ASCII word. *)
Definition upperChar (c : ascii) : ascii :=
  let n := code c in
  if ((97 <=? n) && (n <=? 122))
     || ((224 <=? n) && (n <=? 254) && negb (n =? 247))
  then ascii_of_nat (nat_of_ascii c - 32) else c.

Fixpoint toUpperCase (s : string) : string :=
  match s with
  | EmptyString => EmptyString
  | String c r => String (upperChar c) (toUpperCase r)
  end.

Fixpoint startsWith (s p : string) {struct p} : bool :=
  match p, s with
  | EmptyString, _ => true
  | String a p', String b s' => Ascii.eqb a b && startsWith s' p'
  | String _ _, EmptyString => false
  end.

Definition endsWith (s p : string) : bool :=
  let n := String.length s in
  let k := String.length p in
  (k <=? n)%nat && String.eqb (String.substring (n - k) k s) p.

(** [includes]: some suffix of [s] starts with [p]. *)
Fixpoint includes (s p : string) : bool :=
  startsWith s p ||
  match s with
  | EmptyString => false
  | String _ r => includes r p
  end.

(** [s.substring(a, b)] for non-negative integer arguments: both are
    clamped to the length and swapped when out of order. *)
Definition substring (a b : nat) (s : string) : string :=
  let n := String.length s in
  let a' := Nat.min a n in
  let b' := Nat.min b n in
  String.substring (Nat.min a' b') (Nat.max a' b' - Nat.min a' b') s.

(** [s.replace(/xy/g, r)] for a pattern of two literal characters: a
    left-to-right scan, matches do not overlap. *)
Fixpoint replaceAll2 (x y : ascii) (r : string) (s : string) : string :=
  match s with
  | EmptyString => EmptyString
  | String a t =>
      match t with
      | String b u =>
          if Ascii.eqb a x && Ascii.eqb b y
          then r ++ replaceAll2 x y r u
          else String a (replaceAll2 x y r t)
      | EmptyString => s
      end
  end.

(** [s += c] *)
Definition push (s : string) (c : ascii) : string := s ++ String c EmptyString.

End JsString.

(** ** JavaScript Numbers *)

Module JsNumber.
Import JsString.

Definition number : Type := spec_float.

Definition prec : Z := 53.
Definition emax : Z := 1024.

Definition NaN : number := S754_nan.

Definition numberIsNaN (x : number) : bool :=
  match x with S754_nan => true | _ => false end.

(** The Number nearest to the integer [(-1)^neg * m], for [0 <= m]. *)
Definition ofInteger (neg : bool) (m : Z) : number :=
  match m with
  | Zpos p => binary_round prec emax neg p 0
  | _ => S754_zero neg
  end.

(** The Number nearest to [(-1)^neg * m * 10^e], for [0 <= m]: an exact
    integer when [0 <= e], else the correctly rounded quotient of [m] by
    [10^(-e)]. *)
Definition ofDecimal (neg : bool) (m e : Z) : number :=
  match m with
  | Zpos p =>
      if 0 <=? e then ofInteger neg (m * 10 ^ e)
      else
        let '(q, e', l) := SFdiv_core_binary prec emax m 0 (10 ^ (- e)) 0 in
        binary_round_aux prec emax neg q e' l
  | _ => S754_zero neg
  end.

Definition isDigit (c : ascii) : bool := (48 <=? code c) && (code c <=? 57).

Definition digitValue (radix : Z) (c : ascii) : option Z :=
  let n := code c in
  let v := if (48 <=? n) && (n <=? 57) then n - 48
           else if (97 <=? n) && (n <=? 122) then n - 87
           else if (65 <=? n) && (n <=? 90) then n - 55
           else radix in
  if v <? radix then Some v else None.

(** The longest run of digits of the radix at the head of [s]: the value
    accumulated on [acc], the number of digits added to [n], and the rest. *)
Fixpoint digits (radix acc n : Z) (s : string) : Z * Z * string :=
  match s with
  | String c r =>
      match digitValue radix c with
      | Some v => digits radix (radix * acc + v) (n + 1) r
      | None => (acc, n, s)
      end
  | EmptyString => (acc, n, s)
  end.

Definition sign (s : string) : bool * string :=
  match s with
  | String c r =>
      if Ascii.eqb c "-" then (true, r)
      else if Ascii.eqb c "+" then (false, r)
      else (false, s)
  | EmptyString => (false, s)
  end.

Fixpoint dropChars (n : nat) (s : string) : string :=
  match n, s with
  | S k, String _ r => dropChars k r
  | _, _ => s
  end.

(** ExponentPart, when one is there: [e] or [E], an optional sign and at
    least one digit. *)
Definition exponentPart (s : string) : Z * string :=
  match s with
  | String c r =>
      if Ascii.eqb c "e" || Ascii.eqb c "E" then
        let '(neg, r1) := sign r in
        let '(v, n, r2) := digits 10 0 0 r1 in
        if n =? 0 then (0, s) else (if neg then - v else v, r2)
      else (0, s)
  | EmptyString => (0, s)
  end.

(** The longest prefix of [s] that is a StrDecimalLiteral, with its value
    and what follows it. *)
Definition decimalPrefix (s : string) : option (number * string) :=
  let '(neg, s1) := sign s in
  if startsWith s1 "Infinity" then Some (S754_infinity neg, dropChars 8 s1)
  else
    let '(i, ni, s2) := digits 10 0 0 s1 in
    let '(m, nf, s3) :=
      match s2 with
      | String c r => if Ascii.eqb c "." then digits 10 i 0 r else (i, 0, s2)
      | EmptyString => (i, 0, s2)
      end in
    if (ni =? 0) && (nf =? 0) then None
    else
      let '(e, s4) := exponentPart s3 in
      Some (ofDecimal neg m (e - nf), s4).

(** [parseFloat(s)] *)
Definition parseFloat (s : string) : number :=
  match decimalPrefix (trimStart s) with
  | Some (x, _) => x
  | None => NaN
  end.

(** [parseInt(s, 10)] *)
Definition parseInt10 (s : string) : number :=
  let '(neg, s1) := sign (trimStart s) in
  let '(v, n, _) := digits 10 0 0 s1 in
  if n =? 0 then NaN else ofInteger neg v.

(** The digits of a literal that starts with [0x], [0o] or [0b]. *)
Definition nonDecimal (radix : Z) (s : string) : number :=
  let '(v, n, r) := digits radix 0 0 s in
  if (0 <? n) && String.eqb r "" then ofInteger false v else NaN.

(** [Number(s)], the StringToNumber conversion. *)
Definition toNumber (s : string) : number :=
  let t := trim s in
  if String.eqb t "" then S754_zero false
  else if startsWith t "0x" || startsWith t "0X" then nonDecimal 16 (dropChars 2 t)
  else if startsWith t "0o" || startsWith t "0O" then nonDecimal 8 (dropChars 2 t)
  else if startsWith t "0b" || startsWith t "0B" then nonDecimal 2 (dropChars 2 t)
  else
    match decimalPrefix t with
    | Some (x, EmptyString) => x
    | _ => NaN
    end.

(** The global [isNaN] applied to a string. *)
Definition isNaN (s : string) : bool := numberIsNaN (toNumber s).

(** The rational that a finite Number stands for. *)
Definition exact (x : number) : option Q :=
  match x with
  | S754_zero _ => Some 0%Q
  | S754_finite s m e =>
      Some ((if s then - inject_Z (Zpos m) else inject_Z (Zpos m)) * Qpower 2 e)%Q
  | _ => None
  end.

(** [x] is finite and stands for the rational [q]. *)
Definition hasValue (x : number) (q : Q) : Prop :=
  match exact x with
  | Some v => (v == q)%Q
  | None => False
  end.

(** [x] is a canonical finite Number within half a unit in the last
    place of the rational [q]. *)
Definition nearest (x : number) (q : Q) : Prop :=
  match x with
  | S754_finite s m e =>
      bounded prec emax m e = true /\
      match exact x with
      | Some v => (Qabs (v - q) <= (1 # 2) * Qpower 2 e)%Q
      | None => False
      end
  | _ => False
  end.

End JsNumber.

(** ** src/sql-dump-parser.js *)

Module SqlDumpParser.
Import JsString JsNumber.

(** The scalar of a parsed field. *)
Inductive scalar : Type :=
  | VNull
  | VString (s : string)
  | VNumber (x : number).

(** [processValue(value)] *)
Definition processValue (value : string) : scalar :=
  if String.eqb (toUpperCase value) "NULL" then VNull
  else if (startsWith value "'" && endsWith value "'")
          || (startsWith value (String dquote "") && endsWith value (String dquote ""))
  then
    let unquoted := substring 1 (String.length value - 1) value in
    let unquoted :=
      replaceAll2 backslash backslash (String backslash "")
        (replaceAll2 backslash dquote (String dquote "")
           (replaceAll2 backslash squote "'" unquoted)) in
    VString unquoted
  else if negb (isNaN value) && negb (String.eqb value "") then
    if includes value "." then VNumber (parseFloat value)
    else VNumber (parseInt10 value)
  else VString value.

(** The scanner state of [parseValuesComplex]. *)
Record fieldState : Type := FieldState {
  values : list scalar;
  currentValue : string;
  inString : bool;
  stringChar : option ascii;
  escaped : bool
}.

Definition isQuote (c : ascii) : bool := Ascii.eqb c squote || Ascii.eqb c dquote.

Definition sameChar (o : option ascii) (c : ascii) : bool :=
  match o with
  | Some d => Ascii.eqb c d
  | None => false
  end.

(** One turn of the [for] loop of [parseValuesComplex]. *)
Definition fieldStep (st : fieldState) (char : ascii) : fieldState :=
  let '(FieldState values currentValue inString stringChar escaped) := st in
  if escaped then
    FieldState values (push currentValue char) inString stringChar false
  else if Ascii.eqb char backslash then
    FieldState values currentValue inString stringChar true
  else if isQuote char && negb escaped then
    if negb inString then
      FieldState values currentValue true (Some char) escaped
    else if sameChar stringChar char then
      FieldState values currentValue false None escaped
    else
      FieldState values (push currentValue char) inString stringChar escaped
  else if Ascii.eqb char "," && negb inString then
    FieldState (values ++ [processValue (trim currentValue)]) "" inString stringChar escaped
  else
    FieldState values (push currentValue char) inString stringChar escaped.

Fixpoint fieldLoop (st : fieldState) (rowText : string) : fieldState :=
  match rowText with
  | EmptyString => st
  | String char rest => fieldLoop (fieldStep st char) rest
  end.

Definition fieldInit : fieldState := FieldState [] "" false None false.

(** What follows the loop: the last value is added when it is not blank. *)
Definition fieldFinish (st : fieldState) : list scalar :=
  if negb (String.eqb (trim (currentValue st)) "")
  then (values st ++ [processValue (trim (currentValue st))])%list
  else values st.

(** [parseValuesComplex(rowText)] *)
Definition parseValuesComplex (rowText : string) : list scalar :=
  fieldFinish (fieldLoop fieldInit rowText).

(** The scanner state of [splitInsertValues]. *)
Record rowState : Type := RowState {
  result : list string;
  current : string;
  depth : Z;
  rowInString : bool;
  rowStringChar : option ascii;
  rowEscaped : bool
}.

(** The [for] loop of [splitInsertValues] over what is left of the text.
    When the separator is found, [i += 2] jumps over the two characters
    after the closing parenthesis. *)
Fixpoint rowLoop (st : rowState) (text : string) : rowState :=
  match text with
  | EmptyString => st
  | String char rest =>
      let '(RowState result current depth inString stringChar escaped) := st in
      let '(inString, stringChar) :=
        if isQuote char && negb escaped then
          if negb inString then (true, Some char)
          else if sameChar stringChar char then (false, None)
          else (inString, stringChar)
        else (inString, stringChar) in
      if Ascii.eqb char backslash && negb escaped then
        rowLoop (RowState result (push current char) depth inString stringChar true) rest
      else
        let escaped := false in
        let depth :=
          if Ascii.eqb char "(" && negb inString then depth + 1
          else if Ascii.eqb char ")" && negb inString then depth - 1
          else depth in
        let current := push current char in
        let next := RowState result current depth inString stringChar escaped in
        if (depth =? 0) && negb inString && Ascii.eqb char ")" then
          match rest with
          | String c1 (String c2 rest') =>
              if Ascii.eqb c1 "," && Ascii.eqb c2 "("
              then rowLoop (RowState (result ++ [current]) "" depth inString stringChar escaped) rest'
              else rowLoop next rest
          | _ => rowLoop next rest
          end
        else rowLoop next rest
  end.

Definition rowInit : rowState := RowState [] "" 0 false None false.

(** [splitInsertValues(valuesText)] *)
Definition splitInsertValues (valuesText : string) : list string :=
  if negb (includes valuesText "),(") then [trim valuesText]
  else
    let st := rowLoop rowInit valuesText in
    let result := if negb (String.eqb (current st) "")
                  then (result st ++ [current st])%list else result st in
    if (Nat.eqb (List.length result) 0) && negb (String.eqb (trim valuesText) "")
    then (result ++ [trim valuesText])%list else result.

(** A row object: the own properties of [rowData]. *)
Abbreviation row := (gmap string scalar).

(** [for (let i = 0; i < values.length; i++) rowData[columns[i]] = values[i]],
    from index [i] on. An index past the end of [columns] reads
    [undefined], which as a property key is the string of that name. *)
Fixpoint fillRow (columns : list string) (values : list scalar) (i : nat)
    (rowData : row) : row :=
  match values with
  | [] => rowData
  | v :: rest =>
      let key := match columns !! i with
                 | Some c => c
                 | None => "undefined"
                 end in
      fillRow columns rest (S i) (<[key := v]> rowData)
  end.

(** The guarded construction shared by [extractTableData] and the
    recovery pass of [parseSqlDump]: [Some] row is pushed on [data], or
    nothing is. *)
Definition rowOfValues (columns : list string) (values : list scalar) : option row :=
  if (0 <? List.length values)%nat && (List.length values <=? List.length columns)%nat
  then Some (fillRow columns values 0 ∅)
  else None.

(** The body of the loop over [rows] in [extractTableData]. *)
Definition stripParens (rowText : string) : string :=
  let rowText := trim rowText in
  if startsWith rowText "(" && endsWith rowText ")"
  then substring 1 (String.length rowText - 1) rowText
  else rowText.

Definition rowOfText (columns : list string) (rowText : string) : option row :=
  rowOfValues columns (parseValuesComplex (stripParens rowText)).

(** [extractTableData(sqlContent, pattern, columns)], given the texts
    captured by group 1 of the pattern at its successive matches in
    [sqlContent]. *)
Definition extractTableData (captures : list string) (columns : list string) : list row :=
  flat_map
    (fun valuesText =>
       if String.eqb valuesText "" then []
       else omap (rowOfText columns) (splitInsertValues valuesText))
    captures.

(** The recovery pass of [parseSqlDump] over [allInsertStatements], given
    for each statement the text that the VALUES pattern of
    [statement.match] captured between the outermost parentheses, [None]
    when the statement does not match. *)
Definition recoverStatements (captures : list (option string)) (columns : list string)
    : list row :=
  omap
    (fun valuesMatch =>
       match valuesMatch with
       | Some text =>
           if String.eqb text "" then None
           else rowOfValues columns (parseValuesComplex text)
       | None => None
       end)
    captures.

(** A numeral as the dump writes one: digits, a decimal point, a minus
    sign. *)
Fixpoint allChars (p : ascii -> bool) (s : string) : bool :=
  match s with
  | EmptyString => true
  | String c r => p c && allChars p r
  end.

Definition numeralChar (c : ascii) : bool :=
  isDigit c || Ascii.eqb c "." || Ascii.eqb c "-".

Definition numeral (s : string) : bool := allChars numeralChar s.

Definition blank (s : string) : bool := allChars isWhiteSpace s.

(** The part of [parseSqlDump] that fills [tables[tableName].data]: the
    patterns are tried in order and the first whose extraction gives at
    least one row wins; when none does, the statements are processed one
    by one. [patternCaptures] holds, for each pattern, the texts it
    captures in the dump. *)
Fixpoint directExtraction (patternCaptures : list (list string)) (columns : list string)
    : option (list row) :=
  match patternCaptures with
  | [] => None
  | captures :: rest =>
      let data := extractTableData captures columns in
      if (0 <? List.length data)%nat then Some data
      else directExtraction rest columns
  end.

Definition tableData (patternCaptures : list (list string))
    (statementCaptures : list (option string)) (columns : list string) : list row :=
  match directExtraction patternCaptures columns with
  | Some data => data
  | None => recoverStatements statementCaptures columns
  end.

(** The number that a run of decimal digits denotes, and the number of
    occurrences of a character. *)
Fixpoint valueOf (acc : Z) (s : string) : Z :=
  match s with
  | EmptyString => acc
  | String c r => valueOf (10 * acc + (code c - 48)) r
  end.

Fixpoint occurrences (c : ascii) (s : string) : nat :=
  match s with
  | EmptyString => 0%nat
  | String d r => ((if Ascii.eqb d c then 1 else 0) + occurrences c r)%nat
  end.

(** The rows found so far and the row being read by [splitInsertValues],
    joined by the two characters that a separator loses. *)
Definition joined (st : rowState) : string :=
  String.concat ",(" (result st ++ [current st]).

(** Two notions for the proofs about the field scanner. Outside a string
    the remembered delimiter is null; and the scanner state with some
    values pushed before those it has. *)
Definition settled (st : fieldState) : Prop :=
  inString st = false -> stringChar st = None.

Definition withValues (vs : list scalar) (st : fieldState) : fieldState :=
  FieldState (vs ++ values st) (currentValue st) (inString st) (stringChar st) (escaped st).

End SqlDumpParser.

(** ** The [uuid] package: name-based identifiers (version 5)

    The package is a dependency of the repository, not part of it; [v5] is
    written from RFC 4122, section 4.3, and the package's documented
    behaviour: SHA-1 of the namespace bytes followed by the UTF-8 bytes
    of the name, the version and variant bits set, printed in lower-case
    hexadecimal. A namespace that is not a valid UUID string makes [v5]
    throw a TypeError ([None]). *)

Module Uuid.
Import JsString JsNumber.

Definition w32 (x : Z) : Z := x mod 2 ^ 32.

Definition rotl (n x : Z) : Z := w32 (Z.lor (Z.shiftl x n) (Z.shiftr x (32 - n))).

(** Big-endian bytes of [x], [n] of them. *)
Fixpoint bytesBE (n : nat) (x : Z) : list Z :=
  match n with
  | O => []
  | S k => (Z.shiftr x (8 * Z.of_nat k) mod 256) :: bytesBE k x
  end.

Definition pad (msg : list Z) : list Z :=
  let len := Z.of_nat (List.length msg) in
  let zeros := Z.to_nat ((55 - len) mod 64) in
  (msg ++ [128] ++ repeat 0 zeros ++ bytesBE 8 (8 * len))%list.

(** [fuel] blocks of sixteen 32-bit words. *)
Fixpoint blocks (fuel : nat) (bs : list Z) : list (list Z) :=
  match fuel with
  | O => []
  | S k =>
      let word :=
        fix word (n : nat) (bs : list Z) : list Z :=
          match n, bs with
          | S m, b0 :: b1 :: b2 :: b3 :: r =>
              (b0 * 2 ^ 24 + b1 * 2 ^ 16 + b2 * 2 ^ 8 + b3) :: word m r
          | _, _ => []
          end in
      word 16%nat bs :: blocks k (drop 64 bs)
  end.

(** The message schedule after the first sixteen words; [w] holds the
    last sixteen words, oldest first. *)
Fixpoint expand (n : nat) (w : list Z) : list Z :=
  match n, w with
  | S k, w0 :: tl =>
      let x := rotl 1 (Z.lxor (nth 13 w 0) (Z.lxor (nth 8 w 0) (Z.lxor (nth 2 w 0) w0))) in
      x :: expand k (tl ++ [x])%list
  | _, _ => []
  end.

Definition round (t : Z) (st : Z * Z * Z * Z * Z) (w : Z) : Z * Z * Z * Z * Z :=
  let '(a, b, c, d, e) := st in
  let '(f, k) :=
    if t <? 20 then (Z.lor (Z.land b c) (Z.land (Z.lxor b 4294967295) d), 1518500249)
    else if t <? 40 then (Z.lxor b (Z.lxor c d), 1859775393)
    else if t <? 60 then
      (Z.lor (Z.land b c) (Z.lor (Z.land b d) (Z.land c d)), 2400959708)
    else (Z.lxor b (Z.lxor c d), 3395469782) in
  (w32 (rotl 5 a + f + e + k + w), a, rotl 30 b, c, d).

Fixpoint rounds (t : Z) (st : Z * Z * Z * Z * Z) (ws : list Z) : Z * Z * Z * Z * Z :=
  match ws with
  | [] => st
  | w :: r => rounds (t + 1) (round t st w) r
  end.

Definition compress (h : Z * Z * Z * Z * Z) (block : list Z) : Z * Z * Z * Z * Z :=
  let '(h0, h1, h2, h3, h4) := h in
  let '(a, b, c, d, e) := rounds 0 h (block ++ expand 64 block)%list in
  (w32 (h0 + a), w32 (h1 + b), w32 (h2 + c), w32 (h3 + d), w32 (h4 + e)).

Definition sha1 (msg : list Z) : list Z :=
  let bs := pad msg in
  let '(h0, h1, h2, h3, h4) :=
    fold_left compress (blocks (List.length bs / 64) bs)
      (1732584193, 4023233417, 2562383102, 271733878, 3285377520) in
  (bytesBE 4 h0 ++ bytesBE 4 h1 ++ bytesBE 4 h2 ++ bytesBE 4 h3 ++ bytesBE 4 h4)%list.

(** UTF-8 bytes of a string of code units below 256. *)
Fixpoint stringToBytes (s : string) : list Z :=
  match s with
  | EmptyString => []
  | String c r =>
      let n := code c in
      if n <? 128 then n :: stringToBytes r
      else (192 + Z.shiftr n 6) :: (128 + Z.land n 63) :: stringToBytes r
  end.

(** Exactly [n] hexadecimal digits at the head of [s]. *)
Fixpoint hexRun (n : nat) (s : string) : option (list Z * string) :=
  match n with
  | O => Some ([], s)
  | S k =>
      match s with
      | String c r =>
          v ← digitValue 16 c;
          '(vs, r') ← hexRun k r;
          Some (v :: vs, r')
      | EmptyString => None
      end
  end.

Definition hyphen (s : string) : option string :=
  match s with
  | String c r => if Ascii.eqb c "-" then Some r else None
  | EmptyString => None
  end.

Fixpoint nibblePairs (l : list Z) : list Z :=
  match l with
  | hi :: lo :: r => (16 * hi + lo) :: nibblePairs r
  | _ => []
  end.

(** [parse(uuid)] of the package: the sixteen bytes of a string the
    package validates (five hyphenated groups of hexadecimal digits with
    version 1 to 5 and the RFC variant, or the nil UUID). *)
Definition parse (uuid : string) : option (list Z) :=
  '(g1, s1) ← hexRun 8 uuid;
  s1 ← hyphen s1;
  '(g2, s2) ← hexRun 4 s1;
  s2 ← hyphen s2;
  '(g3, s3) ← hexRun 4 s2;
  s3 ← hyphen s3;
  '(g4, s4) ← hexRun 4 s3;
  s4 ← hyphen s4;
  '(g5, s5) ← hexRun 12 s4;
  let nibbles := (g1 ++ g2 ++ g3 ++ g4 ++ g5)%list in
  let version := nth 12 nibbles 0 in
  let variant := nth 16 nibbles 0 in
  if String.eqb s5 "" &&
     (((1 <=? version) && (version <=? 5) && (8 <=? variant) && (variant <=? 11))
      || forallb (Z.eqb 0) nibbles)
  then Some (nibblePairs nibbles) else None.

Definition hexDigit (v : Z) : ascii :=
  ascii_of_nat (Z.to_nat (if v <? 10 then 48 + v else 87 + v)).

Fixpoint hexString (bs : list Z) : string :=
  match bs with
  | [] => EmptyString
  | b :: r => String (hexDigit (b / 16)) (String (hexDigit (b mod 16)) (hexString r))
  end.

(** [stringify(bytes)] of the package, for sixteen bytes. *)
Definition stringify (bs : list Z) : string :=
  hexString (take 4 bs) ++ "-" ++ hexString (take 2 (drop 4 bs)) ++ "-"
  ++ hexString (take 2 (drop 6 bs)) ++ "-" ++ hexString (take 2 (drop 8 bs)) ++ "-"
  ++ hexString (take 6 (drop 10 bs)).

Definition setByte (i : nat) (f : Z -> Z) (bs : list Z) : list Z :=
  match bs !! i with
  | Some b => <[i := f b]> bs
  | None => bs
  end.

(** [v5(name, namespace)] *)
Definition v5 (name namespace : string) : option string :=
  ns ← parse namespace;
  let bytes := sha1 (ns ++ stringToBytes name) in
  let bytes := setByte 6 (fun b => Z.lor (Z.land b 15) 80) bytes in
  let bytes := setByte 8 (fun b => Z.lor (Z.land b 63) 128) bytes in
  Some (stringify bytes).

End Uuid.

(** ** utils/uuid-mapper.js, the enhanced module

    The module state is the pair of objects [idMappings] and
    [reverseIdMappings]; every function of the module is synchronous, so a
    call is one state transformer. What a call reads from outside (the
    clock of [new Date()], the outcome of [uuidv4()]) is its [env]. *)

Module UuidMapper.
Import JsString.

Definition UUID_NAMESPACE : string := "6ba7b810-9dad-11d1-80b4-00c04fd430c8".

(** The [oldId] argument: null, undefined, an integer-valued Number or a
    string. The Number is the integer [n] itself, and [String(oldId)]
    its decimal expansion: that is the code for a safe integer, below
    2^53 in absolute value, as a primary key is. From 2^53 up not every
    integer is a Number and the code prints the shortest digits that
    read back as the same Number: there the model does not apply. *)
Inductive sourceId : Type :=
  | IdNull
  | IdUndefined
  | IdNumber (n : Z)
  | IdString (s : string).

(** The source ids within the model: a Number is a safe integer. *)
Definition safeInteger (oldId : sourceId) : bool :=
  match oldId with
  | IdNumber n => Z.abs n <? 2 ^ 53
  | _ => true
  end.

(** [!oldId] *)
Definition falsy (oldId : sourceId) : bool :=
  match oldId with
  | IdNull | IdUndefined => true
  | IdNumber n => n =? 0
  | IdString s => String.eqb s ""
  end.

(** [oldId === 0] *)
Definition isZero (oldId : sourceId) : bool :=
  match oldId with
  | IdNumber n => n =? 0
  | _ => false
  end.

(** [String(oldId)] *)
Definition toString (oldId : sourceId) : string :=
  match oldId with
  | IdNull => "null"
  | IdUndefined => "undefined"
  | IdNumber n => NilZero.string_of_int (Z.to_int n)
  | IdString s => s
  end.

Abbreviation table := (gmap string string).
Abbreviation tables := (gmap string (gmap string string)).

(** [lastUpdated] is a Date object, or after a load the ISO string that
    JSON made of one. *)
Inductive timestamp : Type :=
  | Date (t : Z)
  | IsoString (t : Z).

Record meta : Type := Meta {
  lastUpdated : timestamp;
  totalMappings : Z
}.

Record mapper : Type := Mapper {
  idMappings : tables;
  _meta : meta;
  reverseIdMappings : tables
}.

Record env : Type := Env {
  now : Z;
  uuidv4 : string
}.

Record options : Type := Options {
  deterministic : bool;
  updateReverse : bool;
  namespaceOverride : option string;
  entityPrefix : string
}.

Definition defaults : options := Options true true None "".

(** How a call ends: it returns a string or null, or a TypeError
    escapes it. *)
Inductive completion : Type :=
  | Return (v : option string)
  | Throw.

Definition lookup2 (t : tables) (entity id : string) : option string :=
  t !! entity ≫= fun ids => ids !! id.

(** Truthiness of what a property read gives: undefined and the empty
    string are falsy. *)
Definition truthy (v : option string) : bool :=
  match v with
  | Some s => negb (String.eqb s "")
  | None => false
  end.

Definition listingEntities : list string :=
  ["businesses"; "franchise"; "investors"; "startups"; "digital_assets"].

Definition isListingEntity (entity : string) : bool :=
  existsb (String.eqb entity) listingEntities.

(** [if (!t[entity]) t[entity] = {}] *)
Definition ensure (entity : string) (t : tables) : tables :=
  match t !! entity with
  | Some _ => t
  | None => <[entity := ∅]> t
  end.

(** [t[entity][k] = v], for an existing [t[entity]]. *)
Definition assign (entity k v : string) (t : tables) : tables :=
  <[entity := <[k := v]> (default ∅ (t !! entity))]> t.

(** The module state when the module has just been loaded at time [t0]. *)
Definition initial (t0 : Z) : mapper :=
  Mapper
    (list_to_map
       (map (fun entity => (entity, ∅))
          ["users"; "businesses"; "franchise"; "investors"; "listings"; "plans";
           "reviews"; "subscriptions"; "transactions"; "chatrooms"; "messages";
           "industries"; "sub_industries"; "cities"; "states"]))
    (Meta (Date t0) 0)
    ∅.

(** [getOrCreateUUID(entity, oldId, options)] *)
Definition getOrCreateUUID (e : env) (entity : string) (oldId : sourceId)
    (opts : options) (m : mapper) : completion * mapper :=
  if falsy oldId || isZero oldId then (Return None, m)
  else
    let id := toString oldId in
    let fwd := ensure entity (idMappings m) in
    if truthy (lookup2 fwd entity id) then
      (Return (lookup2 fwd entity id), Mapper fwd (_meta m) (reverseIdMappings m))
    else
      let generated :=
        if deterministic opts then
          let namespace :=
            match namespaceOverride opts with
            | Some ns => if String.eqb ns "" then UUID_NAMESPACE else ns
            | None => UUID_NAMESPACE
            end in
          Uuid.v5 (entityPrefix opts ++ entity ++ ":" ++ id) namespace
        else Some (uuidv4 e) in
      match generated with
      | None => (Throw, Mapper fwd (_meta m) (reverseIdMappings m))
      | Some newUuid =>
          let fwd := assign entity id newUuid fwd in
          let rev :=
            if updateReverse opts
            then assign entity newUuid id (ensure entity (reverseIdMappings m))
            else reverseIdMappings m in
          let mt := Meta (Date (now e)) (totalMappings (_meta m) + 1) in
          if isListingEntity entity then
            match fwd !! "listings" with
            | None => (Throw, Mapper fwd mt rev)
            | Some _ =>
                let fwd := assign "listings" id newUuid fwd in
                let rev :=
                  if updateReverse opts
                  then assign "listings" newUuid id (ensure "listings" rev)
                  else rev in
                (Return (Some newUuid), Mapper fwd mt rev)
            end
          else (Return (Some newUuid), Mapper fwd mt rev)
      end.

(** [getUUID(entity, oldId)] *)
Definition getUUID (entity : string) (oldId : sourceId) (m : mapper) : option string :=
  if falsy oldId || isZero oldId then None
  else
    let id := toString oldId in
    if truthy (lookup2 (idMappings m) entity id) then lookup2 (idMappings m) entity id
    else if isListingEntity entity && truthy (lookup2 (idMappings m) "listings" id)
    then lookup2 (idMappings m) "listings" id
    else None.

(** [setUUID(entity, oldId, uuid, options)]; of the options only
    [updateReverse] is read. The result tells whether the call returned
    or threw. *)
Definition setUUID (e : env) (entity : string) (oldId : sourceId) (uuid : string)
    (opts : options) (m : mapper) : completion * mapper :=
  if falsy oldId || isZero oldId || String.eqb uuid "" then (Return None, m)
  else
    let id := toString oldId in
    let fwd := assign entity id uuid (ensure entity (idMappings m)) in
    let rev :=
      if updateReverse opts
      then assign entity uuid id (ensure entity (reverseIdMappings m))
      else reverseIdMappings m in
    let mt := Meta (Date (now e)) (totalMappings (_meta m) + 1) in
    if isListingEntity entity then
      match fwd !! "listings" with
      | None => (Throw, Mapper fwd mt rev)
      | Some _ =>
          let fwd := assign "listings" id uuid fwd in
          let rev :=
            if updateReverse opts
            then assign "listings" uuid id (ensure "listings" rev)
            else rev in
          (Return None, Mapper fwd mt rev)
      end
    else (Return None, Mapper fwd mt rev).

(** The JSON document of a mappings file: the entity tables, and the
    [_meta] object when the file has one. *)
Record document : Type := Document {
  docTables : tables;
  docMeta : option meta
}.

Abbreviation files := (gmap string document).

(** The total that [saveMappingsToFile] counts over the entity tables. *)
Definition countMappings (t : tables) : Z :=
  map_fold (fun _ ids total => total + Z.of_nat (size ids)) 0 t.

(** [saveMappingsToFile(filePath)]: the metadata is refreshed, then the
    whole of [idMappings] is written; the Date is written as its ISO
    string. Writing succeeds in the model, so the result is [true]. *)
Definition saveMappingsToFile (e : env) (filePath : string) (m : mapper) (fs : files)
    : bool * mapper * files :=
  let total := countMappings (idMappings m) in
  let m' := Mapper (idMappings m) (Meta (Date (now e)) total) (reverseIdMappings m) in
  let doc := Document (idMappings m) (Some (Meta (IsoString (now e)) total)) in
  (true, m', <[filePath := doc]> fs).

(** The [forEach] over [Object.entries(idMappings[entity])]. The code
    visits the keys that are array indices in ascending order and then
    the other keys in the order of their creation; [map_fold] visits
    them in the order of the map. Either way every entry is visited
    once, and the outcome depends on the order only when two source ids
    of the entity carry one identifier: the one visited last then owns
    the reverse entry, and which of the two that is in the code is not
    modelled. *)
Definition rebuildEntity (ids : table) (rev : table) : table :=
  map_fold (fun id uuid rev => <[uuid := id]> rev) rev ids.

(** The [forEach] over [Object.keys(idMappings)], the [_meta] key left
    out. *)
Definition rebuildReverse (fwd rev : tables) : tables :=
  map_fold
    (fun entity ids rev =>
       <[entity := rebuildEntity ids (default ∅ (rev !! entity))]> rev)
    rev fwd.

(** [loadMappingsFromFile(filePath)]: [Object.assign] copies the top-level
    properties of the document over those of [idMappings]. *)
Definition loadMappingsFromFile (filePath : string) (m : mapper) (fs : files)
    : bool * mapper :=
  match fs !! filePath with
  | Some loadedMappings =>
      let fwd := docTables loadedMappings ∪ idMappings m in
      let mt := default (_meta m) (docMeta loadedMappings) in
      (true, Mapper fwd mt (rebuildReverse fwd (reverseIdMappings m)))
  | None => (false, m)
  end.

(** [getOriginalId(entity, uuid)]; for listings the tables of the listing
    types are tried in the order of the list. *)
Definition getOriginalId (entity uuid : string) (m : mapper) : option string :=
  if String.eqb uuid "" then None
  else if truthy (lookup2 (reverseIdMappings m) entity uuid)
  then lookup2 (reverseIdMappings m) entity uuid
  else if String.eqb entity "listings" then
    match find (fun listingEntity =>
                  truthy (lookup2 (reverseIdMappings m) listingEntity uuid))
            listingEntities with
    | Some listingEntity => lookup2 (reverseIdMappings m) listingEntity uuid
    | None => None
    end
  else None.

(** [mapIdsToUUIDs(entity, oldIds)]; [oldIds] is [None] when the argument
    is missing or not an array. *)
Definition mapIdsToUUIDs (entity : string) (oldIds : option (list sourceId))
    (m : mapper) : list string :=
  match oldIds with
  | None => []
  | Some ids => omap (fun id => getUUID entity id m) ids
  end.

(** [ensureRelationshipMappings(sourceEntity, targetEntity, sourceId,
    targetId)]: the object of the two identifiers, or [None] when one of
    the two calls throws. *)
Definition ensureRelationshipMappings (e1 e2 : env) (sourceEntity targetEntity : string)
    (sourceId targetId : sourceId) (m : mapper)
    : option (option string * option string) * mapper :=
  match getOrCreateUUID e1 sourceEntity sourceId defaults m with
  | (Throw, m1) => (None, m1)
  | (Return sourceUUID, m1) =>
      match getOrCreateUUID e2 targetEntity targetId defaults m1 with
      | (Throw, m2) => (None, m2)
      | (Return targetUUID, m2) => (Some (sourceUUID, targetUUID), m2)
      end
  end.

(** [getEntityMappingsCount(entity)] *)
Definition getEntityMappingsCount (entity : string) (m : mapper) : Z :=
  match idMappings m !! entity with
  | Some ids => Z.of_nat (size ids)
  | None => 0
  end.

(** [getMappingStats()] *)
Record stats : Type := Stats {
  statsTotalMappings : Z;
  statsLastUpdated : timestamp;
  entityCounts : gmap string Z
}.

Definition getMappingStats (m : mapper) : stats :=
  Stats (countMappings (idMappings m))
        (lastUpdated (_meta m))
        ((fun ids : table => Z.of_nat (size ids)) <$> idMappings m).

(** The identifier that the default options derive for a pair: version 5
    of the seed [entity:id] under the namespace constant. *)
Definition derive (entity : string) (oldId : sourceId) : option string :=
  Uuid.v5 (entity ++ ":" ++ toString oldId) UUID_NAMESPACE.

(** Calls made by concurrent transforms. A call has no [await] in it: the
    event loop runs the pending calls one at a time, each to its end, in
    some order; [callers] lists what each call reads, in that order. *)
Fixpoint runCallers (callers : list env) (entity : string) (oldId : sourceId)
    (m : mapper) : list completion * mapper :=
  match callers with
  | [] => ([], m)
  | e :: rest =>
      let '(r, m1) := getOrCreateUUID e entity oldId defaults m in
      let '(rs, m2) := runCallers rest entity oldId m1 in
      (r :: rs, m2)
  end.

End UuidMapper.

(** ** unnamed/part_007, the older module of the same name

    The table has no metadata and no reverse index, identifiers are random
    ([uuidv4]), and the listing types are not mirrored. *)

Module Legacy.
Import UuidMapper.

Definition initial : tables :=
  list_to_map
    (map (fun entity => (entity, ∅))
       ["users"; "businesses"; "franchise"; "investors"; "listings"; "plans";
        "reviews"; "subscriptions"; "transactions"; "chatrooms"; "messages";
        "industries"; "sub_industries"; "cities"; "states"]).

(** [getOrCreateUUID(entity, oldId)]; [random] is what [uuidv4()] gives
    when it is called. *)
Definition getOrCreateUUID (random : string) (entity : string) (oldId : sourceId)
    (idMappings : tables) : option string * tables :=
  if falsy oldId || isZero oldId then (None, idMappings)
  else
    let id := toString oldId in
    let idMappings := ensure entity idMappings in
    if truthy (lookup2 idMappings entity id) then (lookup2 idMappings entity id, idMappings)
    else (Some random, assign entity id random idMappings).

(** [getUUID(entity, oldId)] *)
Definition getUUID (entity : string) (oldId : sourceId) (idMappings : tables)
    : option string :=
  if falsy oldId || isZero oldId then None
  else
    let id := toString oldId in
    if truthy (lookup2 idMappings entity id) then lookup2 idMappings entity id else None.

(** [setUUID(entity, oldId, uuid)] *)
Definition setUUID (entity : string) (oldId : sourceId) (uuid : string)
    (idMappings : tables) : tables :=
  if falsy oldId || isZero oldId then idMappings
  else assign entity (toString oldId) uuid (ensure entity idMappings).

(** [saveMappingsToFile(filePath)] *)
Definition saveMappingsToFile (filePath : string) (idMappings : tables)
    (fs : gmap string tables) : gmap string tables :=
  <[filePath := idMappings]> fs.

(** [loadMappingsFromFile(filePath)] *)
Definition loadMappingsFromFile (filePath : string) (idMappings : tables)
    (fs : gmap string tables) : tables :=
  match fs !! filePath with
  | Some loadedMappings => loadedMappings ∪ idMappings
  | None => idMappings
  end.

End Legacy.

(** ** utils/migration-transformer.js: the second reader of INSERT statements

    [parseSQLFile] reads the dump line by line and hands each complete
    INSERT statement to [processInsertStatement], which has its own row
    splitter, field scanner and value lexer. The two regular expressions
    at the head of [processInsertStatement] are not modelled: the row
    splitter is given [valuesStr], the text from the first opening
    parenthesis after VALUES to the semicolon, less a trailing comma. *)

Module MigrationTransformer.
Import JsString JsNumber.

Inductive value : Type :=
  | Null
  | Str (s : string)
  | Num (x : number)
  | Bool (b : bool).

(** [parseValue(valueStr)] *)
Definition parseValue (valueStr : string) : value :=
  if String.eqb (toUpperCase valueStr) "NULL" then Null
  else if startsWith valueStr "'" && endsWith valueStr "'" then
    Str (replaceAll2 backslash squote "'"
           (substring 1 (String.length valueStr - 1) valueStr))
  else if negb (isNaN valueStr) then Num (toNumber valueStr)
  else if String.eqb (toUpperCase valueStr) "TRUE" then Bool true
  else if String.eqb (toUpperCase valueStr) "FALSE" then Bool false
  else Str valueStr.

(** [char === "'" && (i === 0 || str[i-1] !== '\\')], with [previous] the
    character before [char], if there is one. *)
Definition quoteAt (previous : option ascii) (char : ascii) : bool :=
  Ascii.eqb char squote
  && match previous with
     | Some p => negb (Ascii.eqb p backslash)
     | None => true
     end.

(** The scanner state of [parseRowValues]. *)
Record rowState : Type := RowState {
  values : list value;
  current : string;
  inString : bool;
  previous : option ascii
}.

(** One turn of the loop of [parseRowValues]. *)
Definition rowStep (st : rowState) (char : ascii) : rowState :=
  if quoteAt (previous st) char then
    RowState (values st) (push (current st) char) (negb (inString st)) (Some char)
  else if Ascii.eqb char "," && negb (inString st) then
    RowState (values st ++ [parseValue (trim (current st))]) "" (inString st) (Some char)
  else RowState (values st) (push (current st) char) (inString st) (Some char).

Fixpoint rowLoop (st : rowState) (s : string) : rowState :=
  match s with
  | EmptyString => st
  | String c r => rowLoop (rowStep st c) r
  end.

Definition rowInit : rowState := RowState [] "" false None.

(** [parseRowValues(rowStr)] *)
Definition parseRowValues (rowStr : string) : list value :=
  let st := rowLoop rowInit rowStr in
  if String.eqb (trim (current st)) "" then values st
  else (values st ++ [parseValue (trim (current st))])%list.

(** The state of the row splitter of [processInsertStatement]; the
    fields are [rows], [current], [parenthesisLevel], [inString] and the
    character before the one at hand. *)
Record splitState : Type := SplitState {
  rows : list string;
  currentRow : string;
  parenthesisLevel : Z;
  inRowString : bool;
  previousChar : option ascii
}.

(** One turn of the splitter's loop. What follows the two tests on
    parentheses, when neither ends the turn, is [rest]. *)
Definition splitStep (st : splitState) (char : ascii) : splitState :=
  let inString :=
    if quoteAt (previousChar st) char then negb (inRowString st) else inRowString st in
  let rest (level : Z) : splitState :=
    if Ascii.eqb char "," && (level =? 0) && negb inString then
      SplitState (rows st) (currentRow st) level inString (Some char)
    else if 0 <? level then
      SplitState (rows st) (push (currentRow st) char) level inString (Some char)
    else SplitState (rows st) (currentRow st) level inString (Some char) in
  if Ascii.eqb char "(" && negb inString then
    let level := parenthesisLevel st + 1 in
    if level =? 1 then SplitState (rows st) "" level inString (Some char)
    else rest level
  else if Ascii.eqb char ")" && negb inString then
    let level := parenthesisLevel st - 1 in
    if level =? 0 then
      SplitState (rows st ++ [currentRow st]) (currentRow st) level inString (Some char)
    else rest level
  else rest (parenthesisLevel st).

Fixpoint splitLoop (st : splitState) (s : string) : splitState :=
  match s with
  | EmptyString => st
  | String c r => splitLoop (splitStep st c) r
  end.

Definition splitInit : splitState := SplitState [] "" 0 false None.

(** The [rows] of [processInsertStatement] for [valuesStr]. *)
Definition splitRows (valuesStr : string) : list string :=
  rows (splitLoop splitInit valuesStr).

(** [for (let i = 0; i < Math.min(columnNames.length, rowValues.length); i++)
    rowObject[columnNames[i]] = rowValues[i]]: the names and the values
    side by side, as far as the shorter of the two goes. *)
Fixpoint fillObject (columnNames : list string) (rowValues : list value)
    (rowObject : gmap string value) : gmap string value :=
  match columnNames, rowValues with
  | c :: columnNames, v :: rowValues => fillObject columnNames rowValues (<[c := v]> rowObject)
  | _, _ => rowObject
  end.

(** What is pushed on [tablesData[tableName]] for a row: an object, or
    the array of the values when no column names are known. *)
Inductive entry : Type :=
  | RowObject (rowObject : gmap string value)
  | RowArray (rowValues : list value).

Definition entryOf (columnNames : list string) (rowValues : list value) : option entry :=
  if (0 <? List.length rowValues)%nat then
    if (0 <? List.length columnNames)%nat
    then Some (RowObject (fillObject columnNames rowValues ∅))
    else Some (RowArray rowValues)
  else None.

(** The entries that [processInsertStatement] adds to the table. *)
Definition entriesOf (valuesStr : string) (columnNames : list string) : list entry :=
  omap (fun row => entryOf columnNames (parseRowValues row)) (splitRows valuesStr).

End MigrationTransformer.

(** ** utils/batch-processor.js, and the slicing of utils/firestore-service.js

    [processBatch] awaits [processFn] item by item and [writeBatch] batch
    by batch; no other task is taken to run in between. What [processFn]
    does to the state it works on (the identifier mapper, for the
    transforms of the repository) and what [writeBatch] does to the
    store are the two functions of the section. The progress bar and the
    log are left out. Batch sizes are integers. *)

Module BatchProcessor.

(** [k] as [Array.prototype.slice] reads a bound: from the end when
    negative, and kept within the array. *)
Definition relativeIndex (len k : Z) : Z :=
  if k <? 0 then Z.max (len + k) 0 else Z.min k len.

(** [items.slice(start, stop)] *)
Definition slice {A : Type} (items : list A) (start stop : Z) : list A :=
  let len := Z.of_nat (List.length items) in
  let k := relativeIndex len start in
  let final := relativeIndex len stop in
  take (Z.to_nat (final - k)) (drop (Z.to_nat k) items).

(** [for (let i = 0; i < items.length; i += batchSize)
    batches.push(items.slice(i, i + batchSize))], from index [i] on. The
    loop has no other exit: [fuel] bounds the number of its turns, and
    [None] says that they did not suffice. *)
Fixpoint batchesFrom {A : Type} (fuel : nat) (batchSize : Z) (items : list A) (i : Z)
    : option (list (list A)) :=
  if i <? Z.of_nat (List.length items) then
    match fuel with
    | O => None
    | S fuel' =>
        match batchesFrom fuel' batchSize items (i + batchSize) with
        | Some batches => Some (slice items i (i + batchSize) :: batches)
        | None => None
        end
    end
  else Some [].

(** The slices of which [writeBatch] of firestore-service.js makes one
    Firestore batch each. *)
Definition BATCH_LIMIT : Z := 490.

Definition writeBatchSlices {A : Type} (operations : list A) : option (list (list A)) :=
  batchesFrom (List.length operations) BATCH_LIMIT operations 0.

Section ProcessBatch.
Context {item data S W : Type}.

Record operation : Type := Operation {
  opCollection : string;
  opDocId : string;
  opData : data
}.

(** What [processFn] resolves to: a falsy value, an array of operations,
    or another value, of which the properties [collection], [docId] and
    [data] are read; a property that is missing or falsy is the empty
    string, or [None]. *)
Inductive processResult : Type :=
  | Nothing
  | Operations (ops : list operation)
  | Document (collection docId : string) (data : option data).

Inductive outcome : Type :=
  | Resolved (r : processResult)
  | Rejected (message : string).

(** An entry of [errors]: for an item that [processFn] rejected, or for
    an operation of a batch that [writeBatch] rejected. *)
Inductive failure : Type :=
  | ItemFailure (i : item) (message : string)
  | WriteFailure (collection docId : string) (message : string).

Record options : Type := Options {
  batchSize : Z;
  collection : string;
  dryRun : bool
}.

Record result : Type := Result {
  processedCount : Z;
  operationsCount : Z;
  errors : list failure;
  operations : list operation
}.

Variable processFn : item -> S -> outcome * S.
Variable writeBatch : list operation -> W -> option string * W.

Definition nonEmpty (s : string) : bool := negb (String.eqb s "").

(** The operations that a result adds to [batchOperations]. *)
Definition operationsOf (collection : string) (r : processResult) : list operation :=
  match r with
  | Nothing => []
  | Operations ops => ops
  | Document resultCollection docId (Some data) =>
      if nonEmpty docId && nonEmpty collection then [Operation collection docId data]
      else if nonEmpty resultCollection && nonEmpty docId
      then [Operation resultCollection docId data]
      else []
  | Document _ _ None => []
  end.

(** The loop over the items of one batch. *)
Fixpoint runBatch (collection : string) (batch : list item)
    (batchOperations : list operation) (errors : list failure) (processedCount : Z)
    (s : S) : list operation * list failure * Z * S :=
  match batch with
  | [] => (batchOperations, errors, processedCount, s)
  | i :: rest =>
      match processFn i s with
      | (Resolved r, s') =>
          runBatch collection rest (batchOperations ++ operationsOf collection r)
            errors (processedCount + 1) s'
      | (Rejected message, s') =>
          runBatch collection rest batchOperations
            (errors ++ [ItemFailure i message]) processedCount s'
      end
  end.

(** The loop over the batches. *)
Fixpoint runBatches (opts : options) (batches : list (list item))
    (operations : list operation) (errors : list failure) (processedCount : Z)
    (s : S) (w : W) : result * S * W :=
  match batches with
  | [] =>
      (Result processedCount (Z.of_nat (List.length operations)) errors operations, s, w)
  | batch :: rest =>
      let '(batchOperations, errors, processedCount, s) :=
        runBatch (collection opts) batch [] errors processedCount s in
      let operations := (operations ++ batchOperations)%list in
      if (0 <? List.length batchOperations)%nat && negb (dryRun opts) then
        match writeBatch batchOperations w with
        | (None, w') => runBatches opts rest operations errors processedCount s w'
        | (Some message, w') =>
            runBatches opts rest operations
              (errors ++ map (fun op => WriteFailure (opCollection op) (opDocId op) message)
                           batchOperations)
              processedCount s w'
        end
      else runBatches opts rest operations errors processedCount s w
  end.

(** [processBatch(items, processFn, options)]; [items] is [None] when the
    argument is missing. *)
Definition processBatch (fuel : nat) (items : option (list item)) (opts : options)
    (s : S) (w : W) : option (result * S * W) :=
  match items with
  | None | Some [] => Some (Result 0 0 [] [], s, w)
  | Some items =>
      match batchesFrom fuel (batchSize opts) items 0 with
      | Some batches => Some (runBatches opts batches [] [] 0 s w)
      | None => None
      end
  end.

(** A [writeBatch] that also keeps the list of the arrays it was called
    with. *)
Definition recording (ops : list operation) (lw : list (list operation) * W)
    : option string * (list (list operation) * W) :=
  let '(r, w') := writeBatch ops lw.2 in (r, ((lw.1 ++ [ops])%list, w')).

(** The entry of [errors] for an operation of a rejected batch. *)
Definition writeFailureOf (message : string) (op : operation) : failure :=
  WriteFailure (opCollection op) (opDocId op) message.

(** The entries of [errors] that come from [processFn], and those that
    come from [writeBatch]. *)
Definition isItemFailure (f : failure) : bool :=
  match f with ItemFailure _ _ => true | WriteFailure _ _ _ => false end.

Definition itemFailures (errors : list failure) : list failure :=
  List.filter isItemFailure errors.

Definition writeFailures (errors : list failure) : list failure :=
  List.filter (fun f => negb (isItemFailure f)) errors.

End ProcessBatch.

End BatchProcessor.

Import JsString JsNumber SqlDumpParser.

(** Splits conjunctions only, so that no equation is tried by plain
    conversion. *)
Ltac conjuncts := repeat match goal with |- _ /\ _ => split end.

(** * Properties *)

(** ** Strings *)

Lemma append_length (s t : string) :
  String.length (s ++ t) = (String.length s + String.length t)%nat.
Proof. induction s as [|c s IH]; simpl; [reflexivity | now rewrite IH]. Qed.

Lemma substring_whole (s : string) : String.substring 0 (String.length s) s = s.
Proof. induction s as [|c s IH]; simpl; [reflexivity | now rewrite IH]. Qed.

Lemma substring_prefix (s t : string) :
  String.substring 0 (String.length s) (s ++ t) = s.
Proof.
  induction s as [|c s IH]; simpl.
  - now destruct t.
  - now rewrite IH.
Qed.

Lemma substring_suffix (s t : string) :
  String.substring (String.length s) (String.length t) (s ++ t) = t.
Proof. induction s as [|c s IH]; simpl; [apply substring_whole | exact IH]. Qed.

Lemma endsWith_append (s t : string) : endsWith (s ++ t) t = true.
Proof.
  unfold endsWith. rewrite append_length.
  replace (String.length s + String.length t - String.length t)%nat
    with (String.length s) by lia.
  rewrite substring_suffix, String.eqb_refl, andb_true_r.
  apply Nat.leb_le. lia.
Qed.

Lemma replaceAll2_absent (x y : ascii) (r s : string) :
  allChars (fun c => negb (Ascii.eqb c x)) s = true -> replaceAll2 x y r s = s.
Proof.
  induction s as [|a t IH]; simpl; [reflexivity |].
  intros H. apply andb_true_iff in H as [Ha Ht].
  destruct t as [|b u]; [reflexivity |].
  apply negb_true_iff in Ha. rewrite Ha. simpl.
  f_equal. apply IH, Ht.
Qed.

Lemma allChars_impl (p q : ascii -> bool) (s : string) :
  (forall c, p c = true -> q c = true) -> allChars p s = true -> allChars q s = true.
Proof.
  intros Hpq. induction s as [|c s IH]; simpl; [reflexivity |].
  intros H. apply andb_true_iff in H as [Hc Hs].
  now rewrite (Hpq c Hc), (IH Hs).
Qed.

Lemma numeralChar_not_backslash (c : ascii) :
  numeralChar c = true -> negb (Ascii.eqb c backslash) = true.
Proof.
  destruct c as [[] [] [] [] [] [] [] []]; vm_compute; congruence.
Qed.

(** A quoted token without a backslash is lexed to what stands between
    the quotes. *)
Lemma processValue_quoted (d : string) :
  allChars (fun c => negb (Ascii.eqb c backslash)) d = true ->
  processValue ("'" ++ d ++ "'") = VString d.
Proof.
  intros Hd.
  assert (Hends : endsWith (String squote (d ++ "'")) "'" = true)
    by exact (endsWith_append ("'" ++ d) "'").
  assert (Hsub : substring 1 (String.length (String squote (d ++ "'")) - 1)
                   (String squote (d ++ "'")) = d).
  { unfold substring. simpl String.length. rewrite append_length. simpl String.length.
    replace (S (String.length d + 1) - 1)%nat with (S (String.length d)) by lia.
    replace (Nat.min 1 (S (String.length d + 1))) with 1%nat by lia.
    replace (Nat.min (S (String.length d)) (S (String.length d + 1)))
      with (S (String.length d)) by lia.
    replace (Nat.min 1 (S (String.length d))) with 1%nat by lia.
    replace (Nat.max 1 (S (String.length d)) - 1)%nat with (String.length d) by lia.
    simpl String.substring. apply substring_prefix. }
  change ("'" ++ d ++ "'") with (String squote (d ++ "'")).
  unfold processValue. rewrite Hends, Hsub.
  replace (String.eqb (toUpperCase (String squote (d ++ "'"))) "NULL") with false
    by reflexivity.
  replace (startsWith (String squote (d ++ "'")) "'") with true by reflexivity.
  simpl andb. simpl orb. cbv iota.
  rewrite (replaceAll2_absent backslash squote _ d Hd).
  rewrite (replaceAll2_absent backslash dquote _ d Hd).
  now rewrite (replaceAll2_absent backslash backslash _ d Hd).
Qed.

(** ** Value lexer *)

(** The lexer by itself, on tokens that still have their quotes:
    [processValue] maps NULL in any case to null, the quoted
    O-backslash-quote-Brien to the string O'Brien, 42 to the Number 42,
    3.14 to the Number nearest 3.14, and every quoted numeral to the
    string between its quotes. *)
Theorem processValue_literals :
  (forall b1 b2 b3 b4 : bool,
      processValue
        (String (if b1 then "N" else "n")
           (String (if b2 then "U" else "u")
              (String (if b3 then "L" else "l")
                 (String (if b4 then "L" else "l") "")))) = VNull)
  /\ processValue "'O\'Brien'" = VString "O'Brien"
  /\ processValue "42" = VNumber (ofInteger false 42)
  /\ hasValue (ofInteger false 42) 42
  /\ processValue "3.14" = VNumber (ofDecimal false 314 (-2))
  /\ nearest (ofDecimal false 314 (-2)) (314 # 100)
  /\ (forall d, numeral d = true -> processValue ("'" ++ d ++ "'") = VString d).
Proof.
  repeat split.
  - intros [] [] [] []; reflexivity.
  - vm_compute. discriminate.
  - intros d Hd. apply processValue_quoted.
    eapply allChars_impl; [| exact Hd]. apply numeralChar_not_backslash.
Qed.

Lemma processValue_literals_witness : processValue "'42'" = VString "42".
Proof.
  exact (proj2 (proj2 (proj2 (proj2 (proj2 (proj2 processValue_literals))))) "42" eq_refl).
Defined.


(** The two Numbers of the theorem, bit for bit: 42 is [42 * 2^47] at
    exponent -47, and the Number nearest 3.14 is 0x1.91eb851eb851f at
    exponent 1. *)
Lemma number_literals :
  ofInteger false 42 = S754_finite false 5910974510923776 (-47)
  /\ ofDecimal false 314 (-2) = S754_finite false 7070651414971679 (-51).
Proof. split; reflexivity. Qed.

(** Inside a row text the quotes are taken off by [parseValuesComplex]
    before [processValue] sees the token: there a quoted numeral, and a
    quoted NULL, are lexed like the bare ones. *)
Lemma quoted_tokens_in_a_row :
  parseValuesComplex "'42','NULL','x'" = [VNumber (ofInteger false 42); VNull; VString "x"].
Proof. reflexivity. Qed.

(** ** Row splitter *)

(** C4. On the two-row text of the specification [splitInsertValues]
    returns the first row with both its parentheses and the second with
    its closing one only; [extractTableData] then strips the first, not
    the second, and the last field of the second row is lexed as the
    string made of 3 and the parenthesis. *)
Theorem splitInsertValues_two_rows :
  splitInsertValues "(1,'a,b',NULL),(2,'c''d',3)" = ["(1,'a,b',NULL)"; "2,'c''d',3)"]
  /\ map stripParens (splitInsertValues "(1,'a,b',NULL),(2,'c''d',3)")
     = ["1,'a,b',NULL"; "2,'c''d',3)"]
  /\ map parseValuesComplex
       (map stripParens (splitInsertValues "(1,'a,b',NULL),(2,'c''d',3)"))
     = [[VNumber (ofInteger false 1); VString "a,b"; VNull];
        [VNumber (ofInteger false 2); VString "cd"; VString "3)"]].
Proof. repeat split. Qed.

(** After the first separator the depth counter is one short, so no later
    separator is seen: four rows come out as two texts. *)
Lemma splitInsertValues_four_rows :
  splitInsertValues "(1,2),(3,4),(5,6),(7,8)" = ["(1,2)"; "3,4),(5,6),(7,8)"].
Proof. reflexivity. Qed.

(** ** Field splitter *)

Lemma fieldLoop_app (r t : string) (st : fieldState) :
  fieldLoop st (r ++ t) = fieldLoop (fieldLoop st r) t.
Proof. revert st. induction r as [|c r IH]; intros st; simpl; [reflexivity | apply IH]. Qed.

Lemma push_append (s t : string) (c : ascii) : push s c ++ t = s ++ String c t.
Proof.
  unfold push. induction s as [|a s IH]; [reflexivity |].
  change (String a ((s ++ String c "") ++ t) = String a (s ++ String c t)).
  now f_equal.
Qed.

Lemma append_empty (s : string) : s ++ "" = s.
Proof.
  induction s as [|a s IH]; [reflexivity |].
  change (String a (s ++ "") = String a s). now f_equal.
Qed.

Lemma whitespace_plain (c : ascii) :
  isWhiteSpace c = true ->
  Ascii.eqb c backslash = false /\ isQuote c = false /\ Ascii.eqb c "," = false.
Proof.
  destruct c as [[] [] [] [] [] [] [] []]; vm_compute; intros H;
    first [discriminate H | repeat split].
Qed.

Lemma fieldLoop_blank (w : string) :
  blank w = true ->
  forall vs cur ins sc,
    fieldLoop (FieldState vs cur ins sc false) w = FieldState vs (cur ++ w) ins sc false.
Proof.
  induction w as [|c w IH]; intros Hw vs cur ins sc; simpl.
  - now rewrite append_empty.
  - unfold blank in Hw. simpl in Hw. apply andb_true_iff in Hw as [Hc Hw].
    destruct (whitespace_plain c Hc) as (Hb & Hq & Hcomma).
    rewrite Hb, Hq, Hcomma. simpl. rewrite (IH Hw). now rewrite push_append.
Qed.

Lemma trim_blank (w : string) : blank w = true -> trim w = "".
Proof.
  unfold trim, blank. induction w as [|c w IH]; simpl; [reflexivity |].
  intros H. apply andb_true_iff in H as [Hc Hw]. rewrite Hc. exact (IH Hw).
Qed.

Lemma fieldStep_settled (st : fieldState) (c : ascii) :
  settled st -> settled (fieldStep st c).
Proof.
  destruct st as [vs cur ins sc esc]. unfold settled, fieldStep. simpl.
  intros H.
  destruct esc; simpl; [exact H |].
  destruct (Ascii.eqb c backslash); simpl; [exact H |].
  rewrite andb_true_r.
  destruct (isQuote c); simpl.
  - destruct ins; simpl; [| discriminate].
    destruct (sameChar sc c); simpl; [reflexivity | discriminate].
  - destruct (Ascii.eqb c "," && negb ins); simpl; exact H.
Qed.

Lemma fieldLoop_settled (r : string) (st : fieldState) :
  settled st -> settled (fieldLoop st r).
Proof.
  revert st. induction r as [|c r IH]; intros st H; simpl; [exact H |].
  apply IH, fieldStep_settled, H.
Qed.

Lemma fieldStep_withValues (vs : list scalar) (st : fieldState) (c : ascii) :
  fieldStep (withValues vs st) c = withValues vs (fieldStep st c).
Proof.
  destruct st as [vs0 cur ins sc esc]. unfold withValues, fieldStep. simpl.
  destruct esc; simpl; [reflexivity |].
  destruct (Ascii.eqb c backslash); simpl; [reflexivity |].
  destruct (isQuote c); simpl.
  - destruct ins; simpl; [| reflexivity]. now destruct (sameChar sc c).
  - destruct (Ascii.eqb c "," && negb ins); simpl; [| reflexivity].
    now rewrite app_assoc.
Qed.

Lemma fieldLoop_withValues (vs : list scalar) (r : string) (st : fieldState) :
  fieldLoop (withValues vs st) r = withValues vs (fieldLoop st r).
Proof.
  revert st. induction r as [|c r IH]; intros st; cbn [fieldLoop]; [reflexivity |].
  now rewrite fieldStep_withValues, IH.
Qed.

Lemma fieldFinish_withValues (vs : list scalar) (st : fieldState) :
  fieldFinish (withValues vs st) = (vs ++ fieldFinish st)%list.
Proof.
  unfold fieldFinish, withValues. simpl.
  destruct (negb (String.eqb (trim (currentValue st)) "")); [| reflexivity].
  now rewrite app_assoc.
Qed.

(** The state after a comma read outside a string. *)
Lemma fieldStep_comma (vs : list scalar) (cur : string) (sc : option ascii) :
  fieldStep (FieldState vs cur false sc false) ","
  = FieldState (vs ++ [processValue (trim cur)]) "" false sc false.
Proof. reflexivity. Qed.

(** A quoted blank read outside a string leaves the blank as the current
    value. *)
Lemma fieldLoop_quoted_blank (w : string) (vs : list scalar) (q : ascii) :
  isQuote q = true -> blank w = true ->
  fieldLoop (FieldState vs "" false None false) (String q (w ++ String q ""))
  = FieldState vs w false None false.
Proof.
  intros Hq Hw.
  assert (Hopen : fieldStep (FieldState vs "" false None false) q
                  = FieldState vs "" true (Some q) false).
  { unfold isQuote in Hq. apply orb_true_iff in Hq as [Hq | Hq];
      apply Ascii.eqb_eq in Hq; subst q; reflexivity. }
  assert (Hclose : fieldStep (FieldState vs w true (Some q) false) q
                   = FieldState vs w false None false).
  { unfold isQuote in Hq. apply orb_true_iff in Hq as [Hq | Hq];
      apply Ascii.eqb_eq in Hq; subst q; reflexivity. }
  cbn [fieldLoop]. rewrite Hopen, fieldLoop_app, (fieldLoop_blank w Hw).
  change ("" ++ w) with w. cbn [fieldLoop]. exact Hclose.
Qed.

Lemma fieldFinish_blank (w : string) (vs : list scalar) ins sc esc :
  blank w = true -> fieldFinish (FieldState vs w ins sc esc) = vs.
Proof.
  intros Hw. unfold fieldFinish. cbn [currentValue values].
  now rewrite (trim_blank w Hw).
Qed.

(** C10. When the scan of [r] ends outside a string with no escape
    pending, a last field that is blank, bare or between quotes, is not
    returned: the result has the fields of [r] and nothing more (and no
    field at all when the blank is the whole row). The same field
    followed by a comma and more text is returned, as the empty string. *)
Theorem parseValuesComplex_blank_last_field (r w t : string) (q : ascii) :
  inString (fieldLoop fieldInit r) = false ->
  escaped (fieldLoop fieldInit r) = false ->
  blank w = true ->
  isQuote q = true ->
  let st := fieldLoop fieldInit r in
  let fields := (values st ++ [processValue (trim (currentValue st))])%list in
  let quoted := String q (w ++ String q "") in
  parseValuesComplex (r ++ "," ++ w) = fields
  /\ parseValuesComplex (r ++ "," ++ quoted) = fields
  /\ parseValuesComplex (r ++ "," ++ w ++ "," ++ t)
     = (fields ++ VString "" :: parseValuesComplex t)%list
  /\ parseValuesComplex (r ++ "," ++ quoted ++ "," ++ t)
     = (fields ++ VString "" :: parseValuesComplex t)%list
  /\ parseValuesComplex w = []
  /\ parseValuesComplex quoted = [].
Proof.
  intros Hin Hesc Hw Hq st fields quoted.
  assert (Hsc : stringChar st = None).
  { apply (fieldLoop_settled r fieldInit); [intros _; reflexivity | exact Hin]. }
  assert (Hst : st = FieldState (values st) (currentValue st) false None false).
  { subst st. destruct (fieldLoop fieldInit r); simpl in *. congruence. }
  assert (Hcomma : forall u, fieldLoop fieldInit (r ++ "," ++ u)
                             = fieldLoop (FieldState fields "" false None false) u).
  { intros u. rewrite fieldLoop_app. fold st. rewrite Hst.
    change ("," ++ u) with (String "," u). cbn [fieldLoop].
    now rewrite fieldStep_comma. }
  assert (Hrest : forall u, fieldFinish (fieldLoop (FieldState (fields ++ [VString ""]) "" false None false) u)
                            = (fields ++ VString "" :: parseValuesComplex u)%list).
  { intros u.
    replace (FieldState (fields ++ [VString ""]) "" false None false)
      with (withValues (fields ++ [VString ""]) fieldInit)
      by (unfold withValues; simpl; now rewrite app_nil_r).
    rewrite fieldLoop_withValues, fieldFinish_withValues, <- app_assoc. reflexivity. }
  unfold parseValuesComplex. conjuncts.
  - rewrite Hcomma, (fieldLoop_blank w Hw). now apply fieldFinish_blank.
  - rewrite Hcomma. unfold quoted.
    rewrite (fieldLoop_quoted_blank w _ q Hq Hw). now apply fieldFinish_blank.
  - rewrite Hcomma, fieldLoop_app, (fieldLoop_blank w Hw). change ("" ++ w) with w.
    change ("," ++ t) with (String "," t). cbn [fieldLoop].
    rewrite fieldStep_comma, (trim_blank w Hw). apply Hrest.
  - rewrite Hcomma, fieldLoop_app. unfold quoted.
    rewrite (fieldLoop_quoted_blank w _ q Hq Hw).
    change ("," ++ t) with (String "," t). cbn [fieldLoop].
    rewrite fieldStep_comma, (trim_blank w Hw). apply Hrest.
  - unfold fieldInit. rewrite (fieldLoop_blank w Hw). now apply fieldFinish_blank.
  - unfold fieldInit, quoted.
    rewrite (fieldLoop_quoted_blank w _ q Hq Hw). now apply fieldFinish_blank.
Qed.

Lemma parseValuesComplex_blank_last_field_witness :
  parseValuesComplex "1,2," = [VNumber (ofInteger false 1); VNumber (ofInteger false 2)]
  /\ parseValuesComplex "1,2,''" = [VNumber (ofInteger false 1); VNumber (ofInteger false 2)]
  /\ parseValuesComplex "1,2,,3"
     = [VNumber (ofInteger false 1); VNumber (ofInteger false 2); VString "";
        VNumber (ofInteger false 3)]
  /\ parseValuesComplex "1,2,'',3"
     = [VNumber (ofInteger false 1); VNumber (ofInteger false 2); VString "";
        VNumber (ofInteger false 3)]
  /\ parseValuesComplex "" = []
  /\ parseValuesComplex "''" = [].
Proof.
  exact (parseValuesComplex_blank_last_field "1,2" "" "3" squote
           eq_refl eq_refl eq_refl eq_refl).
Defined.

(** ** Zip of the schema and a row *)



Lemma fillRow_dom (columns : list string) (values : list scalar) :
  forall (i : nat) (rowData : row),
    (i + List.length values <= List.length columns)%nat ->
    dom (fillRow columns values i rowData)
    = dom rowData ∪ list_to_set (take (List.length values) (drop i columns)).
Proof.
  induction values as [|v rest IH]; intros i rowData Hlen; simpl.
  - set_solver.
  - simpl in Hlen. destruct (columns !! i) as [c|] eqn:Hc.
    + rewrite IH by lia. rewrite dom_insert_L.
      rewrite (drop_S _ _ _ Hc). simpl. set_solver.
    + apply lookup_ge_None in Hc. lia.
Qed.




(** ** Identifier mapper *)

Import UuidMapper.

Lemma lookup2_assign_eq (entity k v : string) (t : tables) :
  lookup2 (assign entity k v t) entity k = Some v.
Proof. unfold lookup2, assign. rewrite lookup_insert_eq. simpl. apply lookup_insert_eq. Qed.

Lemma lookup2_assign_ne (entity k v entity' k' : string) (t : tables) :
  entity ≠ entity' \/ k ≠ k' ->
  lookup2 (assign entity k v t) entity' k' = lookup2 t entity' k'.
Proof.
  unfold lookup2, assign. intros H.
  destruct (decide (entity = entity')) as [<- | Hne].
  - rewrite lookup_insert_eq. simpl.
    destruct H as [H | H]; [congruence |].
    rewrite lookup_insert_ne by exact H.
    destruct (t !! entity); simpl; [reflexivity | apply lookup_empty].
  - now rewrite lookup_insert_ne.
Qed.

Lemma lookup2_ensure (entity entity' k : string) (t : tables) :
  lookup2 (ensure entity t) entity' k = lookup2 t entity' k.
Proof.
  unfold lookup2, ensure. destruct (t !! entity) eqn:Ht; [reflexivity |].
  destruct (decide (entity = entity')) as [<- | Hne].
  - rewrite lookup_insert_eq, Ht. simpl. apply lookup_empty.
  - now rewrite lookup_insert_ne.
Qed.

Lemma ensure_present (entity entity' : string) (t : tables) :
  is_Some (t !! entity') -> is_Some (ensure entity t !! entity').
Proof.
  unfold ensure. intros H. destruct (t !! entity) eqn:Ht; [exact H |].
  destruct (decide (entity = entity')) as [<- | Hne].
  - rewrite lookup_insert_eq. eauto.
  - now rewrite lookup_insert_ne.
Qed.

Lemma assign_present (entity k v entity' : string) (t : tables) :
  is_Some (t !! entity') -> is_Some (assign entity k v t !! entity').
Proof.
  unfold assign. intros H.
  destruct (decide (entity = entity')) as [<- | Hne].
  - rewrite lookup_insert_eq. eauto.
  - now rewrite lookup_insert_ne.
Qed.

Lemma truthy_Some (v : option string) :
  truthy v = true -> exists u, v = Some u /\ u ≠ "".
Proof.
  destruct v as [u|]; simpl; [| discriminate].
  intros H. exists u. split; [reflexivity |].
  intros ->. discriminate H.
Qed.

Lemma truthy_intro (u : string) : u ≠ "" -> truthy (Some u) = true.
Proof.
  intros H. simpl. apply negb_true_iff. now apply String.eqb_neq.
Qed.

Lemma falsy_isZero (oldId : sourceId) :
  falsy oldId = false -> falsy oldId || isZero oldId = false.
Proof. destruct oldId; simpl; intros H; rewrite ?H; try discriminate; reflexivity. Qed.

Lemma parse_namespace :
  Uuid.parse UUID_NAMESPACE
  = Some [107; 167; 184; 16; 157; 173; 17; 209; 128; 180; 0; 192; 79; 212; 48; 200].
Proof. reflexivity. Qed.

Lemma append_nonempty (s t : string) (c : ascii) : s ++ String c t ≠ "".
Proof. destruct s; discriminate. Qed.

(** Under the namespace constant [v5] never throws, and what it returns
    is not the empty string. *)
Lemma derive_Some (entity : string) (oldId : sourceId) :
  exists u, derive entity oldId = Some u /\ u ≠ "".
Proof.
  unfold derive, Uuid.v5. rewrite parse_namespace. cbn [mbind option_bind].
  eexists. split; [reflexivity |]. unfold Uuid.stringify.
  apply append_nonempty.
Qed.

Lemma listingEntity_ne (entity : string) :
  isListingEntity entity = true -> entity ≠ "listings".
Proof. intros H ->. discriminate H. Qed.

(** A pair that has an entry: the entry is returned and the tables stay
    as they are. *)
Lemma getOrCreateUUID_existing (e : env) (entity : string) (oldId : sourceId)
    (opts : options) (m : mapper) (u : string) :
  falsy oldId = false ->
  lookup2 (idMappings m) entity (toString oldId) = Some u -> u ≠ "" ->
  getOrCreateUUID e entity oldId opts m = (Return (Some u), m).
Proof.
  intros Hid Hu Hne. unfold getOrCreateUUID. rewrite (falsy_isZero _ Hid).
  assert (Hens : ensure entity (idMappings m) = idMappings m).
  { unfold ensure. unfold lookup2 in Hu.
    destruct (idMappings m !! entity); [reflexivity | discriminate Hu]. }
  rewrite Hens, Hu, (truthy_intro u Hne). now destruct m.
Qed.

(** A pair without an entry: the derived identifier is returned and
    entered, in the listings table too for a listing type (whose table
    must be there). *)
Lemma getOrCreateUUID_fresh (e : env) (entity : string) (oldId : sourceId) (m : mapper) :
  falsy oldId = false ->
  (isListingEntity entity = true -> is_Some (idMappings m !! "listings")) ->
  truthy (lookup2 (idMappings m) entity (toString oldId)) = false ->
  exists u m',
    derive entity oldId = Some u /\ u ≠ ""
    /\ getOrCreateUUID e entity oldId defaults m = (Return (Some u), m')
    /\ lookup2 (idMappings m') entity (toString oldId) = Some u
    /\ (isListingEntity entity = true ->
        lookup2 (idMappings m') "listings" (toString oldId) = Some u)
    /\ (isListingEntity entity = false ->
        idMappings m'
        = assign entity (toString oldId) u (ensure entity (idMappings m)))
    /\ totalMappings (_meta m') = totalMappings (_meta m) + 1.
Proof.
  intros Hid Hl Hno.
  destruct (derive_Some entity oldId) as (u & Hu & Hne).
  unfold getOrCreateUUID. rewrite (falsy_isZero _ Hid).
  rewrite lookup2_ensure, Hno.
  cbn [deterministic namespaceOverride entityPrefix updateReverse defaults].
  change (Uuid.v5 ("" ++ entity ++ ":" ++ toString oldId) UUID_NAMESPACE)
    with (derive entity oldId).
  rewrite Hu.
  set (fwd := assign entity (toString oldId) u (ensure entity (idMappings m))).
  destruct (isListingEntity entity) eqn:Hle.
  - assert (Hfl : is_Some (fwd !! "listings"))
      by (apply assign_present, ensure_present, Hl; reflexivity).
    destruct Hfl as [ids Hids]. rewrite Hids.
    eexists u, _. split; [reflexivity |]. split; [exact Hne |].
    split; [reflexivity |]. cbn [idMappings _meta totalMappings].
    split.
    + rewrite lookup2_assign_ne by (left; apply not_eq_sym, listingEntity_ne, Hle).
      apply lookup2_assign_eq.
    + split; [intros _; apply lookup2_assign_eq |].
      split; [discriminate | reflexivity].
  - eexists u, _. split; [reflexivity |]. split; [exact Hne |].
    split; [reflexivity |]. cbn [idMappings _meta totalMappings].
    split; [apply lookup2_assign_eq |].
    split; [discriminate |]. split; reflexivity.
Qed.

(** Whatever the pair, after a call the pair has an entry, which is what
    the call returned. *)
Lemma getOrCreateUUID_entered (e : env) (entity : string) (oldId : sourceId) (m : mapper) :
  falsy oldId = false ->
  (isListingEntity entity = true -> is_Some (idMappings m !! "listings")) ->
  exists u m',
    u ≠ ""
    /\ getOrCreateUUID e entity oldId defaults m = (Return (Some u), m')
    /\ lookup2 (idMappings m') entity (toString oldId) = Some u.
Proof.
  intros Hid Hl.
  destruct (truthy (lookup2 (idMappings m) entity (toString oldId))) eqn:Ht.
  - apply truthy_Some in Ht as (u & Hu & Hne).
    exists u, m. split; [exact Hne |].
    split; [now apply getOrCreateUUID_existing | exact Hu].
  - destruct (getOrCreateUUID_fresh e entity oldId m Hid Hl Ht)
      as (u & m' & _ & Hne & Hcall & Hent & _).
    exists u, m'. repeat split; assumption.
Qed.

(** ** Persistence *)

Lemma lookup2_union_initial (t : tables) (t0 : Z) (entity id : string) :
  lookup2 (t ∪ idMappings (initial t0)) entity id = lookup2 t entity id.
Proof.
  unfold lookup2. rewrite lookup_union.
  destruct (t !! entity) as [ids|] eqn:Ht.
  - now destruct (idMappings (initial t0) !! entity).
  - rewrite (left_id None _).
    destruct (idMappings (initial t0) !! entity) as [ids|] eqn:Hi; [| reflexivity].
    simpl. cbn [initial idMappings] in Hi.
    apply elem_of_list_to_map_2 in Hi.
    assert (ids = ∅) as ->; [| apply lookup_empty].
    repeat (apply elem_of_cons in Hi as [Hi | Hi]; [congruence |]).
    now apply elem_of_nil in Hi.
Qed.

Lemma getUUID_ext (m1 m2 : mapper) :
  (forall entity id, lookup2 (idMappings m1) entity id = lookup2 (idMappings m2) entity id) ->
  forall entity oldId, getUUID entity oldId m1 = getUUID entity oldId m2.
Proof.
  intros H entity oldId. unfold getUUID. now rewrite !H.
Qed.

(** C7. A mapper state written by [saveMappingsToFile] and read by
    [loadMappingsFromFile] into the mapper of a new process: both calls
    succeed, and every lookup, by table or through [getUUID], gives in
    the new mapper what it gave in the old one. *)
Theorem persist_then_load_roundtrip (e : env) (path : string) (m : mapper)
    (fs : files) (t0 : Z) :
  let saved := saveMappingsToFile e path m fs in
  let loaded := loadMappingsFromFile path (initial t0) saved.2 in
  saved.1.1 = true
  /\ loaded.1 = true
  /\ (forall entity id,
         lookup2 (idMappings loaded.2) entity id = lookup2 (idMappings m) entity id)
  /\ (forall entity oldId, getUUID entity oldId loaded.2 = getUUID entity oldId m).
Proof.
  cbn zeta. unfold saveMappingsToFile, loadMappingsFromFile. cbn [fst snd].
  rewrite lookup_insert_eq. cbn [fst snd idMappings docTables].
  assert (H : forall entity id,
             lookup2 (idMappings m ∪ idMappings (initial t0)) entity id
             = lookup2 (idMappings m) entity id)
    by (intros; apply lookup2_union_initial).
  repeat split; [exact H |].
  intros entity oldId. unfold getUUID. cbn [idMappings]. now rewrite !H.
Qed.


(** ** Determinism *)




(** ** Listing types and the listings table *)

(** C5. When [getOrCreateUUID] enters a new mapping for a listing type,
    [getUUID] finds the returned identifier under listings and the same
    source id right after. *)
Theorem alias_creation_reaches_listings (e : env) (entity : string)
    (oldId : sourceId) (m : mapper) :
  isListingEntity entity = true ->
  falsy oldId = false ->
  is_Some (idMappings m !! "listings") ->
  truthy (lookup2 (idMappings m) entity (toString oldId)) = false ->
  let call := getOrCreateUUID e entity oldId defaults m in
  call.1 = Return (derive entity oldId)
  /\ Return (getUUID "listings" oldId call.2) = call.1.
Proof.
  intros Hle Hid Hl Hno call. subst call.
  destruct (getOrCreateUUID_fresh e entity oldId m Hid (fun _ => Hl) Hno)
    as (u & m' & Hu & Hne & Hcall & _ & Hlist & _).
  rewrite Hcall, Hu. cbn [fst snd]. split; [reflexivity |].
  unfold getUUID. rewrite (falsy_isZero _ Hid), (Hlist Hle), (truthy_intro u Hne).
  reflexivity.
Qed.

Lemma alias_creation_reaches_listings_witness :
  let call := getOrCreateUUID (Env 0 "") "businesses" (IdNumber 7) defaults (initial 0) in
  call.1 = Return (derive "businesses" (IdNumber 7))
  /\ Return (getUUID "listings" (IdNumber 7) call.2) = call.1.
Proof.
  exact (alias_creation_reaches_listings (Env 0 "") "businesses" (IdNumber 7) (initial 0)
           eq_refl eq_refl (ex_intro _ ∅ eq_refl) eq_refl).
Defined.

(** A business and a franchise of one source id share the listings
    entry, which the later of the two owns: the call for the business
    then returns one identifier and the lookup under listings another. *)
Lemma alias_lookup_after_collision :
  let e := Env 0 "" in
  let m1 := (getOrCreateUUID e "businesses" (IdNumber 7) defaults (initial 0)).2 in
  let m2 := (getOrCreateUUID e "franchise" (IdNumber 7) defaults m1).2 in
  let call := getOrCreateUUID e "businesses" (IdNumber 7) defaults m2 in
  call.1 = Return (Some "db87dd37-eacc-5a21-aa79-763be0fea689")
  /\ getUUID "listings" (IdNumber 7) call.2 = Some "7c6c4b1f-cbcb-5a01-8e10-61af15ff634a"
  /\ Return (getUUID "listings" (IdNumber 7) call.2) ≠ call.1.
Proof.
  cbn zeta.
  set (call := getOrCreateUUID _ "businesses" _ _ (getOrCreateUUID _ "franchise" _ _ _).2).
  assert (H1 : call.1 = Return (Some "db87dd37-eacc-5a21-aa79-763be0fea689"))
    by (vm_compute; reflexivity).
  assert (H2 : getUUID "listings" (IdNumber 7) call.2
               = Some "7c6c4b1f-cbcb-5a01-8e10-61af15ff634a")
    by (vm_compute; reflexivity).
  rewrite H1, H2. conjuncts; [reflexivity | reflexivity | discriminate].
Qed.

(** ** Source ids that are no reference *)

(** C6. The source ids that are no reference are null, undefined, the
    number zero and the empty string, the zero value of strings (the
    four that the guard on [oldId] catches). For them [getOrCreateUUID]
    returns null and leaves the mapper as it is, and [getUUID] returns
    null, whatever the entity type and the options, in the enhanced
    module and in the older one. They are the only ones: for every
    other source id (a Number being a safe integer), the string made
    of the digit zero among them, [getOrCreateUUID] (default options,
    on a mapper that has its listings table) returns an identifier and
    enters it. *)
Theorem no_reference_ids (e : env) (entity : string) (oldId : sourceId)
    (opts : options) (m : mapper) :
  (oldId = IdNull \/ oldId = IdUndefined \/ oldId = IdNumber 0 \/ oldId = IdString "" ->
   (getOrCreateUUID e entity oldId opts m = (Return None, m)
    /\ getUUID entity oldId m = None)
   /\ (forall (random : string) (t : tables),
         Legacy.getOrCreateUUID random entity oldId t = (None, t)
         /\ Legacy.getUUID entity oldId t = None))
  /\ (~ (oldId = IdNull \/ oldId = IdUndefined \/ oldId = IdNumber 0 \/ oldId = IdString "") ->
      safeInteger oldId = true ->
      is_Some (idMappings m !! "listings") ->
      exists u m',
        u ≠ ""
        /\ getOrCreateUUID e entity oldId defaults m = (Return (Some u), m')
        /\ getUUID entity oldId m' = Some u).
Proof.
  split.
  - intros [-> | [-> | [-> | ->]]]; repeat split; reflexivity.
  - intros Hno _ Hl.
    assert (Hid : falsy oldId = false).
    { destruct oldId as [| | n | s]; cbn [falsy].
      - exfalso. apply Hno. now left.
      - exfalso. apply Hno. right. now left.
      - destruct (Z.eqb_spec n 0) as [-> |]; [| reflexivity].
        exfalso. apply Hno. right. right. now left.
      - destruct (String.eqb_spec s "") as [-> |]; [| reflexivity].
        exfalso. apply Hno. right. right. now right. }
    destruct (getOrCreateUUID_entered e entity oldId m Hid (fun _ => Hl))
      as (u & m' & Hne & Hcall & Hent).
    exists u, m'. split; [exact Hne |]. split; [exact Hcall |].
    unfold getUUID. now rewrite (falsy_isZero _ Hid), Hent, (truthy_intro u Hne).
Qed.

Lemma no_reference_ids_witness :
  (getOrCreateUUID (Env 0 "") "users" (IdNumber 0) defaults (initial 0)
   = (Return None, initial 0)
   /\ getUUID "users" (IdNumber 0) (initial 0) = None)
  /\ (getOrCreateUUID (Env 0 "") "users" (IdString "") defaults (initial 0)
      = (Return None, initial 0)
      /\ getUUID "users" (IdString "") (initial 0) = None)
  /\ exists u m',
       u ≠ ""
       /\ getOrCreateUUID (Env 0 "") "users" (IdString "0") defaults (initial 0)
          = (Return (Some u), m')
       /\ getUUID "users" (IdString "0") m' = Some u.
Proof.
  split; [| split].
  - exact (proj1 (proj1 (no_reference_ids (Env 0 "") "users" (IdNumber 0) defaults (initial 0))
                    (or_intror (or_intror (or_introl eq_refl))))).
  - exact (proj1 (proj1 (no_reference_ids (Env 0 "") "users" (IdString "") defaults
                           (initial 0))
                    (or_intror (or_intror (or_intror eq_refl))))).
  - apply (proj2 (no_reference_ids (Env 0 "") "users" (IdString "0") defaults (initial 0))).
    + intros [H | [H | [H | H]]]; discriminate H.
    + reflexivity.
    + exists ∅. reflexivity.
Defined.

(** The string made of the digit zero is a source id like any other:
    on a new mapper this identifier is derived and entered for it. *)
Lemma string_zero_is_mapped :
  let call := getOrCreateUUID (Env 0 "") "users" (IdString "0") defaults (initial 0) in
  call.1 = Return (Some "9bc66ae3-13d5-556b-831a-ff70c08e3ea1")
  /\ call.1 ≠ Return None
  /\ lookup2 (idMappings (initial 0)) "users" "0" = None
  /\ lookup2 (idMappings call.2) "users" "0" = Some "9bc66ae3-13d5-556b-831a-ff70c08e3ea1"
  /\ getUUID "users" (IdString "0") call.2 = Some "9bc66ae3-13d5-556b-831a-ff70c08e3ea1".
Proof.
  cbn zeta.
  set (call := getOrCreateUUID _ _ _ _ _).
  assert (H1 : call.1 = Return (Some "9bc66ae3-13d5-556b-831a-ff70c08e3ea1"))
    by (vm_compute; reflexivity).
  rewrite H1.
  conjuncts; [reflexivity | discriminate | vm_compute; reflexivity ..].
Qed.

(** ** Loading over a mapper in use *)

(** [Object.assign] copies whole entity tables: a table of the document
    takes the place of the table of that entity. *)
Lemma load_replaces_tables (path : string) (m : mapper) (fs : files) (doc : document)
    (entity : string) (ids : table) :
  fs !! path = Some doc -> docTables doc !! entity = Some ids ->
  idMappings (loadMappingsFromFile path m fs).2 !! entity = Some ids.
Proof.
  intros Hdoc Hids. unfold loadMappingsFromFile. rewrite Hdoc. cbn [snd idMappings].
  now apply lookup_union_Some_l.
Qed.

(** C8. A mapper holding user 1 loads a file that another mapper, holding
    user 2 only, saved: no entry of the file is for user 1, yet after the
    load user 1 has no identifier any more, while the reverse index still
    leads from the lost identifier to user 1. *)
Theorem load_drops_entries_of_loaded_entities :
  let e := Env 0 "" in
  let m := (getOrCreateUUID e "users" (IdNumber 1) defaults (initial 0)).2 in
  let other := (getOrCreateUUID e "users" (IdNumber 2) defaults (initial 0)).2 in
  let fs := (saveMappingsToFile e "uuid-mappings.json" other ∅).2 in
  let loaded := loadMappingsFromFile "uuid-mappings.json" m fs in
  getUUID "users" (IdNumber 1) m = Some "da61d4d2-6395-59e7-a6b5-cac0c2c9b212"
  /\ (fs !! "uuid-mappings.json") ≫= (fun doc => lookup2 (docTables doc) "users" "1") = None
  /\ loaded.1 = true
  /\ getUUID "users" (IdNumber 1) loaded.2 = None
  /\ getUUID "users" (IdNumber 2) loaded.2 = getUUID "users" (IdNumber 2) other
  /\ lookup2 (reverseIdMappings loaded.2) "users" "da61d4d2-6395-59e7-a6b5-cac0c2c9b212"
     = Some "1".
Proof. cbn zeta. conjuncts; vm_compute; reflexivity. Qed.

(** ** Concurrent callers *)

Lemma runCallers_existing (callers : list env) (entity : string) (oldId : sourceId)
    (m : mapper) (u : string) :
  falsy oldId = false ->
  lookup2 (idMappings m) entity (toString oldId) = Some u -> u ≠ "" ->
  runCallers callers entity oldId m
  = (repeat (Return (Some u)) (List.length callers), m).
Proof.
  intros Hid Hu Hne. induction callers as [|e rest IH]; [reflexivity |].
  cbn [runCallers]. rewrite (getOrCreateUUID_existing e _ _ _ m u Hid Hu Hne), IH.
  reflexivity.
Qed.

(** C9. Any number of callers ask for the same listings pair, which has
    no entry, and the event loop runs their calls in any order: every
    caller gets the identifier derived from the pair, the tables end as
    the tables of the start with that one entry added, and the count of
    mappings has grown by one. *)
Theorem concurrent_callers_one_id (callers : list env) (k : sourceId) (m : mapper) :
  falsy k = false ->
  lookup2 (idMappings m) "listings" (toString k) = None ->
  callers ≠ [] ->
  let run := runCallers callers "listings" k m in
  exists u,
    derive "listings" k = Some u
    /\ run.1 = repeat (Return (Some u)) (List.length callers)
    /\ idMappings run.2
       = assign "listings" (toString k) u (ensure "listings" (idMappings m))
    /\ lookup2 (idMappings run.2) "listings" (toString k) = Some u
    /\ totalMappings (_meta run.2) = totalMappings (_meta m) + 1.
Proof.
  intros Hid Hno Hcallers run. subst run.
  destruct callers as [|e rest]; [congruence |].
  assert (Hfalse : truthy (lookup2 (idMappings m) "listings" (toString k)) = false)
    by now rewrite Hno.
  destruct (getOrCreateUUID_fresh e "listings" k m Hid ltac:(discriminate) Hfalse)
    as (u & m' & Hu & Hne & Hcall & Hent & _ & Htab & Htotal).
  exists u. cbn [runCallers]. rewrite Hcall.
  rewrite (runCallers_existing rest _ _ m' u Hid Hent Hne). cbn [fst snd].
  split; [exact Hu |]. split; [reflexivity |].
  split; [now apply Htab |]. split; assumption.
Qed.

Lemma concurrent_callers_one_id_witness :
  let run := runCallers [Env 3 ""; Env 1 ""; Env 2 ""] "listings" (IdNumber 99) (initial 0) in
  exists u,
    derive "listings" (IdNumber 99) = Some u
    /\ run.1 = [Return (Some u); Return (Some u); Return (Some u)]
    /\ idMappings run.2
       = assign "listings" "99" u (ensure "listings" (idMappings (initial 0)))
    /\ lookup2 (idMappings run.2) "listings" "99" = Some u
    /\ totalMappings (_meta run.2) = 1.
Proof.
  exact (concurrent_callers_one_id [Env 3 ""; Env 1 ""; Env 2 ""] (IdNumber 99) (initial 0)
           eq_refl eq_refl ltac:(discriminate)).
Defined.

(** ** The older module *)

(** There too a source id that is null, undefined, zero or empty gets
    null and changes nothing. *)
Lemma legacy_no_reference_ids (random entity : string) (oldId : sourceId) (t : tables) :
  falsy oldId = true ->
  Legacy.getOrCreateUUID random entity oldId t = (None, t)
  /\ Legacy.getUUID entity oldId t = None.
Proof.
  intros H. unfold Legacy.getOrCreateUUID, Legacy.getUUID. now rewrite H.
Qed.

(** There the identifier of a new pair is the random one: two new
    processes may well get two identifiers for one pair. *)
Lemma legacy_identifier_is_random (random entity : string) (oldId : sourceId) :
  falsy oldId = false -> random ≠ "" ->
  lookup2 Legacy.initial entity (toString oldId) = None ->
  (Legacy.getOrCreateUUID random entity oldId Legacy.initial).1 = Some random.
Proof.
  intros Hid _ Hno. unfold Legacy.getOrCreateUUID.
  now rewrite (falsy_isZero _ Hid), lookup2_ensure, Hno.
Qed.

(** There too what is saved is found again by a new process. *)
Lemma legacy_persist_then_load (path : string) (t : tables) (fs : gmap string tables)
    (entity : string) (oldId : sourceId) :
  Legacy.getUUID entity oldId
    (Legacy.loadMappingsFromFile path Legacy.initial (Legacy.saveMappingsToFile path t fs))
  = Legacy.getUUID entity oldId t.
Proof.
  unfold Legacy.loadMappingsFromFile, Legacy.saveMappingsToFile, Legacy.getUUID.
  rewrite lookup_insert_eq.
  change Legacy.initial with (idMappings (initial 0)).
  now rewrite lookup2_union_initial.
Qed.

(** ** What a load does keep *)

(** The tables of the entity types that the document does not have stay
    as they are. *)
Lemma load_keeps_absent_entities (path : string) (m : mapper) (fs : files)
    (doc : document) (entity : string) :
  fs !! path = Some doc -> docTables doc !! entity = None ->
  idMappings (loadMappingsFromFile path m fs).2 !! entity = idMappings m !! entity.
Proof.
  intros Hdoc Hno. unfold loadMappingsFromFile. rewrite Hdoc. cbn [snd idMappings].
  rewrite lookup_union, Hno. apply (left_id None _).
Qed.

Lemma rebuildEntity_covers (ids rev : table) :
  forall id uuid, ids !! id = Some uuid ->
    exists id', rebuildEntity ids rev !! uuid = Some id' /\ ids !! id' = Some uuid.
Proof.
  unfold rebuildEntity.
  apply (map_fold_weak_ind
           (fun (r : table) (t : table) =>
              forall id uuid, t !! id = Some uuid ->
                exists id', r !! uuid = Some id' /\ t !! id' = Some uuid)).
  - intros id uuid H. now rewrite lookup_empty in H.
  - intros i x t r Hi IH id uuid H.
    destruct (decide (uuid = x)) as [-> | Hx].
    + exists i. now rewrite !lookup_insert_eq.
    + assert (Hid : id ≠ i).
      { intros ->. rewrite lookup_insert_eq in H. congruence. }
      rewrite lookup_insert_ne in H by congruence.
      destruct (IH id uuid H) as (id' & Hr & Ht).
      exists id'. rewrite lookup_insert_ne by congruence.
      split; [exact Hr |]. rewrite lookup_insert_ne; [exact Ht |].
      intros ->. congruence.
Qed.

Lemma rebuildReverse_lookup (fwd rev : tables) :
  forall entity ids, fwd !! entity = Some ids ->
    rebuildReverse fwd rev !! entity
    = Some (rebuildEntity ids (default ∅ (rev !! entity))).
Proof.
  unfold rebuildReverse.
  apply (map_fold_weak_ind
           (fun (r : tables) (t : tables) =>
              (forall entity ids, t !! entity = Some ids ->
                 r !! entity = Some (rebuildEntity ids (default ∅ (rev !! entity))))
              /\ (forall entity, t !! entity = None -> r !! entity = rev !! entity))).
  - split; [intros entity ids H; now rewrite lookup_empty in H | reflexivity].
  - intros i x t r Hi [IH1 IH2]. split.
    + intros entity ids H. destruct (decide (entity = i)) as [-> | Hne].
      * rewrite lookup_insert_eq in H. injection H as ->.
        now rewrite lookup_insert_eq, (IH2 i Hi).
      * rewrite lookup_insert_ne in H by congruence.
        rewrite lookup_insert_ne by congruence. now apply IH1.
    + intros entity H. destruct (decide (entity = i)) as [-> | Hne].
      * now rewrite lookup_insert_eq in H.
      * rewrite lookup_insert_ne in H by congruence.
        rewrite lookup_insert_ne by congruence. now apply IH2.
Qed.

(** After a load every entry of the tables is met by the reverse index:
    the identifier leads back to a source id that carries it. The
    reverse index may hold more than that, as the entries of replaced
    tables are not taken out of it. *)
Lemma load_reverse_covers_forward (path : string) (m : mapper) (fs : files)
    (entity id uuid : string) :
  is_Some (fs !! path) ->
  lookup2 (idMappings (loadMappingsFromFile path m fs).2) entity id = Some uuid ->
  exists id',
    lookup2 (reverseIdMappings (loadMappingsFromFile path m fs).2) entity uuid = Some id'
    /\ lookup2 (idMappings (loadMappingsFromFile path m fs).2) entity id' = Some uuid.
Proof.
  intros [doc Hdoc]. unfold loadMappingsFromFile. rewrite Hdoc.
  cbn [snd idMappings reverseIdMappings].
  set (fwd := docTables doc ∪ idMappings m).
  unfold lookup2. destruct (fwd !! entity) as [ids|] eqn:Hids; [| discriminate].
  cbn [mbind option_bind]. intros Hid.
  rewrite (rebuildReverse_lookup fwd _ entity ids Hids). cbn [mbind option_bind].
  now apply rebuildEntity_covers with (id := id).
Qed.

(** The older module enters a business under businesses only: a lookup
    under listings finds nothing. *)
Lemma legacy_listings_not_mirrored (random : string) :
  Legacy.getUUID "listings" (IdNumber 7)
    (Legacy.getOrCreateUUID random "businesses" (IdNumber 7) Legacy.initial).2
  = None.
Proof. reflexivity. Qed.

(** * Further properties of the identifier mapper *)

(** The tables after a call of [getOrCreateUUID], whatever its options
    and its outcome: those before, with at most the table of the entity
    added and the pair entered, under listings too for a listing type. *)
Lemma getOrCreateUUID_tables (e : env) (entity : string) (oldId : sourceId)
    (opts : options) (m : mapper) :
  let fwd := idMappings (getOrCreateUUID e entity oldId opts m).2 in
  let id := toString oldId in
  fwd = idMappings m
  \/ fwd = ensure entity (idMappings m)
  \/ (exists u, fwd = assign entity id u (ensure entity (idMappings m)))
  \/ (exists u, isListingEntity entity = true
                /\ fwd = assign "listings" id u
                           (assign entity id u (ensure entity (idMappings m)))).
Proof.
  cbn zeta. unfold getOrCreateUUID.
  destruct (falsy oldId || isZero oldId); [now left |].
  destruct (truthy (lookup2 (ensure entity (idMappings m)) entity (toString oldId)));
    [right; now left |].
  match goal with |- context [match ?g with Some _ => _ | None => _ end] =>
    destruct g as [u|] end; [| right; now left].
  destruct (isListingEntity entity) eqn:Hle.
  - match goal with |- context [match ?g with Some _ => _ | None => _ end] =>
      destruct g end; cbn [snd idMappings].
    + right. right. right. exists u. now split.
    + right. right. left. now exists u.
  - cbn [snd idMappings]. right. right. left. now exists u.
Qed.

Lemma getOrCreateUUID_frame (e : env) (entity : string)
    (oldId : sourceId) (opts : options) (m : mapper) (entity' id' : string) :
  let m' := (getOrCreateUUID e entity oldId opts m).2 in
  (is_Some (lookup2 (idMappings m) entity' id') ->
   is_Some (lookup2 (idMappings m') entity' id'))
  /\ (entity' ≠ entity \/ id' ≠ toString oldId ->
      ~ (isListingEntity entity = true /\ entity' = "listings" /\ id' = toString oldId) ->
      lookup2 (idMappings m') entity' id' = lookup2 (idMappings m) entity' id').
Proof.
  cbn zeta.
  assert (Hkeep : forall ent k v (t : tables),
             is_Some (lookup2 t entity' id') ->
             is_Some (lookup2 (assign ent k v t) entity' id')).
  { intros ent k v t H.
    destruct (decide (ent = entity' /\ k = id')) as [[-> ->] | Hne].
    - rewrite lookup2_assign_eq. eauto.
    - rewrite lookup2_assign_ne; [exact H |].
      destruct (decide (ent = entity')); [right | left]; intuition congruence. }
  destruct (getOrCreateUUID_tables e entity oldId opts m)
    as [-> | [-> | [[u ->] | (u & Hle & ->)]]].
  - now split.
  - split; intros; now rewrite lookup2_ensure.
  - split.
    + intros H. apply Hkeep. now rewrite lookup2_ensure.
    + intros Hne _. rewrite lookup2_assign_ne, lookup2_ensure; [reflexivity |].
      destruct Hne; [left | right]; congruence.
  - split.
    + intros H. apply Hkeep, Hkeep. now rewrite lookup2_ensure.
    + intros Hne Hl.
      rewrite lookup2_assign_ne.
      * rewrite lookup2_assign_ne, lookup2_ensure; [reflexivity |].
        destruct Hne; [left | right]; congruence.
      * destruct (decide ("listings" = entity')) as [<- | ?]; [| now left].
        right. intros <-. apply Hl. now split.
Qed.

(** X1. A call of [getOrCreateUUID], with any options and any outcome,
    removes no entry of the tables, and changes no entry other than the
    one of its own pair and, for a listing type, the one of the same
    source id under listings. *)
Theorem getOrCreateUUID_keeps_other_entries (e : env) (entity : string)
    (oldId : sourceId) (opts : options) (m : mapper) (entity' id' : string) :
  let m' := (getOrCreateUUID e entity oldId opts m).2 in
  (is_Some (lookup2 (idMappings m) entity' id') ->
   is_Some (lookup2 (idMappings m') entity' id'))
  /\ (entity' ≠ entity \/ id' ≠ toString oldId ->
      ~ (isListingEntity entity = true /\ entity' = "listings" /\ id' = toString oldId) ->
      lookup2 (idMappings m') entity' id' = lookup2 (idMappings m) entity' id').
Proof. exact (getOrCreateUUID_frame e entity oldId opts m entity' id'). Qed.

Lemma getOrCreateUUID_keeps_other_entries_witness :
  let m := (getOrCreateUUID (Env 0 "") "users" (IdNumber 1) defaults (initial 0)).2 in
  let m' := (getOrCreateUUID (Env 1 "") "businesses" (IdNumber 1) defaults m).2 in
  is_Some (lookup2 (idMappings m') "users" "1")
  /\ lookup2 (idMappings m') "users" "1" = lookup2 (idMappings m) "users" "1".
Proof.
  cbn zeta.
  pose proof (getOrCreateUUID_keeps_other_entries (Env 1 "") "businesses" (IdNumber 1)
                defaults
                (getOrCreateUUID (Env 0 "") "users" (IdNumber 1) defaults (initial 0)).2
                "users" "1") as [H1 H2].
  split.
  - apply H1. vm_compute. eauto.
  - apply H2; [left; discriminate | intros (_ & H & _); discriminate H].
Defined.

Lemma getUUID_direct (entity : string) (oldId : sourceId) (m : mapper) (u : string) :
  falsy oldId = false ->
  lookup2 (idMappings m) entity (toString oldId) = Some u -> u ≠ "" ->
  getUUID entity oldId m = Some u.
Proof.
  intros Hid Hu Hne. unfold getUUID.
  now rewrite (falsy_isZero _ Hid), Hu, (truthy_intro u Hne).
Qed.

(** The pair is entered by [setUUID], under listings too for a listing
    type. *)
Lemma setUUID_entered (e : env) (entity : string) (oldId : sourceId) (uuid : string)
    (opts : options) (m : mapper) :
  falsy oldId = false -> uuid ≠ "" ->
  (isListingEntity entity = true -> is_Some (idMappings m !! "listings")) ->
  (setUUID e entity oldId uuid opts m).1 = Return None
  /\ lookup2 (idMappings (setUUID e entity oldId uuid opts m).2) entity (toString oldId)
     = Some uuid
  /\ (isListingEntity entity = true ->
      lookup2 (idMappings (setUUID e entity oldId uuid opts m).2) "listings"
        (toString oldId) = Some uuid).
Proof.
  intros Hid Hne Hl. unfold setUUID. rewrite (falsy_isZero _ Hid).
  apply String.eqb_neq in Hne. rewrite Hne. cbn [orb].
  destruct (isListingEntity entity) eqn:Hle.
  - assert (Hfl : is_Some (assign entity (toString oldId) uuid
                             (ensure entity (idMappings m)) !! "listings"))
      by (apply assign_present, ensure_present, Hl; reflexivity).
    destruct Hfl as [ids Hids]. rewrite Hids. cbn [fst snd idMappings].
    split; [reflexivity |]. split.
    + rewrite lookup2_assign_ne by (left; apply not_eq_sym, listingEntity_ne, Hle).
      apply lookup2_assign_eq.
    + intros _. apply lookup2_assign_eq.
  - cbn [fst snd idMappings]. split; [reflexivity |].
    split; [apply lookup2_assign_eq | discriminate].
Qed.

(** X2. An identifier pinned by [setUUID] (source id not null, undefined,
    zero or empty, identifier not empty) is what [getUUID] finds
    afterwards and what [getOrCreateUUID] returns, with any options and
    without changing the mapper; for a listing type it is also found
    under listings. *)
Theorem setUUID_pins_identifier (e e' : env) (entity : string) (oldId : sourceId)
    (uuid : string) (opts opts' : options) (m : mapper) :
  falsy oldId = false ->
  uuid ≠ "" ->
  (isListingEntity entity = true -> is_Some (idMappings m !! "listings")) ->
  let m' := (setUUID e entity oldId uuid opts m).2 in
  getUUID entity oldId m' = Some uuid
  /\ getOrCreateUUID e' entity oldId opts' m' = (Return (Some uuid), m')
  /\ (isListingEntity entity = true -> getUUID "listings" oldId m' = Some uuid).
Proof.
  intros Hid Hne Hl m'.
  destruct (setUUID_entered e entity oldId uuid opts m Hid Hne Hl) as (_ & Hent & Hlist).
  fold m' in Hent, Hlist.
  split; [now apply getUUID_direct |].
  split; [now apply getOrCreateUUID_existing |].
  intros Hle. apply getUUID_direct; auto.
Qed.

Lemma setUUID_pins_identifier_witness :
  let m' := (setUUID (Env 0 "") "franchise" (IdString "12") "pinned-id" defaults
               (initial 0)).2 in
  getUUID "franchise" (IdString "12") m' = Some "pinned-id"
  /\ getOrCreateUUID (Env 1 "") "franchise" (IdString "12") defaults m'
     = (Return (Some "pinned-id"), m')
  /\ getUUID "listings" (IdString "12") m' = Some "pinned-id".
Proof.
  cbn zeta.
  destruct (setUUID_pins_identifier (Env 0 "") (Env 1 "") "franchise" (IdString "12")
              "pinned-id" defaults defaults (initial 0) eq_refl ltac:(discriminate)
              (fun _ => ex_intro _ ∅ eq_refl)) as (H1 & H2 & H3).
  split; [exact H1 |]. split; [exact H2 | exact (H3 eq_refl)].
Defined.

Lemma toString_nonempty (oldId : sourceId) : falsy oldId = false -> toString oldId ≠ "".
Proof.
  destruct oldId as [| | n | s]; simpl; try discriminate.
  - intros _. destruct (Z.to_int n) as [d | d]; [destruct d |]; discriminate.
  - intros H ->. discriminate H.
Qed.

(** The reverse index after a creating call with the default options. *)
Lemma getOrCreateUUID_fresh_reverse (e : env) (entity : string) (oldId : sourceId)
    (m : mapper) :
  falsy oldId = false ->
  (isListingEntity entity = true -> is_Some (idMappings m !! "listings")) ->
  truthy (lookup2 (idMappings m) entity (toString oldId)) = false ->
  exists u,
    (getOrCreateUUID e entity oldId defaults m).1 = Return (Some u)
    /\ u ≠ ""
    /\ lookup2 (reverseIdMappings (getOrCreateUUID e entity oldId defaults m).2) entity u
       = Some (toString oldId)
    /\ (isListingEntity entity = true ->
        lookup2 (reverseIdMappings (getOrCreateUUID e entity oldId defaults m).2)
          "listings" u = Some (toString oldId)).
Proof.
  intros Hid Hl Hno.
  destruct (derive_Some entity oldId) as (u & Hu & Hne).
  unfold getOrCreateUUID. rewrite (falsy_isZero _ Hid).
  rewrite lookup2_ensure, Hno.
  cbn [deterministic namespaceOverride entityPrefix updateReverse defaults].
  change (Uuid.v5 ("" ++ entity ++ ":" ++ toString oldId) UUID_NAMESPACE)
    with (derive entity oldId).
  rewrite Hu. exists u.
  destruct (isListingEntity entity) eqn:Hle.
  - assert (Hfl : is_Some (assign entity (toString oldId) u
                             (ensure entity (idMappings m)) !! "listings"))
      by (apply assign_present, ensure_present, Hl; reflexivity).
    destruct Hfl as [ids Hids]. rewrite Hids. cbn [fst snd reverseIdMappings].
    split; [reflexivity |]. split; [exact Hne |]. split.
    + rewrite lookup2_assign_ne by (left; apply not_eq_sym, listingEntity_ne, Hle).
      rewrite lookup2_ensure. apply lookup2_assign_eq.
    + intros _. apply lookup2_assign_eq.
  - cbn [fst snd reverseIdMappings]. split; [reflexivity |]. split; [exact Hne |].
    split; [apply lookup2_assign_eq | discriminate].
Qed.

(** X3. When [getOrCreateUUID] (default options) creates the mapping of
    a pair, [getOriginalId] leads from the returned identifier back to
    the source id, as a string: under the entity type, and for a listing
    type under listings as well. *)
Theorem getOriginalId_after_creation (e : env) (entity : string) (oldId : sourceId)
    (m : mapper) :
  falsy oldId = false ->
  (isListingEntity entity = true -> is_Some (idMappings m !! "listings")) ->
  truthy (lookup2 (idMappings m) entity (toString oldId)) = false ->
  let call := getOrCreateUUID e entity oldId defaults m in
  exists u,
    call.1 = Return (Some u)
    /\ getOriginalId entity u call.2 = Some (toString oldId)
    /\ (isListingEntity entity = true ->
        getOriginalId "listings" u call.2 = Some (toString oldId)).
Proof.
  intros Hid Hl Hno call. subst call.
  destruct (getOrCreateUUID_fresh_reverse e entity oldId m Hid Hl Hno)
    as (u & Hcall & Hne & Hrev & Hlist).
  pose proof (toString_nonempty oldId Hid) as Hs.
  exists u. split; [exact Hcall |].
  apply String.eqb_neq in Hne.
  split.
  - unfold getOriginalId. now rewrite Hne, Hrev, (truthy_intro _ Hs).
  - intros Hle. unfold getOriginalId. now rewrite Hne, (Hlist Hle), (truthy_intro _ Hs).
Qed.

Lemma getOriginalId_after_creation_witness :
  let call := getOrCreateUUID (Env 0 "") "investors" (IdNumber 31) defaults (initial 0) in
  exists u,
    call.1 = Return (Some u)
    /\ getOriginalId "investors" u call.2 = Some "31"
    /\ getOriginalId "listings" u call.2 = Some "31".
Proof.
  cbn zeta.
  destruct (getOriginalId_after_creation (Env 0 "") "investors" (IdNumber 31) (initial 0)
              eq_refl (fun _ => ex_intro _ ∅ eq_refl) eq_refl) as (u & H1 & H2 & H3).
  exists u. split; [exact H1 |]. split; [exact H2 | exact (H3 eq_refl)].
Defined.

(** ** Counting the mappings *)

Lemma countMappings_insert_fresh (t : tables) (entity : string) (ids : table) :
  t !! entity = None ->
  countMappings (<[entity := ids]> t) = countMappings t + Z.of_nat (size ids).
Proof.
  intros H. unfold countMappings.
  rewrite map_fold_insert_L; [reflexivity | intros; lia | exact H].
Qed.

Lemma countMappings_insert (t : tables) (entity : string) (ids old : table) :
  t !! entity = Some old ->
  countMappings (<[entity := ids]> t)
  = countMappings t - Z.of_nat (size old) + Z.of_nat (size ids).
Proof.
  intros H.
  rewrite <- (insert_delete_eq t entity ids).
  rewrite <- (insert_delete_id t entity old H) at 2.
  rewrite !countMappings_insert_fresh by apply lookup_delete_eq. lia.
Qed.

Lemma countMappings_ensure (t : tables) (entity : string) :
  countMappings (ensure entity t) = countMappings t.
Proof.
  unfold ensure. destruct (t !! entity) eqn:H; [reflexivity |].
  rewrite countMappings_insert_fresh by exact H. rewrite map_size_empty. lia.
Qed.

Lemma countMappings_assign (t : tables) (entity k v : string) :
  lookup2 t entity k = None ->
  countMappings (assign entity k v t) = countMappings t + 1.
Proof.
  unfold lookup2, assign. intros H.
  destruct (t !! entity) as [ids|] eqn:Ht; cbn [default mbind option_bind] in *.
  - rewrite (countMappings_insert t entity _ ids Ht).
    rewrite (map_size_insert_None k v ids H). lia.
  - rewrite (countMappings_insert_fresh t entity _ Ht).
    rewrite map_size_insert_None by apply lookup_empty. rewrite map_size_empty. lia.
Qed.

(** The whole of the tables and the counter after a creating call with
    the default options. *)
Lemma getOrCreateUUID_fresh_tables (e : env) (entity : string) (oldId : sourceId)
    (m : mapper) :
  falsy oldId = false ->
  (isListingEntity entity = true -> is_Some (idMappings m !! "listings")) ->
  truthy (lookup2 (idMappings m) entity (toString oldId)) = false ->
  exists u,
    derive entity oldId = Some u
    /\ idMappings (getOrCreateUUID e entity oldId defaults m).2
       = (if isListingEntity entity
          then assign "listings" (toString oldId) u
          else fun t => t)
           (assign entity (toString oldId) u (ensure entity (idMappings m)))
    /\ totalMappings (_meta (getOrCreateUUID e entity oldId defaults m).2)
       = totalMappings (_meta m) + 1.
Proof.
  intros Hid Hl Hno.
  destruct (derive_Some entity oldId) as (u & Hu & Hne).
  unfold getOrCreateUUID. rewrite (falsy_isZero _ Hid).
  rewrite lookup2_ensure, Hno.
  cbn [deterministic namespaceOverride entityPrefix updateReverse defaults].
  change (Uuid.v5 ("" ++ entity ++ ":" ++ toString oldId) UUID_NAMESPACE)
    with (derive entity oldId).
  rewrite Hu. exists u. split; [reflexivity |].
  destruct (isListingEntity entity) eqn:Hle.
  - assert (Hfl : is_Some (assign entity (toString oldId) u
                             (ensure entity (idMappings m)) !! "listings"))
      by (apply assign_present, ensure_present, Hl; reflexivity).
    destruct Hfl as [ids Hids]. rewrite Hids. now cbn [snd idMappings _meta totalMappings].
  - now cbn [snd idMappings _meta totalMappings].
Qed.

(** X4. A creating call (default options) for a pair that has no entry,
    and whose source id has none under listings: the counter of the
    metadata and the count of the entity type grow by one, while the
    number of entries of all tables, the total of [getMappingStats], grows
    by two for a listing type (its entry and the one under listings) and
    by one for any other type. *)
Theorem creation_counts (e : env) (entity : string) (oldId : sourceId) (m : mapper) :
  falsy oldId = false ->
  is_Some (idMappings m !! "listings") ->
  lookup2 (idMappings m) entity (toString oldId) = None ->
  lookup2 (idMappings m) "listings" (toString oldId) = None ->
  let m' := (getOrCreateUUID e entity oldId defaults m).2 in
  totalMappings (_meta m') = totalMappings (_meta m) + 1
  /\ getEntityMappingsCount entity m' = getEntityMappingsCount entity m + 1
  /\ statsTotalMappings (getMappingStats m')
     = statsTotalMappings (getMappingStats m)
       + (if isListingEntity entity then 2 else 1).
Proof.
  intros Hid Hl Hno Hnol m'.
  assert (Hfalse : truthy (lookup2 (idMappings m) entity (toString oldId)) = false)
    by now rewrite Hno.
  destruct (getOrCreateUUID_fresh_tables e entity oldId m Hid (fun _ => Hl) Hfalse)
    as (u & _ & Htab & Htotal).
  fold m' in Htab, Htotal.
  set (key := toString oldId) in *.
  set (fwd1 := assign entity key u (ensure entity (idMappings m))) in *.
  assert (Hc1 : countMappings fwd1 = countMappings (idMappings m) + 1).
  { unfold fwd1. rewrite countMappings_assign by now rewrite lookup2_ensure.
    now rewrite countMappings_ensure. }
  assert (Hsize : forall t : tables,
             (t !! entity ≫= fun ids : table => Some (Z.of_nat (size ids)))
             = Some (getEntityMappingsCount entity m + 1) ->
             match t !! entity with Some ids => Z.of_nat (size ids) | None => 0 end
             = getEntityMappingsCount entity m + 1).
  { intros t H. destruct (t !! entity); [now injection H | discriminate H]. }
  assert (He1 : fwd1 !! entity ≫= (fun ids : table => Some (Z.of_nat (size ids)))
                = Some (getEntityMappingsCount entity m + 1)).
  { unfold fwd1, assign, getEntityMappingsCount, ensure. rewrite lookup_insert_eq.
    cbn [mbind option_bind]. unfold lookup2 in Hno.
    destruct (idMappings m !! entity) as [ids|] eqn:Ht; cbn [mbind option_bind] in Hno.
    - rewrite Ht. cbn [from_option Datatypes.id].
      rewrite (map_size_insert_None key u ids Hno). f_equal. lia.
    - rewrite lookup_insert_eq. cbn [from_option Datatypes.id].
      rewrite (map_size_insert_None key u (∅ : table) (lookup_empty key)).
      now rewrite map_size_empty. }
  split; [exact Htotal |].
  unfold getMappingStats. cbn [statsTotalMappings].
  unfold getEntityMappingsCount at 1. rewrite Htab.
  destruct (isListingEntity entity) eqn:Hle.
  - split.
    + apply Hsize. unfold assign at 1.
      rewrite (lookup_insert_ne _ "listings" entity)
        by (apply not_eq_sym, listingEntity_ne, Hle).
      exact He1.
    + rewrite countMappings_assign; [lia |].
      unfold fwd1.
      rewrite lookup2_assign_ne by (left; apply listingEntity_ne, Hle).
      now rewrite lookup2_ensure.
  - split; [now apply Hsize | lia].
Qed.

Lemma creation_counts_witness :
  let m := initial 0 in
  let m' := (getOrCreateUUID (Env 0 "") "businesses" (IdNumber 5) defaults m).2 in
  totalMappings (_meta m') = 1
  /\ getEntityMappingsCount "businesses" m' = 1
  /\ statsTotalMappings (getMappingStats m') = statsTotalMappings (getMappingStats m) + 2.
Proof.
  exact (creation_counts (Env 0 "") "businesses" (IdNumber 5) (initial 0)
           eq_refl (ex_intro _ ∅ eq_refl) eq_refl eq_refl).
Defined.

(** ** Two mappings at once *)

Lemma getOrCreateUUID_keeps_tables (e : env) (entity : string) (oldId : sourceId)
    (opts : options) (m : mapper) (entity' : string) :
  is_Some (idMappings m !! entity') ->
  is_Some (idMappings (getOrCreateUUID e entity oldId opts m).2 !! entity').
Proof.
  intros H.
  destruct (getOrCreateUUID_tables e entity oldId opts m)
    as [-> | [-> | [[u ->] | (u & _ & ->)]]];
    auto using ensure_present, assign_present.
Qed.

(** X5. [ensureRelationshipMappings] on two source ids that are not
    null, undefined, zero or empty returns two identifiers, and both are
    what [getUUID] finds afterwards, unless the source is a listings pair
    and the target a listing type of the same source id: then the target
    takes the listings entry over. *)
Theorem ensureRelationshipMappings_both_found (e1 e2 : env)
    (sourceEntity targetEntity : string) (sourceId targetId : sourceId) (m : mapper) :
  falsy sourceId = false ->
  falsy targetId = false ->
  is_Some (idMappings m !! "listings") ->
  ~ (sourceEntity = "listings" /\ isListingEntity targetEntity = true
     /\ toString sourceId = toString targetId) ->
  let call := ensureRelationshipMappings e1 e2 sourceEntity targetEntity
                sourceId targetId m in
  exists sourceUUID targetUUID,
    call.1 = Some (Some sourceUUID, Some targetUUID)
    /\ getUUID sourceEntity sourceId call.2 = Some sourceUUID
    /\ getUUID targetEntity targetId call.2 = Some targetUUID.
Proof.
  intros Hs Ht Hl Hclash call. subst call. unfold ensureRelationshipMappings.
  destruct (getOrCreateUUID_entered e1 sourceEntity sourceId m Hs (fun _ => Hl))
    as (u & m1 & Hu & Hcall1 & Hent1).
  assert (Hl1 : is_Some (idMappings m1 !! "listings")).
  { pose proof (getOrCreateUUID_keeps_tables e1 sourceEntity sourceId defaults m
                  "listings" Hl) as H.
    now rewrite Hcall1 in H. }
  rewrite Hcall1.
  destruct (getOrCreateUUID_entered e2 targetEntity targetId m1 Ht (fun _ => Hl1))
    as (t & m2 & Htne & Hcall2 & Hent2).
  rewrite Hcall2. cbn [fst snd].
  exists u, t. split; [reflexivity |].
  split; [| now apply getUUID_direct].
  apply getUUID_direct; [exact Hs | | exact Hu].
  destruct (decide (sourceEntity = targetEntity
                    /\ toString sourceId = toString targetId)) as [[-> Heq] | Hne].
  - rewrite Heq in Hent1.
    rewrite (getOrCreateUUID_existing e2 _ _ _ m1 u Ht Hent1 Hu) in Hcall2.
    injection Hcall2 as <- <-. now rewrite Heq.
  - pose proof (getOrCreateUUID_frame e2 targetEntity targetId defaults m1
                  sourceEntity (toString sourceId)) as [_ Hframe].
    rewrite Hcall2 in Hframe. cbn [snd] in Hframe.
    rewrite Hframe; [exact Hent1 | |].
    + destruct (decide (sourceEntity = targetEntity)); [right | left]; intuition congruence.
    + intros (Hle & -> & Heq). apply Hclash. now split.
Qed.

Lemma ensureRelationshipMappings_both_found_witness :
  let call := ensureRelationshipMappings (Env 0 "") (Env 1 "") "users" "businesses"
                (IdNumber 3) (IdNumber 3) (initial 0) in
  exists sourceUUID targetUUID,
    call.1 = Some (Some sourceUUID, Some targetUUID)
    /\ getUUID "users" (IdNumber 3) call.2 = Some sourceUUID
    /\ getUUID "businesses" (IdNumber 3) call.2 = Some targetUUID.
Proof.
  apply (ensureRelationshipMappings_both_found (Env 0 "") (Env 1 "") "users" "businesses"
           (IdNumber 3) (IdNumber 3) (initial 0) eq_refl eq_refl (ex_intro _ ∅ eq_refl)).
  intros (H & _). discriminate H.
Defined.

(** ** Lists of source ids *)

Lemma omap_cons {A B : Type} (f : A -> option B) (x : A) (l : list A) :
  omap f (x :: l) = match f x with Some y => y :: omap f l | None => omap f l end.
Proof. reflexivity. Qed.

Lemma omap_length_le {A B : Type} (f : A -> option B) (l : list A) :
  (List.length (omap f l) <= List.length l)%nat.
Proof.
  induction l as [|x l IH]; [simpl; lia |].
  rewrite omap_cons. destruct (f x); simpl; lia.
Qed.

Lemma omap_length_full {A B : Type} (f : A -> option B) (l : list A) :
  List.length (omap f l) = List.length l <-> Forall (fun x => is_Some (f x)) l.
Proof.
  induction l as [|x l IH].
  - split; [constructor | reflexivity].
  - pose proof (omap_length_le f l) as Hle. rewrite omap_cons.
    destruct (f x) as [y|] eqn:Hx; simpl.
    + split.
      * intros H. constructor; [rewrite Hx; eauto | apply IH; lia].
      * intros H. inversion H; subst. f_equal. now apply IH.
    + split; [lia |]. intros H. inversion H as [|? ? [y Hy] ?]; subst. congruence.
Qed.

(** X6. [mapIdsToUUIDs] returns the identifiers found by [getUUID] for
    the listed source ids and nothing else; a source id without a
    mapping is left out without a trace, so the result is as long as the
    list exactly when every source id of the list is mapped. An argument
    that is not an array gives the empty list. *)
Theorem mapIdsToUUIDs_mapped_only (entity : string) (oldIds : list sourceId) (m : mapper) :
  (forall u, u ∈ mapIdsToUUIDs entity (Some oldIds) m
             <-> exists id, id ∈ oldIds /\ getUUID entity id m = Some u)
  /\ (List.length (mapIdsToUUIDs entity (Some oldIds) m) <= List.length oldIds)%nat
  /\ (List.length (mapIdsToUUIDs entity (Some oldIds) m) = List.length oldIds
      <-> Forall (fun id => is_Some (getUUID entity id m)) oldIds)
  /\ mapIdsToUUIDs entity None m = [].
Proof.
  unfold mapIdsToUUIDs. split; [| split; [| split]].
  - intros u. apply list_elem_of_omap.
  - apply omap_length_le.
  - apply omap_length_full.
  - reflexivity.
Qed.

(** ** Loading, entity type by entity type *)

(** X7. [loadMappingsFromFile] works by entity type. On a path without a
    file it returns false and leaves the mapper as it is. On a file it
    returns true; the table of every entity type of the file takes the
    place of the table in memory, and the tables of the entity types
    that the file does not have stay as they are. *)
Theorem load_by_entity_type (path : string) (m : mapper) (fs : files) :
  (fs !! path = None -> loadMappingsFromFile path m fs = (false, m))
  /\ (forall doc, fs !! path = Some doc ->
        (loadMappingsFromFile path m fs).1 = true
        /\ forall entity,
            idMappings (loadMappingsFromFile path m fs).2 !! entity
            = match docTables doc !! entity with
              | Some ids => Some ids
              | None => idMappings m !! entity
              end).
Proof.
  split.
  - intros H. unfold loadMappingsFromFile. now rewrite H.
  - intros doc Hdoc. split.
    + unfold loadMappingsFromFile. now rewrite Hdoc.
    + intros entity. destruct (docTables doc !! entity) as [ids|] eqn:Hids.
      * now apply (load_replaces_tables path m fs doc).
      * now apply (load_keeps_absent_entities path m fs doc).
Qed.

Lemma load_by_entity_type_witness :
  let m := (getOrCreateUUID (Env 0 "") "users" (IdNumber 1) defaults (initial 0)).2 in
  let doc := Document ({[ "plans" := ({[ "4" := "pinned-plan" ]} : table) ]} : tables) None in
  let loaded :=
    loadMappingsFromFile "uuid-mappings.json" m
      ({[ "uuid-mappings.json" := doc ]} : files) in
  loaded.1 = true
  /\ idMappings loaded.2 !! "plans" = Some ({[ "4" := "pinned-plan" ]} : table)
  /\ idMappings loaded.2 !! "users" = idMappings m !! "users".
Proof.
  cbn zeta.
  pose (doc := Document ({[ "plans" := ({[ "4" := "pinned-plan" ]} : table) ]} : tables)
                 None).
  pose (fs := ({[ "uuid-mappings.json" := doc ]} : files)).
  assert (Hdoc : fs !! "uuid-mappings.json" = Some doc) by (vm_compute; reflexivity).
  destruct (proj2 (load_by_entity_type "uuid-mappings.json"
                     (getOrCreateUUID (Env 0 "") "users" (IdNumber 1) defaults (initial 0)).2
                     fs)
              doc Hdoc) as [H1 H2].
  split; [exact H1 |]. split; [exact (H2 "plans") | exact (H2 "users")].
Defined.

(** X8. After [loadMappingsFromFile] has read a file, every entry of the
    tables is met by the reverse index: the identifier of the entry
    leads back, under the same entity type, to a source id that carries
    that identifier. *)
Theorem load_rebuilds_reverse_index (path : string) (m : mapper) (fs : files)
    (entity id uuid : string) :
  is_Some (fs !! path) ->
  lookup2 (idMappings (loadMappingsFromFile path m fs).2) entity id = Some uuid ->
  exists id',
    lookup2 (reverseIdMappings (loadMappingsFromFile path m fs).2) entity uuid = Some id'
    /\ lookup2 (idMappings (loadMappingsFromFile path m fs).2) entity id' = Some uuid.
Proof. exact (load_reverse_covers_forward path m fs entity id uuid). Qed.

Lemma load_rebuilds_reverse_index_witness :
  let doc := Document ({[ "plans" := ({[ "4" := "pinned-plan" ]} : table) ]} : tables) None in
  let loaded :=
    (loadMappingsFromFile "uuid-mappings.json" (initial 0)
       ({[ "uuid-mappings.json" := doc ]} : files)).2 in
  exists id',
    lookup2 (reverseIdMappings loaded) "plans" "pinned-plan" = Some id'
    /\ lookup2 (idMappings loaded) "plans" id' = Some "pinned-plan".
Proof.
  cbn zeta.
  apply (load_rebuilds_reverse_index "uuid-mappings.json" (initial 0) _
           "plans" "4" "pinned-plan").
  - vm_compute. eauto.
  - vm_compute. reflexivity.
Defined.

(** ** The older module, further *)

(** X9. In the older module what [saveMappingsToFile] wrote is found
    again by a new process after [loadMappingsFromFile]: [getUUID] gives
    for every pair what it gave before. *)
Theorem legacy_roundtrip (path : string) (t : tables) (fs : gmap string tables)
    (entity : string) (oldId : sourceId) :
  Legacy.getUUID entity oldId
    (Legacy.loadMappingsFromFile path Legacy.initial (Legacy.saveMappingsToFile path t fs))
  = Legacy.getUUID entity oldId t.
Proof. exact (legacy_persist_then_load path t fs entity oldId). Qed.

(** X10. In the older module the identifier of a pair is drawn at random
    once: a second call for the pair returns the identifier of the first
    call, whatever [uuidv4] would give then, and changes nothing. *)
Theorem legacy_second_call_returns_first (random random' entity : string)
    (oldId : sourceId) (t : tables) :
  falsy oldId = false ->
  random ≠ "" ->
  let first := Legacy.getOrCreateUUID random entity oldId t in
  Legacy.getOrCreateUUID random' entity oldId first.2 = first.
Proof.
  intros Hid Hr first. subst first. unfold Legacy.getOrCreateUUID.
  rewrite (falsy_isZero _ Hid).
  destruct (truthy (lookup2 (ensure entity t) entity (toString oldId))) eqn:Ht;
    cbn [fst snd].
  - assert (Hens : ensure entity (ensure entity t) = ensure entity t).
    { unfold ensure at 1. unfold ensure.
      destruct (t !! entity) eqn:H; [now rewrite H | now rewrite lookup_insert_eq]. }
    now rewrite Hens, Ht.
  - assert (Hens : ensure entity (assign entity (toString oldId) random (ensure entity t))
                   = assign entity (toString oldId) random (ensure entity t)).
    { unfold ensure at 1. unfold assign at 1. now rewrite lookup_insert_eq. }
    rewrite Hens, lookup2_assign_eq, (truthy_intro random Hr). reflexivity.
Qed.

Lemma legacy_second_call_returns_first_witness :
  let first := Legacy.getOrCreateUUID "random-1" "users" (IdNumber 9) Legacy.initial in
  Legacy.getOrCreateUUID "random-2" "users" (IdNumber 9) first.2 = first.
Proof.
  exact (legacy_second_call_returns_first "random-1" "random-2" "users" (IdNumber 9)
           Legacy.initial eq_refl ltac:(discriminate)).
Defined.

(** * Further properties of the dump parser *)

(** ** Row splitter: nothing but the separators is lost *)

Lemma string_app_assoc (a b c : string) : (a ++ b) ++ c = a ++ (b ++ c).
Proof.
  induction a as [|x a IH]; [reflexivity |].
  change (String x ((a ++ b) ++ c) = String x (a ++ (b ++ c))). now f_equal.
Qed.

Lemma concat_cons (sep a : string) (l : list string) :
  l ≠ [] -> String.concat sep (a :: l) = a ++ sep ++ String.concat sep l.
Proof. destruct l; [congruence | reflexivity]. Qed.

Lemma concat_snoc (sep y : string) (l : list string) :
  l ≠ [] -> String.concat sep (l ++ [y]) = String.concat sep l ++ sep ++ y.
Proof.
  induction l as [|a l IH]; [congruence |]. intros _.
  destruct l as [|b l]; [reflexivity |].
  change ((a :: b :: l) ++ [y])%list with (a :: ((b :: l) ++ [y]))%list.
  rewrite concat_cons by discriminate. rewrite IH by discriminate.
  rewrite (concat_cons sep a (b :: l)) by discriminate.
  now rewrite !string_app_assoc.
Qed.

Lemma concat_snoc_append (sep x y : string) (l : list string) :
  String.concat sep (l ++ [x ++ y]) = String.concat sep (l ++ [x]) ++ y.
Proof.
  destruct l as [|a l]; [reflexivity |].
  rewrite !concat_snoc by discriminate. now rewrite !string_app_assoc.
Qed.

(** One turn of the loop of [splitInsertValues]: the character goes to
    the current row, and either the scan goes on with the rest, or the
    rest starts with a comma and an opening parenthesis, the current row
    is pushed and the scan goes on after the two. *)
Lemma rowLoop_turn (st : rowState) (char : ascii) (rest : string) :
  (exists st1,
      result st1 = result st /\ current st1 = push (current st) char
      /\ rowLoop st (String char rest) = rowLoop st1 rest)
  \/ (exists st2 rest',
         rest = String "," (String "(" rest')
         /\ result st2 = (result st ++ [push (current st) char])%list
         /\ current st2 = ""
         /\ rowLoop st (String char rest) = rowLoop st2 rest').
Proof.
  destruct st as [res cur dep ins sc esc]. cbn [rowLoop result current].
  destruct (if isQuote char && negb esc
            then if negb ins then (true, Some char)
                 else if sameChar sc char then (false, None) else (ins, sc)
            else (ins, sc)) as [ins' sc'].
  destruct (Ascii.eqb char backslash && negb esc).
  { left. eexists. split; [| split; [| reflexivity]]; reflexivity. }
  set (dep' := if Ascii.eqb char "(" && negb ins' then dep + 1
               else if Ascii.eqb char ")" && negb ins' then dep - 1 else dep).
  destruct ((dep' =? 0) && negb ins' && Ascii.eqb char ")").
  - destruct rest as [|c1 [|c2 rest']];
      try (left; eexists; split; [| split; [| reflexivity]]; reflexivity).
    destruct (Ascii.eqb c1 ",") eqn:H1; destruct (Ascii.eqb c2 "(") eqn:H2; cbn [andb];
      try (left; eexists; split; [| split; [| reflexivity]]; reflexivity).
    apply Ascii.eqb_eq in H1, H2. subst c1 c2.
    right. eexists _, rest'. split; [reflexivity |].
    split; [| split; [| reflexivity]]; reflexivity.
  - left. eexists. split; [| split; [| reflexivity]]; reflexivity.
Qed.

(** The invariant of the loop: the rows joined, followed by what is left
    to read, is the text. *)
Lemma rowLoop_joined (n : nat) :
  forall (text : string) (st : rowState),
    (String.length text <= n)%nat ->
    joined (rowLoop st text) = joined st ++ text.
Proof.
  induction n as [|n IH]; intros text st Hlen.
  - destruct text; [| simpl in Hlen; lia]. simpl. now rewrite append_empty.
  - destruct text as [|char rest]; [simpl; now rewrite append_empty |].
    simpl in Hlen.
    destruct (rowLoop_turn st char rest)
      as [(st1 & Hres & Hcur & Hloop) | (st2 & rest' & -> & Hres & Hcur & Hloop)].
    + rewrite Hloop, IH by lia. unfold joined. rewrite Hres, Hcur.
      unfold push. rewrite concat_snoc_append. now rewrite string_app_assoc.
    + simpl in Hlen. rewrite Hloop, IH by lia. unfold joined. rewrite Hres, Hcur.
      rewrite concat_snoc by (destruct (result st); discriminate).
      unfold push. rewrite concat_snoc_append. now rewrite !string_app_assoc.
Qed.

Lemma includes_nonempty (s p : string) : includes s p = true -> p ≠ "" -> s ≠ "".
Proof. intros H Hp ->. destruct p; [congruence | discriminate H]. Qed.

(** X11. On a text that holds a row separator, [splitInsertValues] loses
    no character but the comma and the opening parenthesis of the
    separators it sees: its rows joined by these two characters give the
    text back, up to a separator at the very end of the text. *)
Theorem splitInsertValues_joined (valuesText : string) :
  includes valuesText "),(" = true ->
  valuesText = String.concat ",(" (splitInsertValues valuesText)
  \/ valuesText = String.concat ",(" (splitInsertValues valuesText) ++ ",(".
Proof.
  intros Hinc. unfold splitInsertValues. rewrite Hinc. cbn [negb].
  pose proof (rowLoop_joined (String.length valuesText) valuesText rowInit (le_n _)) as HJ.
  change (joined rowInit ++ valuesText) with valuesText in HJ.
  unfold joined in HJ.
  destruct (String.eqb (current (rowLoop rowInit valuesText)) "") eqn:Hcur; cbn [negb].
  - apply String.eqb_eq in Hcur. rewrite Hcur in HJ.
    destruct (result (rowLoop rowInit valuesText)) as [|r rs] eqn:Hres.
    + simpl in HJ. exfalso.
      apply (includes_nonempty valuesText "),(" Hinc); [discriminate | now symmetry].
    + cbn [List.length Nat.eqb andb]. right.
      rewrite concat_snoc in HJ by discriminate. now rewrite append_empty in HJ.
  - left.
    replace (Nat.eqb (List.length (result (rowLoop rowInit valuesText)
                                   ++ [current (rowLoop rowInit valuesText)])) 0)
      with false by (rewrite length_app; simpl; symmetry; apply Nat.eqb_neq; lia).
    cbn [andb]. now symmetry.
Qed.

Lemma splitInsertValues_joined_witness :
  "(1,2),(3,4),(5,6)" = String.concat ",(" (splitInsertValues "(1,2),(3,4),(5,6)")
  \/ "(1,2),(3,4),(5,6)"
     = String.concat ",(" (splitInsertValues "(1,2),(3,4),(5,6)") ++ ",(".
Proof. exact (splitInsertValues_joined "(1,2),(3,4),(5,6)" eq_refl). Defined.

(** ** A statement of one row *)

Lemma trimEnd_keeps_last (t : string) (c : ascii) :
  isWhiteSpace c = false -> trimEnd (t ++ String c "") = t ++ String c "".
Proof.
  intros Hc. induction t as [|a t IH].
  - change ("" ++ String c "") with (String c ""). cbn [trimEnd]. now rewrite Hc.
  - change (String a t ++ String c "") with (String a (t ++ String c "")).
    cbn [trimEnd]. rewrite IH. now destruct t.
Qed.

Lemma substring_inner (c d : ascii) (s : string) :
  substring 1 (String.length (String c (s ++ String d "")) - 1) (String c (s ++ String d ""))
  = s.
Proof.
  unfold substring. simpl String.length. rewrite append_length. simpl String.length.
  replace (S (String.length s + 1) - 1)%nat with (S (String.length s)) by lia.
  replace (Nat.min 1 (S (String.length s + 1))) with 1%nat by lia.
  replace (Nat.min (S (String.length s)) (S (String.length s + 1)))
    with (S (String.length s)) by lia.
  replace (Nat.min 1 (S (String.length s))) with 1%nat by lia.
  replace (Nat.max 1 (S (String.length s)) - 1)%nat with (String.length s) by lia.
  simpl String.substring. apply substring_prefix.
Qed.

Lemma stripParens_parenthesised (s : string) : stripParens ("(" ++ s ++ ")") = s.
Proof.
  unfold stripParens.
  assert (Htrim : trim ("(" ++ s ++ ")") = "(" ++ s ++ ")").
  { unfold trim. change ("(" ++ s ++ ")") with (String "(" (s ++ ")")).
    cbn [trimStart].
    replace (isWhiteSpace "(") with false by reflexivity.
    apply (trimEnd_keeps_last (String "(" s) ")"). reflexivity. }
  rewrite Htrim.
  assert (Hends : endsWith (String "(" (s ++ String ")" "")) ")" = true)
    by exact (endsWith_append (String "(" s) ")").
  change ("(" ++ s ++ ")") with (String "(" (s ++ String ")" "")).
  rewrite substring_inner, Hends.
  now replace (startsWith (String "(" (s ++ String ")" "")) "(") with true by reflexivity.
Qed.

(** X12. A captured text of one parenthesised row, holding no row
    separator, goes through [extractTableData] as its inside goes
    through [parseValuesComplex]: the parentheses are taken off, the
    inside is split and lexed, and the row is emitted when the guard on
    the number of values lets it through. *)
Theorem extractTableData_single_row (s : string) (columns : list string) :
  includes ("(" ++ s ++ ")") "),(" = false ->
  extractTableData ["(" ++ s ++ ")"] columns
  = match rowOfValues columns (parseValuesComplex s) with
    | Some rowData => [rowData]
    | None => []
    end.
Proof.
  intros Hinc. unfold extractTableData. cbn [flat_map].
  replace (String.eqb ("(" ++ s ++ ")") "") with false by reflexivity.
  unfold splitInsertValues. rewrite Hinc. cbn [negb].
  rewrite app_nil_r. rewrite omap_cons. unfold rowOfText.
  assert (Htrim : trim ("(" ++ s ++ ")") = "(" ++ s ++ ")").
  { unfold trim. change ("(" ++ s ++ ")") with (String "(" (s ++ ")")).
    cbn [trimStart]. replace (isWhiteSpace "(") with false by reflexivity.
    apply (trimEnd_keeps_last (String "(" s) ")"). reflexivity. }
  rewrite Htrim, stripParens_parenthesised.
  now destruct (rowOfValues columns (parseValuesComplex s)).
Qed.

Lemma extractTableData_single_row_witness :
  extractTableData ["(" ++ "7,'x'" ++ ")"] ["id"; "name"]
  = match rowOfValues ["id"; "name"] (parseValuesComplex "7,'x'") with
    | Some rowData => [rowData]
    | None => []
    end.
Proof. exact (extractTableData_single_row "7,'x'" ["id"; "name"] eq_refl). Defined.

(** ** The number of values of a row *)

Lemma fieldStep_values (st : fieldState) (c : ascii) :
  (List.length (values (fieldStep st c))
   <= List.length (values st) + (if Ascii.eqb c "," then 1 else 0))%nat.
Proof.
  destruct st as [vs cur ins sc esc]. unfold fieldStep. cbn [values].
  destruct esc; cbn [values]; [lia |].
  destruct (Ascii.eqb c backslash); cbn [values]; [lia |].
  destruct (isQuote c && negb false).
  - destruct (negb ins); cbn [values]; [lia |].
    destruct (sameChar sc c); cbn [values]; lia.
  - destruct (Ascii.eqb c ","); cbn [andb].
    + destruct (negb ins); cbn [values]; [rewrite length_app; simpl; lia | lia].
    + cbn [values]. lia.
Qed.

Lemma fieldLoop_values (r : string) (st : fieldState) :
  (List.length (values (fieldLoop st r))
   <= List.length (values st) + occurrences "," r)%nat.
Proof.
  revert st. induction r as [|c r IH]; intros st; cbn [fieldLoop occurrences]; [lia |].
  pose proof (IH (fieldStep st c)). pose proof (fieldStep_values st c). lia.
Qed.

(** X13. [parseValuesComplex] returns at most one value more than the
    row text has commas, whatever the quotes and the backslashes of the
    text. *)
Theorem parseValuesComplex_length (rowText : string) :
  (List.length (parseValuesComplex rowText) <= occurrences "," rowText + 1)%nat.
Proof.
  unfold parseValuesComplex, fieldFinish.
  pose proof (fieldLoop_values rowText fieldInit) as H. cbn [values fieldInit] in H.
  destruct (negb _); [rewrite length_app; simpl |]; simpl in H; lia.
Qed.

(** ** The rows of a table *)

Lemma rowOfValues_fits (columns : list string) (values : list scalar) (rowData : row) :
  rowOfValues columns values = Some rowData ->
  rowData ≠ ∅ /\ dom rowData ⊆ (list_to_set columns : gset string).
Proof.
  unfold rowOfValues.
  destruct (0 <? List.length values)%nat eqn:Hpos; [| discriminate].
  destruct (List.length values <=? List.length columns)%nat eqn:Hle; [| discriminate].
  apply Nat.ltb_lt in Hpos. apply Nat.leb_le in Hle. cbn [andb].
  intros H. injection H as <-.
  assert (Hdom : dom (fillRow columns values 0 ∅)
                 = (list_to_set (take (List.length values) columns) : gset string)).
  { rewrite fillRow_dom by (simpl; lia). rewrite dom_empty_L. simpl. set_solver. }
  split.
  - intros Hempty. apply (f_equal dom) in Hempty. rewrite Hdom, dom_empty_L in Hempty.
    destruct columns as [|c cs]; [simpl in Hle; lia |].
    destruct values as [|v vs]; [simpl in Hpos; lia |].
    simpl in Hempty. set_solver.
  - rewrite Hdom. intros k Hk. apply elem_of_list_to_set in Hk.
    apply elem_of_list_to_set. eapply subseteq_take, Hk.
Qed.

Lemma extractTableData_fits (captures columns : list string) (rowData : row) :
  rowData ∈ extractTableData captures columns ->
  rowData ≠ ∅ /\ dom rowData ⊆ (list_to_set columns : gset string).
Proof.
  unfold extractTableData. rewrite list_elem_of_In, in_flat_map.
  intros (valuesText & _ & Hin).
  destruct (String.eqb valuesText ""); [destruct Hin |].
  apply list_elem_of_In, list_elem_of_omap in Hin as (rowText & _ & Hrow).
  now apply (rowOfValues_fits columns _ rowData Hrow).
Qed.

Lemma recoverStatements_fits (captures : list (option string)) (columns : list string)
    (rowData : row) :
  rowData ∈ recoverStatements captures columns ->
  rowData ≠ ∅ /\ dom rowData ⊆ (list_to_set columns : gset string).
Proof.
  unfold recoverStatements. intros Hin.
  apply list_elem_of_omap in Hin as ([text|] & _ & Hrow); [| discriminate].
  destruct (String.eqb text ""); [discriminate |].
  now apply (rowOfValues_fits columns _ rowData Hrow).
Qed.

Lemma directExtraction_Some (patternCaptures : list (list string)) (columns : list string)
    (data : list row) :
  directExtraction patternCaptures columns = Some data ->
  data ≠ [] /\ exists captures,
    captures ∈ patternCaptures /\ data = extractTableData captures columns.
Proof.
  induction patternCaptures as [|captures rest IH]; [discriminate |].
  cbn [directExtraction].
  destruct (0 <? List.length (extractTableData captures columns))%nat eqn:Hpos.
  - intros H. injection H as <-. split.
    + apply Nat.ltb_lt in Hpos. intros Hnil. rewrite Hnil in Hpos. simpl in Hpos. lia.
    + exists captures. split; [left | reflexivity].
  - intros H. destruct (IH H) as (Hne & c & Hc & Hdata).
    split; [exact Hne |]. exists c. split; [now right | exact Hdata].
Qed.

Lemma directExtraction_first (before : list (list string)) (captures : list string)
    (after : list (list string)) (columns : list string) :
  Forall (fun c => extractTableData c columns = []) before ->
  extractTableData captures columns ≠ [] ->
  directExtraction (before ++ captures :: after) columns
  = Some (extractTableData captures columns).
Proof.
  intros Hbefore Hne. induction Hbefore as [|c before Hc _ IH].
  - cbn [app directExtraction].
    destruct (extractTableData captures columns) as [|r rs]; [congruence | reflexivity].
  - cbn [app directExtraction]. rewrite Hc. exact IH.
Qed.

(** X14. Whatever the patterns and the statements capture, every row
    that [parseSqlDump] keeps for a table has at least one key and no
    key outside the columns of the schema. The rows are those of the
    first pattern that gives any, wherever it stands in the list and
    whatever the patterns after it give; the statement-by-statement pass
    is used only when no pattern gives a row. *)
Theorem tableData_rows_fit_schema (patternCaptures : list (list string))
    (statementCaptures : list (option string)) (columns : list string) :
  (forall rowData, rowData ∈ tableData patternCaptures statementCaptures columns ->
     rowData ≠ ∅ /\ dom rowData ⊆ (list_to_set columns : gset string))
  /\ (forall before captures after,
        patternCaptures = (before ++ captures :: after)%list ->
        Forall (fun c => extractTableData c columns = []) before ->
        extractTableData captures columns ≠ [] ->
        tableData patternCaptures statementCaptures columns
        = extractTableData captures columns)
  /\ (Forall (fun captures => extractTableData captures columns = []) patternCaptures ->
      tableData patternCaptures statementCaptures columns
      = recoverStatements statementCaptures columns).
Proof.
  unfold tableData. split; [| split].
  - intros rowData Hin.
    destruct (directExtraction patternCaptures columns) as [data|] eqn:Hd.
    + destruct (directExtraction_Some _ _ _ Hd) as (_ & c & _ & ->).
      now apply (extractTableData_fits c columns).
    + now apply (recoverStatements_fits statementCaptures columns).
  - intros before captures after -> Hbefore Hne.
    now rewrite (directExtraction_first before captures after columns Hbefore Hne).
  - intros Hall.
    destruct (directExtraction patternCaptures columns) as [data|] eqn:Hd; [| reflexivity].
    destruct (directExtraction_Some _ _ _ Hd) as (Hne & c & Hc & ->).
    rewrite Forall_forall in Hall. now rewrite (Hall c Hc) in Hne.
Qed.

Lemma tableData_rows_fit_schema_witness :
  tableData [["(1,2,3)"]; ["(1)"]; ["(2)"]] [Some "9"] ["a"; "b"]
  = extractTableData ["(1)"] ["a"; "b"]
  /\ tableData [["(1,2)"]; ["(3)"]] [Some "9"] ["a"; "b"]
     = extractTableData ["(1,2)"] ["a"; "b"]
  /\ tableData [["(1,2,3)"]] [Some "9"] ["a"; "b"]
     = recoverStatements [Some "9"] ["a"; "b"].
Proof.
  split; [| split].
  - apply (proj1 (proj2 (tableData_rows_fit_schema [["(1,2,3)"]; ["(1)"]; ["(2)"]]
                           [Some "9"] ["a"; "b"])) [["(1,2,3)"]] ["(1)"] [["(2)"]] eq_refl).
    + repeat constructor.
    + vm_compute. discriminate.
  - apply (proj1 (proj2 (tableData_rows_fit_schema [["(1,2)"]; ["(3)"]] [Some "9"]
                           ["a"; "b"])) [] ["(1,2)"] [["(3)"]] eq_refl).
    + constructor.
    + vm_compute. discriminate.
  - apply (proj2 (proj2 (tableData_rows_fit_schema [["(1,2,3)"]] [Some "9"] ["a"; "b"]))).
    repeat constructor.
Defined.

(** ** Integers *)

(** What the lexer and the scanners need to know of a decimal digit. *)
Lemma digit_facts (c : ascii) :
  isDigit c = true ->
  digitValue 10 c = Some (code c - 48)
  /\ upperChar c = c
  /\ isWhiteSpace c = false
  /\ isQuote c = false
  /\ Ascii.eqb c backslash = false
  /\ Ascii.eqb c "," = false
  /\ Ascii.eqb c "." = false
  /\ Ascii.eqb c "-" = false
  /\ Ascii.eqb c "+" = false
  /\ Ascii.eqb c "N" = false
  /\ Ascii.eqb "I" c = false
  /\ Ascii.eqb "x" c = false /\ Ascii.eqb "X" c = false
  /\ Ascii.eqb "o" c = false /\ Ascii.eqb "O" c = false
  /\ Ascii.eqb "b" c = false /\ Ascii.eqb "B" c = false
  /\ Ascii.eqb "'" c = false /\ Ascii.eqb dquote c = false.
Proof.
  destruct c as [[] [] [] [] [] [] [] []]; vm_compute; intros H;
    first [discriminate H | repeat split].
Qed.

Lemma digits_all (s : string) :
  allChars isDigit s = true ->
  forall acc n,
    digits 10 acc n s = (valueOf acc s, n + Z.of_nat (String.length s), "").
Proof.
  induction s as [|c s IH]; intros H acc n.
  - cbn [digits valueOf String.length]. do 2 f_equal. lia.
  - cbn [allChars] in H. apply andb_true_iff in H as [Hc Hs].
    destruct (digit_facts c Hc) as (Hv & _).
    cbn [digits valueOf String.length]. rewrite Hv, (IH Hs). do 2 f_equal. lia.
Qed.

Lemma trimEnd_no_space (s : string) :
  allChars (fun c => negb (isWhiteSpace c)) s = true -> trimEnd s = s.
Proof.
  induction s as [|c s IH]; [reflexivity |]. cbn [allChars trimEnd].
  intros H. apply andb_true_iff in H as [Hc Hs]. rewrite (IH Hs).
  apply negb_true_iff in Hc. rewrite Hc. now destruct s.
Qed.

Lemma digits_no_space (s : string) :
  allChars isDigit s = true -> allChars (fun c => negb (isWhiteSpace c)) s = true.
Proof.
  apply allChars_impl. intros c Hc.
  destruct (digit_facts c Hc) as (_ & _ & Hw & _). now rewrite Hw.
Qed.

Lemma includes_digits (s : string) :
  allChars isDigit s = true -> includes s "." = false.
Proof.
  induction s as [|c s IH]; [reflexivity |]. cbn [allChars].
  intros H. apply andb_true_iff in H as [Hc Hs].
  destruct (digit_facts c Hc) as (_ & _ & _ & _ & _ & _ & Hdot & _).
  cbn [includes startsWith]. rewrite Ascii.eqb_sym, Hdot. cbn [andb orb]. exact (IH Hs).
Qed.

(** Rounding an integer never gives NaN. *)
Lemma shr_1_nonneg (mrs : shr_record) : 0 <= shr_m mrs -> 0 <= shr_m (shr_1 mrs).
Proof.
  destruct mrs as [m r s]. cbn [shr_m]. intros H.
  destruct m as [|p|p]; [cbn; lia | destruct p; cbn; lia | lia].
Qed.

Lemma iter_shr_1_nonneg (p : positive) (mrs : shr_record) :
  0 <= shr_m mrs -> 0 <= shr_m (SpecFloat.iter_pos shr_1 p mrs).
Proof.
  revert mrs. induction p as [p IH | p IH |]; intros mrs H; cbn [SpecFloat.iter_pos].
  - apply IH, IH, shr_1_nonneg, H.
  - apply IH, IH, H.
  - apply shr_1_nonneg, H.
Qed.

Lemma shr_fexp_nonneg (m e : Z) (l : location) :
  0 <= m -> 0 <= shr_m (shr_fexp prec emax m e l).1.
Proof.
  intros H. unfold shr_fexp, shr.
  assert (H0 : 0 <= shr_m (shr_record_of_loc m l)) by (destruct l as [|[]]; exact H).
  destruct (fexp prec emax (Zdigits2 m + e) - e); cbn [fst]; auto using iter_shr_1_nonneg.
Qed.

Lemma binary_round_aux_not_nan (sx : bool) (mx ex : Z) (lx : location) :
  0 <= mx -> numberIsNaN (binary_round_aux prec emax sx mx ex lx) = false.
Proof.
  intros H. unfold binary_round_aux.
  pose proof (shr_fexp_nonneg mx ex lx H) as H1.
  destruct (shr_fexp prec emax mx ex lx) as [mrs' e']. cbn [fst] in H1.
  assert (H2 : 0 <= round_nearest_even (shr_m mrs') (loc_of_shr_record mrs')).
  { unfold round_nearest_even.
    destruct (loc_of_shr_record mrs') as [|[]]; try lia.
    destruct (Z.even (shr_m mrs')); lia. }
  pose proof (shr_fexp_nonneg _ e' loc_Exact H2) as H3.
  destruct (shr_fexp prec emax _ e' loc_Exact) as [mrs'' e'']. cbn [fst] in H3.
  destruct (shr_m mrs'') as [|p|p]; [reflexivity | | lia].
  now destruct (e'' <=? emax - prec).
Qed.

Lemma ofInteger_not_nan (neg : bool) (m : Z) : numberIsNaN (ofInteger neg m) = false.
Proof.
  destruct m as [|p|p]; [reflexivity | | reflexivity].
  unfold ofInteger, binary_round.
  destruct (shl_align p 0 _) as [mz ez]. now apply binary_round_aux_not_nan.
Qed.

Lemma ofDecimal_integer (neg : bool) (m : Z) : ofDecimal neg m 0 = ofInteger neg m.
Proof.
  destruct m as [|p|p]; [reflexivity | | reflexivity].
  unfold ofDecimal. cbn [Z.leb Z.compare]. now rewrite Z.pow_0_r, Z.mul_1_r.
Qed.

(** The Number of a text made of an optional minus sign and digits. *)
Lemma decimalPrefix_digits (neg : bool) (s : string) :
  s ≠ "" -> allChars isDigit s = true ->
  decimalPrefix ((if neg then "-" else "") ++ s)
  = Some (ofInteger neg (valueOf 0 s), "").
Proof.
  intros Hne Hs. unfold decimalPrefix.
  assert (Hsign : sign ((if neg then "-" else "") ++ s) = (neg, s)).
  { destruct neg; [reflexivity |]. destruct s as [|c r]; [congruence |].
    cbn [allChars] in Hs. apply andb_true_iff in Hs as [Hc _].
    destruct (digit_facts c Hc) as (_ & _ & _ & _ & _ & _ & _ & Hm & Hp & _).
    change ("" ++ String c r) with (String c r). cbn [sign]. now rewrite Hm, Hp. }
  rewrite Hsign.
  assert (Hinf : startsWith s "Infinity" = false).
  { destruct s as [|c r]; [congruence |].
    cbn [allChars] in Hs. apply andb_true_iff in Hs as [Hc _].
    destruct (digit_facts c Hc) as (_ & _ & _ & _ & _ & _ & _ & _ & _ & _ & HI & _).
    cbn [startsWith]. now rewrite HI. }
  rewrite Hinf, (digits_all s Hs). cbn [exponentPart].
  assert (Hlen : (0 + Z.of_nat (String.length s) =? 0) = false).
  { apply Z.eqb_neq. destruct s; [congruence | simpl; lia]. }
  rewrite Hlen. cbn [andb]. rewrite Z.sub_0_r. now rewrite ofDecimal_integer.
Qed.

Lemma toNumber_digits (neg : bool) (s : string) :
  s ≠ "" -> allChars isDigit s = true ->
  toNumber ((if neg then "-" else "") ++ s) = ofInteger neg (valueOf 0 s).
Proof.
  intros Hne Hs. unfold toNumber.
  destruct s as [|c r]; [congruence |].
  pose proof Hs as Hs'. cbn [allChars] in Hs'. apply andb_true_iff in Hs' as [Hc Hr].
  destruct (digit_facts c Hc)
    as (_ & _ & Hw & _ & _ & _ & _ & _ & _ & _ & _ & Hx & HX & Ho & HO & Hb & HB & _).
  assert (Htrim : trim ((if neg then "-" else "") ++ String c r)
                  = (if neg then "-" else "") ++ String c r).
  { unfold trim. destruct neg.
    - change ("-" ++ String c r) with (String "-" (String c r)). cbn [trimStart].
      replace (isWhiteSpace "-") with false by reflexivity.
      apply trimEnd_no_space. cbn [allChars].
      replace (negb (isWhiteSpace "-")) with true by reflexivity.
      apply (digits_no_space (String c r) Hs).
    - change ("" ++ String c r) with (String c r). cbn [trimStart]. rewrite Hw.
      apply trimEnd_no_space, (digits_no_space (String c r) Hs). }
  rewrite Htrim.
  rewrite (decimalPrefix_digits neg (String c r) Hne Hs).
  destruct neg.
  - reflexivity.
  - change ("" ++ String c r) with (String c r).
    replace (String.eqb (String c r) "") with false by reflexivity.
    assert (Hpre : forall q : ascii,
               (forall d, isDigit d = true -> Ascii.eqb q d = false) ->
               startsWith (String c r) (String "0" (String q "")) = false).
    { intros q Hq. destruct r as [|d r']; cbn [startsWith].
      - apply andb_false_r.
      - cbn [allChars] in Hr. apply andb_true_iff in Hr as [Hd _].
        rewrite (Hq d Hd). cbn [andb]. apply andb_false_r. }
    change "0x" with (String "0" (String "x" "")).
    change "0X" with (String "0" (String "X" "")).
    change "0o" with (String "0" (String "o" "")).
    change "0O" with (String "0" (String "O" "")).
    change "0b" with (String "0" (String "b" "")).
    change "0B" with (String "0" (String "B" "")).
    rewrite !Hpre; [reflexivity | ..]; intros d Hd;
      destruct (digit_facts d Hd)
        as (_ & _ & _ & _ & _ & _ & _ & _ & _ & _ & _ & Hx' & HX' & Ho' & HO' & Hb' & HB' & _);
      assumption.
Qed.

Lemma processValue_signed_digits (neg : bool) (s : string) :
  s ≠ "" ->
  allChars isDigit s = true ->
  processValue ((if neg then "-" else "") ++ s) = VNumber (ofInteger neg (valueOf 0 s)).
Proof.
  intros Hne Hs. unfold processValue.
  destruct s as [|c r]; [congruence |].
  pose proof Hs as Hs'. cbn [allChars] in Hs'. apply andb_true_iff in Hs' as [Hc Hr].
  destruct (digit_facts c Hc)
    as (_ & Hup & Hw & _ & _ & _ & _ & Hm & Hp & HN & _ & _ & _ & _ & _ & _ & _ & Hq & Hdq).
  assert (Hnull : String.eqb (toUpperCase ((if neg then "-" else "") ++ String c r)) "NULL"
                  = false).
  { destruct neg; [reflexivity |]. change ("" ++ String c r) with (String c r).
    cbn [toUpperCase String.eqb]. now rewrite Hup, HN. }
  assert (Hquote : forall q : ascii, Ascii.eqb q "-" = false -> Ascii.eqb q c = false ->
             startsWith ((if neg then "-" else "") ++ String c r) (String q "") = false).
  { intros q Hq1 Hq2. destruct neg.
    - change ("-" ++ String c r) with (String "-" (String c r)). cbn [startsWith].
      now rewrite Hq1.
    - change ("" ++ String c r) with (String c r). cbn [startsWith]. now rewrite Hq2. }
  change "'" with (String squote "").
  rewrite Hnull, (Hquote squote eq_refl Hq), (Hquote dquote eq_refl Hdq). cbn [andb orb].
  unfold isNaN. rewrite (toNumber_digits neg (String c r) Hne Hs), ofInteger_not_nan.
  assert (Hnonempty : String.eqb ((if neg then "-" else "") ++ String c r) "" = false)
    by now destruct neg.
  rewrite Hnonempty. cbn [negb andb].
  assert (Hdot : includes ((if neg then "-" else "") ++ String c r) "." = false).
  { destruct neg; [| exact (includes_digits (String c r) Hs)].
    change (includes ("-" ++ String c r) ".")
      with (startsWith (String "-" (String c r)) "." || includes (String c r) ".").
    rewrite (includes_digits (String c r) Hs). reflexivity. }
  rewrite Hdot. f_equal. unfold parseInt10.
  assert (Hsign : sign (trimStart ((if neg then "-" else "") ++ String c r))
                  = (neg, String c r)).
  { destruct neg.
    - reflexivity.
    - change ("" ++ String c r) with (String c r). cbn [trimStart]. rewrite Hw.
      cbn [sign]. now rewrite Hm, Hp. }
  rewrite Hsign, (digits_all (String c r) Hs).
  assert (Hlen : (0 + Z.of_nat (String.length (String c r)) =? 0) = false)
    by (apply Z.eqb_neq; simpl; lia).
  now rewrite Hlen.
Qed.

(** X15. A text made of decimal digits, at least one, is lexed by
    [processValue] as the Number nearest the integer that the digits
    denote, leading zeros or not, and with a minus sign before it as the
    Number nearest the opposite. *)
Theorem processValue_integer (neg : bool) (s : string) :
  s ≠ "" ->
  allChars isDigit s = true ->
  processValue ((if neg then "-" else "") ++ s) = VNumber (ofInteger neg (valueOf 0 s)).
Proof. exact (processValue_signed_digits neg s). Qed.

Lemma processValue_integer_witness :
  processValue "0042" = VNumber (ofInteger false 42)
  /\ processValue "-17" = VNumber (ofInteger true 17).
Proof.
  split.
  - exact (processValue_integer false "0042" ltac:(discriminate) eq_refl).
  - exact (processValue_integer true "17" ltac:(discriminate) eq_refl).
Defined.

(** ** A row of integers *)

Lemma fieldLoop_digits (s : string) :
  allChars isDigit s = true ->
  forall vs cur ins sc,
    fieldLoop (FieldState vs cur ins sc false) s = FieldState vs (cur ++ s) ins sc false.
Proof.
  induction s as [|c s IH]; intros Hs vs cur ins sc.
  - cbn [fieldLoop]. now rewrite append_empty.
  - cbn [allChars] in Hs. apply andb_true_iff in Hs as [Hc Hs].
    destruct (digit_facts c Hc) as (_ & _ & _ & Hq & Hb & Hcomma & _).
    cbn [fieldLoop]. unfold fieldStep. rewrite Hb, Hq, Hcomma. cbn [andb].
    rewrite (IH Hs). now rewrite push_append.
Qed.

Lemma trim_digits (s : string) : allChars isDigit s = true -> trim s = s.
Proof.
  intros Hs. unfold trim.
  assert (Hstart : trimStart s = s).
  { destruct s as [|c r]; [reflexivity |].
    cbn [allChars] in Hs. apply andb_true_iff in Hs as [Hc _].
    destruct (digit_facts c Hc) as (_ & _ & Hw & _). cbn [trimStart]. now rewrite Hw. }
  rewrite Hstart. apply trimEnd_no_space, digits_no_space, Hs.
Qed.

Lemma fieldLoop_integers (fields : list string) :
  fields ≠ [] ->
  Forall (fun s => s ≠ "" /\ allChars isDigit s = true) fields ->
  forall vs,
    fieldFinish (fieldLoop (FieldState vs "" false None false) (String.concat "," fields))
    = (vs ++ map (fun s => VNumber (ofInteger false (valueOf 0 s))) fields)%list.
Proof.
  induction fields as [|f rest IH]; [congruence |]. intros _ Hall vs.
  inversion Hall as [|? ? [Hne Hf] Hrest]; subst.
  assert (Hpv : processValue (trim f) = VNumber (ofInteger false (valueOf 0 f))).
  { rewrite (trim_digits f Hf). exact (processValue_signed_digits false f Hne Hf). }
  destruct rest as [|g rest].
  - cbn [String.concat map]. rewrite (fieldLoop_digits f Hf).
    change ("" ++ f) with f. unfold fieldFinish. cbn [currentValue values].
    rewrite Hpv, (trim_digits f Hf).
    apply String.eqb_neq in Hne. now rewrite Hne.
  - rewrite concat_cons by discriminate.
    rewrite fieldLoop_app, (fieldLoop_digits f Hf). change ("" ++ f) with f.
    change ("," ++ String.concat "," (g :: rest))
      with (String "," (String.concat "," (g :: rest))).
    cbn [fieldLoop]. rewrite fieldStep_comma, Hpv.
    rewrite (IH ltac:(discriminate) Hrest). cbn [map]. now rewrite <- app_assoc.
Qed.

(** X16. A row text made of runs of decimal digits separated by commas
    is split and lexed by [parseValuesComplex] into the Numbers nearest
    the integers that the runs denote, one per run and in their order. *)
Theorem parseValuesComplex_integers (fields : list string) :
  fields ≠ [] ->
  Forall (fun s => s ≠ "" /\ allChars isDigit s = true) fields ->
  parseValuesComplex (String.concat "," fields)
  = map (fun s => VNumber (ofInteger false (valueOf 0 s))) fields.
Proof.
  intros Hne Hall. exact (fieldLoop_integers fields Hne Hall []).
Qed.

Lemma parseValuesComplex_integers_witness :
  parseValuesComplex "12,0,345"
  = [VNumber (ofInteger false 12); VNumber (ofInteger false 0); VNumber (ofInteger false 345)].
Proof.
  apply (parseValuesComplex_integers ["12"; "0"; "345"]); [discriminate |].
  repeat constructor; discriminate.
Defined.

(** ** What stands between quotes *)

Lemma fieldLoop_inside_quotes (content : string) :
  allChars (fun c => negb (Ascii.eqb c squote) && negb (Ascii.eqb c backslash)) content
  = true ->
  forall vs cur,
    fieldLoop (FieldState vs cur true (Some squote) false) content
    = FieldState vs (cur ++ content) true (Some squote) false.
Proof.
  induction content as [|c s IH]; intros H vs cur.
  - cbn [fieldLoop]. now rewrite append_empty.
  - cbn [allChars] in H. apply andb_true_iff in H as [Hc Hs].
    apply andb_true_iff in Hc as [Hq Hb].
    apply negb_true_iff in Hq, Hb.
    cbn [fieldLoop]. unfold fieldStep. rewrite Hb. cbn [negb andb sameChar].
    rewrite Hq.
    assert (Hstep : (if isQuote c && true
                     then FieldState vs (push cur c) true (Some squote) false
                     else if Ascii.eqb c "," && false
                          then FieldState (vs ++ [processValue (trim cur)]) "" true
                                 (Some squote) false
                          else FieldState vs (push cur c) true (Some squote) false)
                    = FieldState vs (push cur c) true (Some squote) false).
    { destruct (isQuote c); [reflexivity |]. now rewrite andb_false_r. }
    rewrite Hstep, (IH Hs). now rewrite push_append.
Qed.

(** X17. A row text that is one field between single quotes, with no
    single quote and no backslash inside (commas, parentheses, double
    quotes and spaces may be there), gives the inside, trimmed, to
    [processValue] as if it stood bare: nothing when the inside is
    blank, else the one value that the lexer makes of it. *)
Theorem parseValuesComplex_quoted_field (content : string) :
  allChars (fun c => negb (Ascii.eqb c squote) && negb (Ascii.eqb c backslash)) content
  = true ->
  parseValuesComplex ("'" ++ content ++ "'")
  = if String.eqb (trim content) "" then [] else [processValue (trim content)].
Proof.
  intros H. unfold parseValuesComplex.
  change ("'" ++ content ++ "'") with (String squote (content ++ String squote "")).
  cbn [fieldLoop].
  change (fieldStep fieldInit squote) with (FieldState [] "" true (Some squote) false).
  rewrite fieldLoop_app, (fieldLoop_inside_quotes content H).
  change ("" ++ content) with content. cbn [fieldLoop].
  change (fieldStep (FieldState [] content true (Some squote) false) squote)
    with (FieldState [] content false None false).
  unfold fieldFinish. cbn [currentValue values].
  now destruct (String.eqb (trim content) "").
Qed.

Lemma parseValuesComplex_quoted_field_witness :
  parseValuesComplex "' a, (b) '" = [VString "a, (b)"].
Proof. exact (parseValuesComplex_quoted_field " a, (b) " eq_refl). Defined.

(** ** Quoted numerals in a row *)

Lemma digits_plain (d : string) :
  allChars isDigit d = true ->
  allChars (fun c => negb (Ascii.eqb c squote) && negb (Ascii.eqb c backslash)) d = true
  /\ allChars (fun c => negb (Ascii.eqb c backslash)) d = true.
Proof.
  induction d as [|c d IH]; [now split |].
  cbn [allChars]. intros H. apply andb_true_iff in H as [Hc Hd].
  destruct (digit_facts c Hc) as (_ & _ & _ & Hq & Hb & _).
  apply orb_false_iff in Hq as [Hq _].
  destruct (IH Hd) as [-> ->]. now rewrite Hq, Hb.
Qed.

Lemma parseValuesComplex_quoted_digits (d : string) :
  d ≠ "" -> allChars isDigit d = true ->
  parseValuesComplex ("'" ++ d ++ "'") = [VNumber (ofInteger false (valueOf 0 d))].
Proof.
  intros Hne Hd. destruct (digits_plain d Hd) as [H _]. unfold parseValuesComplex.
  change ("'" ++ d ++ "'") with (String squote (d ++ String squote "")).
  cbn [fieldLoop].
  change (fieldStep fieldInit squote) with (FieldState [] "" true (Some squote) false).
  rewrite fieldLoop_app, (fieldLoop_inside_quotes d H).
  change ("" ++ d) with d. cbn [fieldLoop].
  change (fieldStep (FieldState [] d true (Some squote) false) squote)
    with (FieldState [] d false None false).
  unfold fieldFinish. cbn [currentValue values].
  rewrite (trim_digits d Hd).
  pose proof (processValue_signed_digits false d Hne Hd) as Hpv.
  change (processValue d = VNumber (ofInteger false (valueOf 0 d))) in Hpv.
  rewrite Hpv. apply String.eqb_neq in Hne. now rewrite Hne.
Qed.

(** C2. The lexer by itself keeps a quoted numeral a string, but no
    field token reaches it in its quotes: [parseValuesComplex] drops the
    quote characters while it scans. In the program every quoted run of
    digits is therefore lexed as the Number that the digits denote (the
    leading zeros of '00501' are lost), and NULL between quotes as null.
    The other literals of the specification come out of a row as it
    says. *)
Theorem quoted_numeral_is_coerced :
  processValue "'42'" = VString "42"
  /\ parseValuesComplex "'42'" = [VNumber (ofInteger false 42)]
  /\ parseValuesComplex "'00501'" = [VNumber (ofInteger false 501)]
  /\ parseValuesComplex "'NULL'" = [VNull]
  /\ parseValuesComplex "NULL,'O\'Brien',42,3.14"
     = [VNull; VString "O'Brien"; VNumber (ofInteger false 42);
        VNumber (ofDecimal false 314 (-2))]
  /\ (forall d, d ≠ "" -> allChars isDigit d = true ->
        processValue ("'" ++ d ++ "'") = VString d
        /\ parseValuesComplex ("'" ++ d ++ "'")
           = [VNumber (ofInteger false (valueOf 0 d))]).
Proof.
  conjuncts; try reflexivity.
  intros d Hne Hd. split.
  - apply processValue_quoted, (digits_plain d Hd).
  - exact (parseValuesComplex_quoted_digits d Hne Hd).
Qed.

Lemma quoted_numeral_is_coerced_witness :
  processValue "'00501'" = VString "00501"
  /\ parseValuesComplex "'00501'" = [VNumber (ofInteger false (valueOf 0 "00501"))].
Proof.
  exact (proj2 (proj2 (proj2 (proj2 (proj2 quoted_numeral_is_coerced)))) "00501"
           ltac:(discriminate) eq_refl).
Defined.

(** ** Asking after creating *)

(** X18. For a source id that is not null, undefined, zero or empty, on
    a mapper that has its listings table, [getOrCreateUUID] (default
    options) does not throw and does not return null, and what it
    returns, a string that is not empty, is what [getUUID] finds for the
    pair right after. *)
Theorem getOrCreateUUID_then_getUUID (e : env) (entity : string) (oldId : sourceId)
    (m : mapper) :
  falsy oldId = false ->
  is_Some (idMappings m !! "listings") ->
  let call := getOrCreateUUID e entity oldId defaults m in
  exists u,
    u ≠ "" /\ call.1 = Return (Some u) /\ getUUID entity oldId call.2 = Some u.
Proof.
  intros Hid Hl call. subst call.
  destruct (getOrCreateUUID_entered e entity oldId m Hid (fun _ => Hl))
    as (u & m' & Hne & Hcall & Hent).
  exists u. rewrite Hcall. cbn [fst snd].
  split; [exact Hne |]. split; [reflexivity |]. now apply getUUID_direct.
Qed.

Lemma getOrCreateUUID_then_getUUID_witness :
  let call := getOrCreateUUID (Env 0 "") "chatrooms" (IdString "c-17") defaults (initial 0) in
  exists u,
    u ≠ "" /\ call.1 = Return (Some u)
    /\ getUUID "chatrooms" (IdString "c-17") call.2 = Some u.
Proof.
  exact (getOrCreateUUID_then_getUUID (Env 0 "") "chatrooms" (IdString "c-17") (initial 0)
           eq_refl (ex_intro _ ∅ eq_refl)).
Defined.

(** ** The batch processor *)

Lemma relativeIndex_inside (len k : Z) :
  0 <= k -> BatchProcessor.relativeIndex len k = Z.min k len.
Proof.
  intros H. unfold BatchProcessor.relativeIndex.
  destruct (Z.ltb_spec k 0); [lia | reflexivity].
Qed.

Lemma slice_take_drop {A : Type} (items : list A) (i b : Z) :
  0 <= i -> 0 < b -> i < Z.of_nat (length items) ->
  BatchProcessor.slice items i (i + b) = take (Z.to_nat b) (drop (Z.to_nat i) items).
Proof.
  intros Hi Hb Hlt. unfold BatchProcessor.slice.
  rewrite !relativeIndex_inside by lia.
  rewrite (Z.min_l i) by lia.
  destruct (Z.le_gt_cases (i + b) (Z.of_nat (length items))) as [Hle | Hgt].
  - rewrite Z.min_l by lia. f_equal. lia.
  - rewrite Z.min_r by lia.
    rewrite !take_ge; [reflexivity | |]; rewrite length_drop; lia.
Qed.

Lemma batchesFrom_done {A : Type} (fuel : nat) (b : Z) (items : list A) (i : Z) :
  Z.of_nat (length items) <= i -> BatchProcessor.batchesFrom fuel b items i = Some [].
Proof.
  intros H. destruct fuel; cbn [BatchProcessor.batchesFrom];
    destruct (Z.ltb_spec i (Z.of_nat (length items))); (lia || reflexivity).
Qed.

Lemma batchesFrom_partition {A : Type} (b : Z) (items : list A) :
  0 < b -> forall (fuel : nat) (i : Z), 0 <= i ->
  (length items - Z.to_nat i <= fuel)%nat ->
  exists bs, BatchProcessor.batchesFrom fuel b items i = Some bs
    /\ concat bs = drop (Z.to_nat i) items
    /\ Forall (fun c => c <> [] /\ Z.of_nat (length c) <= b) bs
    /\ (forall (k : nat) (c : list A), bs !! k = Some c -> (S k < length bs)%nat ->
        Z.of_nat (length c) = b).
Proof.
  intros Hb. induction fuel as [| fuel IH]; intros i Hi Hfuel.
  - exists []. rewrite batchesFrom_done by lia.
    rewrite drop_ge by lia. conjuncts; try reflexivity; [constructor |].
    intros k c Hk. now rewrite lookup_nil in Hk.
  - destruct (Z.le_gt_cases (Z.of_nat (length items)) i) as [Hout | Hin].
    + exists []. rewrite batchesFrom_done by lia.
      rewrite drop_ge by lia. conjuncts; try reflexivity; [constructor |].
      intros k c Hk. now rewrite lookup_nil in Hk.
    + destruct (IH (i + b)) as (bs & Hbs & Hcat & Hall & Hfull); [lia | lia |].
      exists (BatchProcessor.slice items i (i + b) :: bs).
      assert (Hlen : length (BatchProcessor.slice items i (i + b))
                     = Nat.min (Z.to_nat b) (length items - Z.to_nat i)).
      { rewrite slice_take_drop by lia. now rewrite length_take, length_drop. }
      conjuncts.
      * cbn [BatchProcessor.batchesFrom].
        destruct (Z.ltb_spec i (Z.of_nat (length items))); [| lia].
        now rewrite Hbs.
      * cbn [concat]. rewrite Hcat, slice_take_drop by lia.
        replace (Z.to_nat (i + b)) with (Z.to_nat i + Z.to_nat b)%nat by lia.
        rewrite <- drop_drop. apply take_drop.
      * constructor; [| exact Hall]. split.
        -- intros Hnil. rewrite Hnil in Hlen. cbn in Hlen. lia.
        -- lia.
      * intros [| k] c Hk Hmore.
        -- cbn in Hk. injection Hk as <-.
           destruct (Z.le_gt_cases (Z.of_nat (length items)) (i + b)) as [Hlast | Hnext].
           ++ rewrite batchesFrom_done in Hbs by lia. injection Hbs as <-.
              cbn in Hmore. lia.
           ++ lia.
        -- cbn in Hk, Hmore. apply (Hfull k c Hk). lia.
Qed.

Lemma batchesFrom_never_ends {A : Type} (b : Z) (items : list A) :
  b <= 0 -> forall (fuel : nat) (i : Z), i < Z.of_nat (length items) ->
  BatchProcessor.batchesFrom fuel b items i = None.
Proof.
  intros Hb. induction fuel as [| fuel IH]; intros i Hi; cbn [BatchProcessor.batchesFrom];
    destruct (Z.ltb_spec i (Z.of_nat (length items))); try lia; [reflexivity |].
  rewrite IH by lia. reflexivity.
Qed.

(** X19. For a positive batch size the slicing loop of processBatch ends
    (within as many turns as there are items) and cuts the items into
    consecutive batches: put end to end they are the items, in order;
    none is empty; none has more than [batchSize] items, and every one
    but the last has exactly [batchSize]. *)
Theorem batches_partition_items {A : Type} (fuel : nat) (batchSize : Z) (items : list A) :
  0 < batchSize -> (length items <= fuel)%nat ->
  exists batches, BatchProcessor.batchesFrom fuel batchSize items 0 = Some batches
    /\ concat batches = items
    /\ Forall (fun c => c <> [] /\ Z.of_nat (length c) <= batchSize) batches
    /\ (forall (k : nat) (c : list A), batches !! k = Some c ->
        (S k < length batches)%nat -> Z.of_nat (length c) = batchSize).
Proof.
  intros Hb Hfuel.
  destruct (batchesFrom_partition batchSize items Hb fuel 0) as (bs & H1 & H2 & H3 & H4);
    [lia | cbn; lia |].
  exists bs. conjuncts; assumption.
Qed.

Lemma batches_partition_items_witness :
  exists batches, BatchProcessor.batchesFrom 5 2 [10; 20; 30; 40; 50] 0 = Some batches
    /\ concat batches = [10; 20; 30; 40; 50]
    /\ Forall (fun c => c <> [] /\ Z.of_nat (length c) <= 2) batches
    /\ (forall (k : nat) (c : list Z), batches !! k = Some c ->
        (S k < length batches)%nat -> Z.of_nat (length c) = 2).
Proof.
  apply (batches_partition_items 5 2 [10; 20; 30; 40; 50]); [lia | cbn; lia].
Defined.

(** X20. The operations handed to writeBatch of firestore-service.js are
    cut into slices of at most 490 operations (under the limit of 500 of
    a Firestore batch), none of them empty, which put end to end are the
    operations: each operation is in exactly one Firestore batch. *)
Theorem writeBatchSlices_partition {A : Type} (operations : list A) :
  exists slices, BatchProcessor.writeBatchSlices operations = Some slices
    /\ concat slices = operations
    /\ Forall (fun c => c <> [] /\ Z.of_nat (length c) <= 490) slices.
Proof.
  destruct (batchesFrom_partition BatchProcessor.BATCH_LIMIT operations eq_refl
              (length operations) 0) as (bs & H1 & H2 & H3 & _); [lia | cbn; lia |].
  exists bs. conjuncts; assumption.
Qed.

Section ProcessBatchProperties.
Import BatchProcessor.
Context {item data St W : Type}.
Variable processFn : item -> St -> @outcome data * St.
Variable writeBatch : list (@operation data) -> W -> option string * W.

Lemma itemFailures_app (e1 e2 : list (@failure item)) :
  itemFailures (e1 ++ e2) = (itemFailures e1 ++ itemFailures e2)%list.
Proof. apply List.filter_app. Qed.

Lemma writeFailures_app (e1 e2 : list (@failure item)) :
  writeFailures (e1 ++ e2) = (writeFailures e1 ++ writeFailures e2)%list.
Proof. apply List.filter_app. Qed.

Lemma itemFailures_all (e : list (@failure item)) :
  Forall (fun f => isItemFailure f = true) e ->
  itemFailures e = e /\ writeFailures e = [].
Proof.
  induction 1 as [| f e Hf _ [IH1 IH2]]; [now split |].
  unfold itemFailures, writeFailures in *. cbn [List.filter].
  rewrite Hf. cbn [negb]. now rewrite IH1, IH2.
Qed.

Lemma writeFailures_written (message : string) (ops : list (@operation data)) :
  itemFailures (map (writeFailureOf (item := item) message) ops) = []
  /\ writeFailures (map (writeFailureOf (item := item) message) ops)
     = map (writeFailureOf message) ops.
Proof.
  induction ops as [| op ops [IH1 IH2]]; [now split |].
  unfold itemFailures, writeFailures in *. cbn [map List.filter writeFailureOf isItemFailure negb].
  now rewrite IH2.
Qed.

(** One batch, from any accumulators: what it adds to them. *)
Lemma runBatch_adds (c : string) (batch : list item) :
  forall ops errs n s,
  exists o e m s',
    runBatch processFn c batch ops errs n s = ((ops ++ o)%list, (errs ++ e)%list, n + m, s')
    /\ runBatch processFn c batch [] [] 0 s = (o, e, m, s')
    /\ Forall (fun f => isItemFailure f = true) e
    /\ 0 <= m /\ m + Z.of_nat (length e) = Z.of_nat (length batch).
Proof.
  induction batch as [| i rest IH]; intros ops errs n s.
  - exists [], [], 0, s. cbn [runBatch]. rewrite !app_nil_r, Z.add_0_r.
    conjuncts; first [reflexivity | lia | constructor].
  - cbn [runBatch]. destruct (processFn i s) as [[r | message] s1].
    + destruct (IH (ops ++ operationsOf c r)%list errs (n + 1) s1)
        as (o & e & m & s' & H1 & H2 & H3 & H4 & H5).
      destruct (IH ([] ++ operationsOf c r)%list [] (0 + 1) s1)
        as (o' & e' & m' & s'' & H1' & H2' & _).
      rewrite H2' in H2. injection H2 as -> -> -> ->.
      exists (operationsOf c r ++ o)%list, e, (1 + m), s'.
      rewrite H1, H1'. conjuncts.
      * now rewrite <- (app_assoc ops), Z.add_assoc.
      * reflexivity.
      * exact H3.
      * lia.
      * cbn [length]. lia.
    + destruct (IH ops (errs ++ [ItemFailure i message])%list n s1)
        as (o & e & m & s' & H1 & H2 & H3 & H4 & H5).
      destruct (IH [] ([] ++ [ItemFailure i message])%list 0 s1)
        as (o' & e' & m' & s'' & H1' & H2' & _).
      rewrite H2' in H2. injection H2 as -> -> -> ->.
      exists o, (ItemFailure i message :: e), m, s'.
      rewrite H1, H1'. conjuncts.
      * now rewrite <- (app_assoc errs).
      * reflexivity.
      * constructor; [reflexivity | exact H3].
      * lia.
      * cbn [length]. lia.
Qed.

(** The batches one after the other are the items in one run. *)
Lemma runBatch_app (c : string) (b1 b2 : list item) :
  forall ops errs n s,
  runBatch processFn c (b1 ++ b2) ops errs n s
  = let '(o, e, m, s1) := runBatch processFn c b1 ops errs n s in
    runBatch processFn c b2 o e m s1.
Proof.
  induction b1 as [| i rest IH]; intros ops errs n s; [reflexivity |].
  cbn [app runBatch]. destruct (processFn i s) as [[r | message] s1]; apply IH.
Qed.

Lemma runBatches_spec (opts : options) :
  forall bs ops errs n s w r s' w',
  runBatches processFn writeBatch opts bs ops errs n s w = (r, s', w') ->
  exists o e m,
    runBatch processFn (collection opts) (concat bs) [] [] 0 s = (o, e, m, s')
    /\ operations r = (ops ++ o)%list
    /\ itemFailures (errors r) = (itemFailures errs ++ e)%list
    /\ processedCount r = n + m
    /\ operationsCount r = Z.of_nat (length (operations r)).
Proof.
  induction bs as [| batch rest IH]; intros ops errs n s w r s' w' Hrun.
  - cbn [runBatches] in Hrun. injection Hrun as <- <- <-.
    exists [], [], 0. cbn [concat runBatch operations errors processedCount operationsCount].
    rewrite !app_nil_r, Z.add_0_r. conjuncts; reflexivity.
  - cbn [runBatches concat] in *.
    destruct (runBatch_adds (collection opts) batch [] errs n s)
      as (o1 & e1 & m1 & s1 & H1 & H2 & H3 & H4 & H5).
    rewrite H1 in Hrun. cbn [app] in Hrun.
    rewrite runBatch_app, H2.
    destruct (runBatch_adds (collection opts) (concat rest) o1 e1 m1 s1)
      as (o2 & e2 & m2 & s2 & G1 & G2 & G3 & G4 & G5).
    rewrite G1.
    destruct (itemFailures_all e1 H3) as [He1 _].
    assert (Hrest : forall errs' w1,
      itemFailures errs' = (itemFailures errs ++ e1)%list ->
      runBatches processFn writeBatch opts rest (ops ++ o1)%list errs' (n + m1) s1 w1
        = (r, s', w') ->
      exists o e m,
        ((o1 ++ o2)%list, (e1 ++ e2)%list, m1 + m2, s2) = (o, e, m, s')
        /\ operations r = (ops ++ o)%list
        /\ itemFailures (errors r) = (itemFailures errs ++ e)%list
        /\ processedCount r = n + m
        /\ operationsCount r = Z.of_nat (length (operations r))).
    { intros errs' w1 Herrs' Hrec.
      destruct (IH _ _ _ _ _ _ _ _ Hrec) as (o & e & m & K1 & K2 & K3 & K4 & K5).
      rewrite G2 in K1. injection K1 as <- <- <- <-.
      exists (o1 ++ o2)%list, (e1 ++ e2)%list, (m1 + m2).
      conjuncts; try reflexivity.
      - now rewrite K2, app_assoc.
      - now rewrite K3, Herrs', app_assoc.
      - lia.
      - exact K5. }
    destruct ((0 <? length o1)%nat && negb (dryRun opts)).
    + destruct (writeBatch o1 w) as [[message |] w1].
      * refine (Hrest _ w1 _ Hrun).
        rewrite !itemFailures_app, He1.
        change (map _ o1) with (map (writeFailureOf (item := item) message) o1).
        destruct (writeFailures_written message o1) as [-> _].
        now rewrite app_nil_r.
      * refine (Hrest _ w1 _ Hrun). now rewrite itemFailures_app, He1.
    + refine (Hrest _ w _ Hrun). now rewrite itemFailures_app, He1.
Qed.

Lemma runBatches_dryRun (opts : options) :
  dryRun opts = true ->
  forall bs ops errs n s w r s' w',
  runBatches processFn writeBatch opts bs ops errs n s w = (r, s', w') ->
  w' = w /\ writeFailures (errors r) = writeFailures errs.
Proof.
  intros Hdry. induction bs as [| batch rest IH]; intros ops errs n s w r s' w' Hrun.
  - cbn [runBatches] in Hrun. injection Hrun as <- <- <-. now split.
  - cbn [runBatches] in Hrun.
    destruct (runBatch_adds (collection opts) batch [] errs n s)
      as (o1 & e1 & m1 & s1 & H1 & _ & H3 & _).
    rewrite H1, Hdry, andb_false_r in Hrun.
    destruct (IH _ _ _ _ _ _ _ _ Hrun) as [-> ->].
    split; [reflexivity |].
    rewrite writeFailures_app. destruct (itemFailures_all e1 H3) as [_ ->].
    apply app_nil_r.
Qed.

Lemma runBatches_recording (opts : options) :
  dryRun opts = false ->
  forall bs ops errs n s log w r s' w',
  runBatches processFn writeBatch opts bs ops errs n s w = (r, s', w') ->
  exists written,
    runBatches processFn (recording writeBatch) opts bs ops errs n s (log, w)
      = (r, s', ((log ++ written)%list, w'))
    /\ operations r = (ops ++ concat written)%list
    /\ Forall (fun c => c <> []) written.
Proof.
  intros Hwet. induction bs as [| batch rest IH]; intros ops errs n s log w r s' w' Hrun.
  - cbn [runBatches] in *. injection Hrun as <- <- <-.
    exists []. rewrite !app_nil_r. conjuncts; [reflexivity | reflexivity | constructor].
  - cbn [runBatches] in *.
    destruct (runBatch processFn (collection opts) batch [] errs n s)
      as [[[o1 e1] m1] s1].
    rewrite Hwet in *. cbn [negb] in *. rewrite andb_true_r in *.
    destruct o1 as [| op o1].
    + cbn [length Nat.ltb Nat.leb] in *.
      destruct (IH _ _ _ _ log _ _ _ _ Hrun) as (written & K1 & K2 & K3).
      exists written. rewrite app_nil_r in *. conjuncts; assumption.
    + cbn [length Nat.ltb Nat.leb] in *.
      unfold recording at 1. cbn [fst snd].
      destruct (writeBatch (op :: o1) w) as [[message |] w1];
        destruct (IH _ _ _ _ (log ++ [op :: o1])%list _ _ _ _ Hrun)
          as (written & K1 & K2 & K3);
        exists ((op :: o1) :: written);
        (conjuncts;
         [ rewrite K1; now rewrite <- app_assoc
         | rewrite K2; cbn [concat]; now rewrite app_assoc
         | constructor; [discriminate | exact K3] ]).
Qed.

Lemma runBatches_rejected (opts : options) (message : string) :
  dryRun opts = false ->
  (forall ops w, (writeBatch ops w).1 = Some message) ->
  forall bs ops errs n s w r s' w',
  runBatches processFn writeBatch opts bs ops errs n s w = (r, s', w') ->
  exists o,
    operations r = (ops ++ o)%list
    /\ writeFailures (errors r)
       = (writeFailures errs ++ map (writeFailureOf message) o)%list.
Proof.
  intros Hwet Hrej. induction bs as [| batch rest IH]; intros ops errs n s w r s' w' Hrun.
  - cbn [runBatches] in *. injection Hrun as <- <- <-.
    exists []. cbn [map]. now rewrite !app_nil_r.
  - cbn [runBatches] in *.
    destruct (runBatch_adds (collection opts) batch [] errs n s)
      as (o1 & e1 & m1 & s1 & H1 & _ & H3 & _).
    rewrite H1 in Hrun. cbn [app] in Hrun.
    destruct (itemFailures_all e1 H3) as [_ He1].
    rewrite Hwet in Hrun. cbn [negb] in Hrun. rewrite andb_true_r in Hrun.
    destruct o1 as [| op o1].
    + cbn [length Nat.ltb Nat.leb] in Hrun.
      destruct (IH _ _ _ _ _ _ _ _ Hrun) as (o & K1 & K2).
      exists o. rewrite app_nil_r in K1. split; [exact K1 |].
      now rewrite K2, writeFailures_app, He1, app_nil_r.
    + cbn [length Nat.ltb Nat.leb] in Hrun.
      pose proof (Hrej (op :: o1) w) as Hw.
      destruct (writeBatch (op :: o1) w) as [[m |] w1]; cbn [fst] in Hw; [| discriminate].
      injection Hw as ->.
      destruct (IH _ _ _ _ _ _ _ _ Hrun) as (o & K1 & K2).
      exists ((op :: o1) ++ o)%list. split; [now rewrite K1, app_assoc |].
      rewrite K2, !writeFailures_app, He1, app_nil_r.
      change (map _ (op :: o1)) with (map (writeFailureOf (item := item) message) (op :: o1)).
      destruct (writeFailures_written message (op :: o1)) as [_ ->].
      now rewrite map_app, app_assoc.
Qed.

End ProcessBatchProperties.

Lemma batchesFrom_sound {A : Type} (b : Z) (items : list A) :
  0 < b -> forall (fuel : nat) (i : Z) (bs : list (list A)), 0 <= i ->
  BatchProcessor.batchesFrom fuel b items i = Some bs ->
  concat bs = drop (Z.to_nat i) items.
Proof.
  intros Hb. induction fuel as [| fuel IH]; intros i bs Hi Hbs;
    cbn [BatchProcessor.batchesFrom] in Hbs;
    destruct (Z.ltb_spec i (Z.of_nat (length items))) as [Hin | Hout];
    try discriminate;
    try (injection Hbs as <-; rewrite drop_ge by lia; reflexivity).
  destruct (BatchProcessor.batchesFrom fuel b items (i + b)) as [rest |] eqn:Hrest;
    [| discriminate].
  injection Hbs as <-. cbn [concat].
  rewrite (IH (i + b) rest ltac:(lia) Hrest), slice_take_drop by lia.
  replace (Z.to_nat (i + b)) with (Z.to_nat i + Z.to_nat b)%nat by lia.
  rewrite <- drop_drop. apply take_drop.
Qed.

Section ProcessBatchTheorems.
Import BatchProcessor.
Context {item data St W : Type}.
Variable processFn : item -> St -> @outcome data * St.
Variable writeBatch : list (@operation data) -> W -> option string * W.

(** X21. With a batch size that is zero or negative and at least one
    item, processBatch returns nothing: the loop that cuts the items into
    batches never ends, whatever the number of its turns. *)
Theorem processBatch_nonpositive_batchSize (items : list item) (opts : options)
    (s : St) (w : W) :
  batchSize opts <= 0 -> items <> [] ->
  forall fuel : nat, processBatch processFn writeBatch fuel (Some items) opts s w = None.
Proof.
  intros Hb Hne fuel. destruct items as [| i items]; [contradiction |].
  cbn [processBatch].
  rewrite batchesFrom_never_ends; [reflexivity | exact Hb | cbn [length]; lia].
Qed.

(** X22. With a positive batch size processBatch returns, and the batch
    size has no part in what it returns but the write failures: the
    operations, the item failures (in order), the processed count and the
    state that processFn works on are those of processFn applied to the
    items one after the other in one run, whether or not writeBatch
    rejected a batch; operationsCount is the number of operations. *)
Theorem processBatch_one_run (fuel : nat) (items : list item) (opts : options)
    (s : St) (w : W) :
  0 < batchSize opts -> (length items <= fuel)%nat ->
  exists r s' w',
    processBatch processFn writeBatch fuel (Some items) opts s w = Some (r, s', w')
    /\ runBatch processFn (collection opts) items [] [] 0 s
       = (operations r, itemFailures (errors r), processedCount r, s')
    /\ operationsCount r = Z.of_nat (length (operations r)).
Proof.
  intros Hb Hfuel. destruct items as [| i items].
  - exists (Result 0 0 [] []), s, w. now conjuncts.
  - cbn [processBatch].
    destruct (batchesFrom_partition (batchSize opts) (i :: items) Hb fuel 0)
      as (bs & Hbs & Hcat & _); [lia | cbn [length] in *; lia |].
    rewrite Hbs.
    destruct (runBatches processFn writeBatch opts bs [] [] 0 s w) as [[r s'] w'] eqn:Hrun.
    destruct (runBatches_spec processFn writeBatch opts _ _ _ _ _ _ _ _ _ Hrun)
      as (o & e & m & K1 & K2 & K3 & K4 & K5).
    exists r, s', w'. rewrite Hcat in K1.
    change (drop (Z.to_nat 0) (i :: items)) with (i :: items) in K1.
    cbn [app] in K2. cbn [itemFailures List.filter app] in K3. cbn in K4.
    conjuncts; [reflexivity | | exact K5].
    now rewrite K1, K2, K3, K4.
Qed.

(** X23. Every item is accounted for once: in what processBatch returns,
    the processed count (which is not negative) plus the number of item
    failures is the number of items. An item whose processFn resolved
    counts as processed also when it gave no operation or when the write
    of its batch was rejected. *)
Theorem processBatch_accounts_for_items (fuel : nat) (items : list item) (opts : options)
    (s : St) (w : W) (r : result) (s' : St) (w' : W) :
  processBatch processFn writeBatch fuel (Some items) opts s w = Some (r, s', w') ->
  0 <= processedCount r
  /\ processedCount r + Z.of_nat (length (itemFailures (errors r)))
     = Z.of_nat (length items).
Proof.
  intros Hrun. destruct items as [| i items].
  - cbn [processBatch] in Hrun. injection Hrun as <- <- <-. cbn. lia.
  - cbn [processBatch] in Hrun.
    destruct (Z.le_gt_cases (batchSize opts) 0) as [Hb | Hb].
    { rewrite batchesFrom_never_ends in Hrun; [discriminate | exact Hb | cbn [length]; lia]. }
    destruct (batchesFrom fuel (batchSize opts) (i :: items) 0) as [bs |] eqn:Hbs;
      [| discriminate].
    injection Hrun as Hrun.
    pose proof (batchesFrom_sound (batchSize opts) (i :: items) ltac:(lia) fuel 0 bs
                  ltac:(lia) Hbs) as Hcat.
    change (drop (Z.to_nat 0) (i :: items)) with (i :: items) in Hcat.
    destruct (runBatches_spec processFn writeBatch opts _ _ _ _ _ _ _ _ _ Hrun)
      as (o & e & m & K1 & _ & K3 & K4 & _).
    rewrite Hcat in K1.
    destruct (runBatch_adds processFn (collection opts) (i :: items) [] [] 0 s)
      as (o' & e' & m' & s'' & _ & G2 & _ & G4 & G5).
    rewrite G2 in K1. injection K1 as -> -> -> ->.
    cbn [itemFailures List.filter app] in K3. rewrite K3, K4. lia.
Qed.

(** X24. A dry run writes nothing: processBatch with dryRun leaves the
    store as it was (writeBatch is not called), and every entry of the
    errors it returns is an item failure. *)
Theorem processBatch_dryRun_writes_nothing (fuel : nat) (items : option (list item))
    (opts : options) (s : St) (w : W) (r : result) (s' : St) (w' : W) :
  dryRun opts = true ->
  processBatch processFn writeBatch fuel items opts s w = Some (r, s', w') ->
  w' = w /\ writeFailures (errors r) = [].
Proof.
  intros Hdry Hrun.
  destruct items as [[| i items] |]; cbn [processBatch] in Hrun;
    try (injection Hrun as <- <- <-; now split).
  destruct (batchesFrom fuel (batchSize opts) (i :: items) 0) as [bs |]; [| discriminate].
  injection Hrun as Hrun.
  exact (runBatches_dryRun processFn writeBatch opts Hdry _ _ _ _ _ _ _ _ _ Hrun).
Qed.

(** X25. Without dryRun, every operation that processBatch returns was
    handed to writeBatch exactly once and in order: the arrays that
    writeBatch was called with, put end to end, are the returned
    operations, and writeBatch is never called with an empty array.
    Keeping the record of the calls changes nothing else. *)
Theorem processBatch_writes_operations_once (fuel : nat) (items : option (list item))
    (opts : options) (s : St) (w : W) (r : result) (s' : St) (w' : W) :
  dryRun opts = false ->
  processBatch processFn writeBatch fuel items opts s w = Some (r, s', w') ->
  exists written,
    processBatch processFn (recording writeBatch) fuel items opts s ([], w)
      = Some (r, s', (written, w'))
    /\ concat written = operations r
    /\ Forall (fun c => c <> []) written.
Proof.
  intros Hwet Hrun.
  destruct items as [[| i items] |]; cbn [processBatch] in *;
    try (injection Hrun as <- <- <-; exists []; conjuncts;
         [reflexivity | reflexivity | constructor]).
  destruct (batchesFrom fuel (batchSize opts) (i :: items) 0) as [bs |]; [| discriminate].
  injection Hrun as Hrun.
  destruct (runBatches_recording processFn writeBatch opts Hwet _ _ _ _ _ [] _ _ _ _ Hrun)
    as (written & K1 & K2 & K3).
  exists written. cbn [app] in K1, K2. rewrite K1. now conjuncts.
Qed.

(** X26. When writeBatch rejects every call (with one message) and
    dryRun is off, the errors that processBatch returns hold one write
    failure for each returned operation, in order, with the operation's
    collection and document id and the message. *)
Theorem processBatch_rejected_writes_reported (message : string) (fuel : nat)
    (items : option (list item)) (opts : options) (s : St) (w : W)
    (r : result) (s' : St) (w' : W) :
  dryRun opts = false ->
  (forall ops w0, (writeBatch ops w0).1 = Some message) ->
  processBatch processFn writeBatch fuel items opts s w = Some (r, s', w') ->
  writeFailures (errors r) = map (writeFailureOf message) (operations r).
Proof.
  intros Hwet Hrej Hrun.
  destruct items as [[| i items] |]; cbn [processBatch] in *;
    try (injection Hrun as <- <- <-; reflexivity).
  destruct (batchesFrom fuel (batchSize opts) (i :: items) 0) as [bs |]; [| discriminate].
  injection Hrun as Hrun.
  destruct (runBatches_rejected processFn writeBatch opts message Hwet Hrej
              _ _ _ _ _ _ _ _ _ Hrun) as (o & K1 & K2).
  cbn [app] in K1. rewrite K1, K2. reflexivity.
Qed.

End ProcessBatchTheorems.

Lemma processBatch_nonpositive_batchSize_witness :
  let processFn := fun (i : Z) (s : Z) =>
    (BatchProcessor.Resolved (BatchProcessor.Document "" "doc" (Some i)), s + 1) in
  let writeBatch := fun (ops : list (BatchProcessor.operation (data := Z))) (w : nat) =>
    (@None string, (w + length ops)%nat) in
  BatchProcessor.processBatch processFn writeBatch 1000 (Some [1; 2; 3])
    (BatchProcessor.Options 0 "chatrooms" false) 0 0%nat = None.
Proof.
  cbv zeta.
  refine (processBatch_nonpositive_batchSize
           (fun (i : Z) (s : Z) =>
              (BatchProcessor.Resolved (BatchProcessor.Document "" "doc" (Some i)), s + 1))
           (fun (ops : list (BatchProcessor.operation (data := Z))) (w : nat) =>
              (@None string, (w + length ops)%nat))
           [1; 2; 3] (BatchProcessor.Options 0 "chatrooms" false) 0 0%nat _ _ 1000%nat);
    [cbn; lia | discriminate].
Defined.

Lemma processBatch_one_run_witness :
  let processFn := fun (i : Z) (s : Z) =>
    if i =? 0 then (BatchProcessor.Rejected (data := Z) "no id", s)
    else (BatchProcessor.Resolved (BatchProcessor.Document "" "doc" (Some i)), s + 1) in
  let writeBatch := fun (ops : list (BatchProcessor.operation (data := Z))) (w : nat) =>
    (Some "unavailable", w) in
  let opts := BatchProcessor.Options 2 "chatrooms" false in
  exists r s' w',
    BatchProcessor.processBatch processFn writeBatch 5 (Some [1; 0; 2; 3; 4]) opts 0 0%nat
      = Some (r, s', w')
    /\ BatchProcessor.runBatch processFn (BatchProcessor.collection opts) [1; 0; 2; 3; 4]
         [] [] 0 0
       = (BatchProcessor.operations r, BatchProcessor.itemFailures (BatchProcessor.errors r),
          BatchProcessor.processedCount r, s')
    /\ BatchProcessor.operationsCount r = Z.of_nat (length (BatchProcessor.operations r)).
Proof.
  cbv zeta.
  apply (processBatch_one_run
           (fun (i : Z) (s : Z) =>
              if i =? 0 then (BatchProcessor.Rejected (data := Z) "no id", s)
              else (BatchProcessor.Resolved (BatchProcessor.Document "" "doc" (Some i)), s + 1))
           (fun (ops : list (BatchProcessor.operation (data := Z))) (w : nat) =>
              (Some "unavailable", w))
           5 [1; 0; 2; 3; 4] (BatchProcessor.Options 2 "chatrooms" false) 0 0%nat);
    [cbn; lia | cbn; lia].
Defined.

Lemma processBatch_accounts_for_items_witness :
  let processFn := fun (i : Z) (s : Z) =>
    if i =? 0 then (BatchProcessor.Rejected (data := Z) "no id", s)
    else (BatchProcessor.Resolved (BatchProcessor.Document "" "doc" (Some i)), s + 1) in
  let writeBatch := fun (ops : list (BatchProcessor.operation (data := Z))) (w : nat) =>
    (Some "unavailable", w) in
  exists r s' w',
    BatchProcessor.processBatch processFn writeBatch 5 (Some [1; 0; 2; 3; 4])
      (BatchProcessor.Options 2 "chatrooms" false) 0 0%nat = Some (r, s', w')
    /\ 0 <= BatchProcessor.processedCount r
    /\ BatchProcessor.processedCount r
       + Z.of_nat (length (BatchProcessor.itemFailures (BatchProcessor.errors r)))
       = Z.of_nat (length [1; 0; 2; 3; 4]).
Proof.
  cbv zeta. eexists _, _, _. split; [vm_compute; reflexivity |].
  eapply (processBatch_accounts_for_items
           (fun (i : Z) (s : Z) =>
              if i =? 0 then (BatchProcessor.Rejected (data := Z) "no id", s)
              else (BatchProcessor.Resolved (BatchProcessor.Document "" "doc" (Some i)), s + 1))
           (fun (ops : list (BatchProcessor.operation (data := Z))) (w : nat) =>
              (Some "unavailable", w))
           5 [1; 0; 2; 3; 4] (BatchProcessor.Options 2 "chatrooms" false) 0 0%nat).
  vm_compute; reflexivity.
Defined.

Lemma processBatch_dryRun_writes_nothing_witness :
  let processFn := fun (i : Z) (s : Z) =>
    if i =? 0 then (BatchProcessor.Rejected (data := Z) "no id", s)
    else (BatchProcessor.Resolved (BatchProcessor.Document "" "doc" (Some i)), s + 1) in
  let writeBatch := fun (ops : list (BatchProcessor.operation (data := Z))) (w : nat) =>
    (Some "unavailable", (w + length ops)%nat) in
  exists r s' w',
    BatchProcessor.processBatch processFn writeBatch 5 (Some [1; 0; 2; 3; 4])
      (BatchProcessor.Options 2 "chatrooms" true) 0 0%nat = Some (r, s', w')
    /\ w' = 0%nat
    /\ BatchProcessor.writeFailures (BatchProcessor.errors r) = [].
Proof.
  cbv zeta. eexists _, _, _. split; [vm_compute; reflexivity |].
  eapply (processBatch_dryRun_writes_nothing
           (fun (i : Z) (s : Z) =>
              if i =? 0 then (BatchProcessor.Rejected (data := Z) "no id", s)
              else (BatchProcessor.Resolved (BatchProcessor.Document "" "doc" (Some i)), s + 1))
           (fun (ops : list (BatchProcessor.operation (data := Z))) (w : nat) =>
              (Some "unavailable", (w + length ops)%nat))
           5 (Some [1; 0; 2; 3; 4]) (BatchProcessor.Options 2 "chatrooms" true) 0 0%nat);
    [reflexivity | vm_compute; reflexivity].
Defined.

Lemma processBatch_writes_operations_once_witness :
  let processFn := fun (i : Z) (s : Z) =>
    if i =? 0 then (BatchProcessor.Rejected (data := Z) "no id", s)
    else (BatchProcessor.Resolved (BatchProcessor.Document "" "doc" (Some i)), s + 1) in
  let writeBatch := fun (ops : list (BatchProcessor.operation (data := Z))) (w : nat) =>
    (@None string, (w + length ops)%nat) in
  let opts := BatchProcessor.Options 2 "chatrooms" false in
  exists r s' w' written,
    BatchProcessor.processBatch processFn writeBatch 5 (Some [1; 0; 2; 3; 4]) opts 0 0%nat
      = Some (r, s', w')
    /\ BatchProcessor.processBatch processFn (BatchProcessor.recording writeBatch) 5
         (Some [1; 0; 2; 3; 4]) opts 0 ([], 0%nat) = Some (r, s', (written, w'))
    /\ concat written = BatchProcessor.operations r
    /\ Forall (fun c => c <> []) written.
Proof.
  cbv zeta.
  pose proof (processBatch_writes_operations_once
           (fun (i : Z) (s : Z) =>
              if i =? 0 then (BatchProcessor.Rejected (data := Z) "no id", s)
              else (BatchProcessor.Resolved (BatchProcessor.Document "" "doc" (Some i)), s + 1))
           (fun (ops : list (BatchProcessor.operation (data := Z))) (w : nat) =>
              (@None string, (w + length ops)%nat))
           5 (Some [1; 0; 2; 3; 4]) (BatchProcessor.Options 2 "chatrooms" false) 0 0%nat
           _ _ _ eq_refl eq_refl) as [written Hw].
  eexists _, _, _, written. split; [reflexivity | exact Hw].
Defined.

Lemma processBatch_rejected_writes_reported_witness :
  let processFn := fun (i : Z) (s : Z) =>
    if i =? 0 then (BatchProcessor.Rejected (data := Z) "no id", s)
    else (BatchProcessor.Resolved (BatchProcessor.Document "" "doc" (Some i)), s + 1) in
  let writeBatch := fun (ops : list (BatchProcessor.operation (data := Z))) (w : nat) =>
    (Some "unavailable", w) in
  exists r s' w',
    BatchProcessor.processBatch processFn writeBatch 5 (Some [1; 0; 2; 3; 4])
      (BatchProcessor.Options 2 "chatrooms" false) 0 0%nat = Some (r, s', w')
    /\ BatchProcessor.writeFailures (BatchProcessor.errors r)
       = map (BatchProcessor.writeFailureOf "unavailable") (BatchProcessor.operations r).
Proof.
  cbv zeta. eexists _, _, _. split; [vm_compute; reflexivity |].
  eapply (processBatch_rejected_writes_reported
           (fun (i : Z) (s : Z) =>
              if i =? 0 then (BatchProcessor.Rejected (data := Z) "no id", s)
              else (BatchProcessor.Resolved (BatchProcessor.Document "" "doc" (Some i)), s + 1))
           (fun (ops : list (BatchProcessor.operation (data := Z))) (w : nat) =>
              (Some "unavailable", w))
           "unavailable" 5 (Some [1; 0; 2; 3; 4])
           (BatchProcessor.Options 2 "chatrooms" false) 0 0%nat);
    [reflexivity | reflexivity | vm_compute; reflexivity].
Defined.

(** ** The reader of migration-transformer.js *)

Section MigrationTransformerProperties.
Import MigrationTransformer.

Lemma rowLoop_app (r t : string) (st : rowState) :
  rowLoop st (r ++ t) = rowLoop (rowLoop st r) t.
Proof. revert st. induction r as [|c r IH]; intros st; [reflexivity | apply IH]. Qed.

Lemma splitLoop_app (r t : string) (st : splitState) :
  splitLoop st (r ++ t) = splitLoop (splitLoop st r) t.
Proof. revert st. induction r as [|c r IH]; intros st; [reflexivity | apply IH]. Qed.

Lemma quoteAt_other (previous : option ascii) (c : ascii) :
  Ascii.eqb c squote = false -> quoteAt previous c = false.
Proof. intros H. unfold quoteAt. now rewrite H. Qed.

Lemma parseValue_digits (s : string) :
  s ≠ "" -> allChars isDigit s = true ->
  parseValue s = Num (ofInteger false (valueOf 0 s)).
Proof.
  intros Hne Hs. unfold parseValue.
  pose proof (toNumber_digits false s Hne Hs) as Hnum.
  change (toNumber s = ofInteger false (valueOf 0 s)) in Hnum.
  destruct s as [|c r]; [congruence |].
  pose proof Hs as Hs'. cbn [allChars] in Hs'. apply andb_true_iff in Hs' as [Hc Hr].
  destruct (digit_facts c Hc)
    as (_ & Hup & _ & _ & _ & _ & _ & _ & _ & HN & _ & _ & _ & _ & _ & _ & _ & Hq & _).
  assert (Hnull : String.eqb (toUpperCase (String c r)) "NULL" = false).
  { cbn [toUpperCase String.eqb]. now rewrite Hup, HN. }
  assert (Hquote : startsWith (String c r) "'" = false).
  { change "'" with (String squote ""). cbn [startsWith]. 
    change squote with "'"%char. now rewrite Hq. }
  rewrite Hnull, Hquote. cbn [andb].
  unfold isNaN. rewrite Hnum, ofInteger_not_nan. reflexivity.
Qed.

Lemma rowLoop_digits (s : string) :
  allChars isDigit s = true ->
  forall vs cur ins prev,
  exists prev',
    rowLoop (RowState vs cur ins prev) s = RowState vs (cur ++ s) ins prev'.
Proof.
  induction s as [|c s IH]; intros Hs vs cur ins prev.
  - exists prev. cbn [rowLoop]. now rewrite append_empty.
  - cbn [allChars] in Hs. apply andb_true_iff in Hs as [Hc Hs].
    destruct (digit_facts c Hc) as (_ & _ & _ & Hq & _ & Hcomma & _).
    apply orb_false_iff in Hq as [Hq _].
    cbn [rowLoop]. unfold rowStep. cbn [previous values current inString].
    rewrite (quoteAt_other prev c Hq), Hcomma. cbn [andb].
    destruct (IH Hs vs (push cur c) ins (Some c)) as [prev' ->].
    exists prev'. now rewrite push_append.
Qed.

Lemma rowLoop_integers (fields : list string) :
  fields ≠ [] ->
  Forall (fun s => s ≠ "" /\ allChars isDigit s = true) fields ->
  forall vs prev,
  exists prev' last,
    rowLoop (RowState vs "" false prev) (String.concat "," fields)
    = RowState (vs ++ map (fun s => Num (ofInteger false (valueOf 0 s))) (removelast fields))
        last false prev'
    /\ List.last fields "" = last.
Proof.
  induction fields as [|f rest IH]; [congruence |]. intros _ Hall vs prev.
  inversion Hall as [|? ? [Hne Hf] Hrest]; subst.
  destruct rest as [|g rest].
  - cbn [String.concat map removelast List.last].
    destruct (rowLoop_digits f Hf vs "" false prev) as [prev' ->].
    exists prev', f. now rewrite app_nil_r.
  - rewrite concat_cons by discriminate.
    rewrite rowLoop_app.
    destruct (rowLoop_digits f Hf vs "" false prev) as [prev1 ->].
    change ("" ++ f) with f.
    change ("," ++ String.concat "," (g :: rest))
      with (String "," (String.concat "," (g :: rest))).
    cbn [rowLoop].
    assert (Hstep : rowStep (RowState vs f false prev1) ","
                    = RowState (vs ++ [parseValue (trim f)]) "" false (Some ","%char)).
    { unfold rowStep. cbn [previous values current inString].
      now rewrite (quoteAt_other prev1 "," eq_refl). }
    rewrite Hstep, (trim_digits f Hf), (parseValue_digits f Hne Hf).
    destruct (IH ltac:(discriminate) Hrest
                (vs ++ [Num (ofInteger false (valueOf 0 f))])%list (Some ","%char))
      as (prev' & last & -> & Hlast).
    exists prev', last. split; [| exact Hlast].
    change (removelast (f :: g :: rest)) with (f :: removelast (g :: rest)).
    cbn [map]. now rewrite <- app_assoc.
Qed.

(** X27. The field scanner of migration-transformer.js agrees with the
    one of sql-dump-parser.js on rows of integers: a row text made of
    runs of decimal digits separated by commas gives the Numbers nearest
    the integers that the runs denote, one per run and in their order. *)
Theorem parseRowValues_integers (fields : list string) :
  fields ≠ [] ->
  Forall (fun s => s ≠ "" /\ allChars isDigit s = true) fields ->
  parseRowValues (String.concat "," fields)
  = map (fun s => Num (ofInteger false (valueOf 0 s))) fields.
Proof.
  intros Hne Hall. unfold parseRowValues, rowInit.
  destruct (rowLoop_integers fields Hne Hall [] None) as (prev' & last & -> & Hlast).
  cbn [current values app].
  assert (Hin : last ≠ "" /\ allChars isDigit last = true).
  { rewrite <- Hlast.
    destruct (exists_last Hne) as (l & y & ->).
    rewrite last_last. apply Forall_app in Hall as [_ Hy]. now inversion Hy. }
  destruct Hin as [Hl Hd].
  rewrite (trim_digits last Hd), (parseValue_digits last Hl Hd).
  apply String.eqb_neq in Hl. rewrite Hl.
  rewrite <- Hlast.
  transitivity (map (fun s => Num (ofInteger false (valueOf 0 s)))
                  (removelast fields ++ [List.last fields ""])).
  - now rewrite map_app.
  - now rewrite <- app_removelast_last.
Qed.

Lemma rowLoop_inside_quotes (content : string) :
  allChars (fun c => negb (Ascii.eqb c squote) && negb (Ascii.eqb c backslash)) content
  = true ->
  forall vs cur prev,
  match prev with Some p => Ascii.eqb p backslash = false | None => True end ->
  exists prev',
    rowLoop (RowState vs cur true prev) content = RowState vs (cur ++ content) true prev'
    /\ match prev' with Some p => Ascii.eqb p backslash = false | None => True end.
Proof.
  induction content as [|c s IH]; intros Hs vs cur prev Hprev.
  - exists prev. cbn [rowLoop]. now rewrite append_empty.
  - cbn [allChars] in Hs. apply andb_true_iff in Hs as [Hc Hs].
    apply andb_true_iff in Hc as [Hq Hb].
    apply negb_true_iff in Hq, Hb.
    cbn [rowLoop]. unfold rowStep. cbn [previous values current inString].
    rewrite (quoteAt_other prev c Hq). cbn [negb]. rewrite andb_false_r.
    destruct (IH Hs vs (push cur c) (Some c) Hb) as (prev' & -> & Hprev').
    exists prev'. now rewrite push_append.
Qed.

Lemma trim_between_quotes (content : string) :
  trim (String squote (content ++ String squote "")) = String squote (content ++ String squote "").
Proof.
  unfold trim. cbn [trimStart].
  replace (isWhiteSpace squote) with false by reflexivity.
  exact (trimEnd_keeps_last (String squote content) squote eq_refl).
Qed.

(** X28. In the reader of migration-transformer.js a row text that is
    one field between single quotes, with no single quote and no
    backslash inside, gives the inside as a string and as it stands:
    commas inside do not split it, blanks at its ends are kept, and a
    numeral or NULL inside stays a string (where the scanner of
    sql-dump-parser.js trims the inside and lexes it as if it stood
    bare). *)
Theorem parseRowValues_quoted_field (content : string) :
  allChars (fun c => negb (Ascii.eqb c squote) && negb (Ascii.eqb c backslash)) content
  = true ->
  parseRowValues ("'" ++ content ++ "'") = [Str content].
Proof.
  intros H. unfold parseRowValues.
  change ("'" ++ content ++ "'") with (String squote (content ++ String squote "")).
  cbn [rowLoop].
  change (rowStep rowInit squote) with (RowState [] (String squote "") true (Some squote)).
  rewrite rowLoop_app.
  destruct (rowLoop_inside_quotes content H [] (String squote "") (Some squote) eq_refl)
    as (prev' & -> & Hprev').
  cbn [rowLoop].
  assert (Hstep : rowStep (RowState [] (String squote "" ++ content) true prev') squote
                  = RowState [] (String squote (content ++ String squote "")) false
                      (Some squote)).
  { unfold rowStep. cbn [previous values current inString].
    assert (Hq : quoteAt prev' squote = true).
    { unfold quoteAt. destruct prev' as [p |]; [now rewrite Hprev' | reflexivity]. }
    rewrite Hq. reflexivity. }
  rewrite Hstep. cbn [current values app]. rewrite trim_between_quotes.
  replace (String.eqb (String squote (content ++ String squote "")) "") with false
    by reflexivity.
  unfold parseValue.
  replace (String.eqb (toUpperCase (String squote (content ++ String squote ""))) "NULL")
    with false by reflexivity.
  change "'" with (String squote "").
  replace (startsWith (String squote (content ++ String squote "")) (String squote ""))
    with true by reflexivity.
  assert (Hend : endsWith (String squote (content ++ String squote "")) (String squote "")
                 = true)
    by exact (endsWith_append (String squote content) (String squote "")).
  rewrite Hend. cbn [andb].
  rewrite substring_inner, replaceAll2_absent; [reflexivity |].
  clear -H. induction content as [|c s IH]; [reflexivity |].
  cbn [allChars] in *. apply andb_true_iff in H as [Hc Hs].
  apply andb_true_iff in Hc as [_ Hb]. now rewrite Hb, (IH Hs).
Qed.

Lemma fillObject_other (columnNames : list string) :
  forall (rowValues : list value) (rowObject : gmap string value) (c : string),
  c ∉ take (length rowValues) columnNames ->
  fillObject columnNames rowValues rowObject !! c = rowObject !! c.
Proof.
  induction columnNames as [|c0 cs IH]; intros [|v0 vs] rowObject c Hc; try reflexivity.
  cbn [fillObject]. cbn [length take] in Hc.
  apply not_elem_of_cons in Hc as [Hne Hc].
  rewrite (IH vs _ c Hc). now apply lookup_insert_ne.
Qed.

Lemma fillObject_dom (columnNames : list string) :
  forall (rowValues : list value) (rowObject : gmap string value),
  dom (fillObject columnNames rowValues rowObject)
  = dom rowObject ∪ list_to_set (take (length rowValues) columnNames).
Proof.
  induction columnNames as [|c0 cs IH]; intros [|v0 vs] rowObject;
    cbn [fillObject length take list_to_set]; try set_solver.
  rewrite IH, dom_insert_L. set_solver.
Qed.

Lemma fillObject_lookup (columnNames : list string) :
  NoDup columnNames ->
  forall (rowValues : list value) (rowObject : gmap string value)
         (i : nat) (c : string) (v : value),
  columnNames !! i = Some c -> rowValues !! i = Some v ->
  fillObject columnNames rowValues rowObject !! c = Some v.
Proof.
  induction 1 as [|c0 cs Hnotin Hnd IH]; intros rowValues rowObject i c v Hc Hv.
  - now rewrite lookup_nil in Hc.
  - destruct rowValues as [|v0 vs]; [now rewrite lookup_nil in Hv |].
    cbn [fillObject]. destruct i as [|i]; cbn in Hc, Hv.
    + injection Hc as ->. injection Hv as ->.
      rewrite fillObject_other; [apply lookup_insert_eq |].
      intros Hin. apply Hnotin. exact (subseteq_take _ _ _ Hin).
    + exact (IH vs _ i c v Hc Hv).
Qed.

(** X29. In the reader of migration-transformer.js a row with at least
    one value, for a table with known column names, always gives a row
    object: its keys are the first columns, as many as there are values
    and no more than there are columns, each bound to the value of its
    position. A row with more values than columns is kept and cut to the
    columns (where sql-dump-parser.js skips such a row). *)
Theorem entryOf_cuts_to_columns (columnNames : list string) (rowValues : list value) :
  columnNames ≠ [] -> rowValues ≠ [] ->
  exists rowObject : gmap string value,
    entryOf columnNames rowValues = Some (RowObject rowObject)
    /\ dom rowObject = list_to_set (take (length rowValues) columnNames)
    /\ (NoDup columnNames ->
        forall i c v, columnNames !! i = Some c -> rowValues !! i = Some v ->
                      rowObject !! c = Some v).
Proof.
  intros Hc Hv. exists (fillObject columnNames rowValues ∅). conjuncts.
  - unfold entryOf. destruct columnNames, rowValues; try congruence. reflexivity.
  - rewrite fillObject_dom, dom_empty_L. set_solver.
  - intros Hnd i c v. apply fillObject_lookup, Hnd.
Qed.

Lemma splitLoop_body (body : string) :
  allChars (fun c => negb (Ascii.eqb c "(") && negb (Ascii.eqb c ")")
                     && negb (Ascii.eqb c squote)) body = true ->
  forall rs cur prev,
  exists prev',
    splitLoop (SplitState rs cur 1 false prev) body
    = SplitState rs (cur ++ body) 1 false prev'.
Proof.
  induction body as [|c s IH]; intros Hs rs cur prev.
  - exists prev. cbn [splitLoop]. now rewrite append_empty.
  - cbn [allChars] in Hs. apply andb_true_iff in Hs as [Hc Hs].
    apply andb_true_iff in Hc as [Hc Hq]. apply andb_true_iff in Hc as [Ho Hcl].
    apply negb_true_iff in Ho, Hcl, Hq.
    cbn [splitLoop]. unfold splitStep.
    cbn [previousChar rows currentRow parenthesisLevel inRowString].
    rewrite (quoteAt_other prev c Hq), Ho, Hcl. cbn [andb negb Z.eqb Z.ltb Z.compare].
    rewrite andb_false_r. cbn [andb].
    destruct (IH Hs rs (push cur c) (Some c)) as [prev' ->].
    exists prev'. now rewrite push_append.
Qed.

Lemma splitLoop_row (body : string) :
  allChars (fun c => negb (Ascii.eqb c "(") && negb (Ascii.eqb c ")")
                     && negb (Ascii.eqb c squote)) body = true ->
  forall rs cur prev,
  exists prev',
    splitLoop (SplitState rs cur 0 false prev) ("(" ++ body ++ ")")
    = SplitState (rs ++ [body]) body 0 false prev'.
Proof.
  intros Hs rs cur prev.
  change ("(" ++ body ++ ")") with (String "(" (body ++ ")")).
  cbn [splitLoop].
  assert (Hopen : splitStep (SplitState rs cur 0 false prev) "("
                  = SplitState rs "" 1 false (Some "("%char)).
  { unfold splitStep. cbn [previousChar rows currentRow parenthesisLevel inRowString].
    now rewrite (quoteAt_other prev "(" eq_refl). }
  rewrite Hopen, splitLoop_app.
  destruct (splitLoop_body body Hs rs "" (Some "("%char)) as [prev1 ->].
  change ("" ++ body) with body. cbn [splitLoop].
  exists (Some ")"%char). unfold splitStep.
  cbn [previousChar rows currentRow parenthesisLevel inRowString].
  now rewrite (quoteAt_other prev1 ")" eq_refl).
Qed.

Lemma splitLoop_rows (bodies : list string) :
  Forall (fun b => allChars (fun c => negb (Ascii.eqb c "(") && negb (Ascii.eqb c ")")
                                      && negb (Ascii.eqb c squote)) b = true) bodies ->
  forall rs cur prev,
    rows (splitLoop (SplitState rs cur 0 false prev)
            (String.concat "," (map (fun b => "(" ++ b ++ ")") bodies)))
    = (rs ++ bodies)%list.
Proof.
  induction bodies as [|b rest IH]; intros Hall rs cur prev.
  - cbn [map String.concat splitLoop rows]. now rewrite app_nil_r.
  - inversion Hall as [|? ? Hb Hrest]; subst.
    destruct rest as [|g rest].
    + cbn [map String.concat].
      destruct (splitLoop_row b Hb rs cur prev) as [prev' ->]. reflexivity.
    + cbn [map]. rewrite concat_cons by discriminate.
      rewrite splitLoop_app.
      destruct (splitLoop_row b Hb rs cur prev) as [prev' ->].
      change ("," ++ String.concat "," (("(" ++ g ++ ")") :: map (fun b => "(" ++ b ++ ")") rest))
        with (String "," (String.concat ","
                            (map (fun b => "(" ++ b ++ ")") (g :: rest)))).
      cbn [splitLoop].
      assert (Hsep : splitStep (SplitState (rs ++ [b]) b 0 false prev') ","
                     = SplitState (rs ++ [b]) b 0 false (Some ","%char)).
      { unfold splitStep. cbn [previousChar rows currentRow parenthesisLevel inRowString].
        now rewrite (quoteAt_other prev' "," eq_refl). }
      rewrite Hsep, (IH Hrest). now rewrite <- app_assoc.
Qed.

(** X30. The row splitter of migration-transformer.js gives back the
    rows of a VALUES list: for row texts without parentheses and single
    quotes, each put between parentheses and the whole joined by commas,
    it returns exactly the row texts, in order and without their
    parentheses, however many there are. *)
Theorem splitRows_parenthesised (bodies : list string) :
  Forall (fun b => allChars (fun c => negb (Ascii.eqb c "(") && negb (Ascii.eqb c ")")
                                      && negb (Ascii.eqb c squote)) b = true) bodies ->
  splitRows (String.concat "," (map (fun b => "(" ++ b ++ ")") bodies)) = bodies.
Proof.
  intros Hall. unfold splitRows, splitInit. now rewrite (splitLoop_rows bodies Hall).
Qed.

End MigrationTransformerProperties.

Lemma parseRowValues_integers_witness :
  MigrationTransformer.parseRowValues "12,0,345"
  = [MigrationTransformer.Num (ofInteger false 12); MigrationTransformer.Num (ofInteger false 0);
     MigrationTransformer.Num (ofInteger false 345)].
Proof.
  apply (parseRowValues_integers ["12"; "0"; "345"]); [discriminate |].
  repeat constructor; discriminate.
Defined.

Lemma parseRowValues_quoted_field_witness :
  MigrationTransformer.parseRowValues "' 42, (x) '" = [MigrationTransformer.Str " 42, (x) "].
Proof. exact (parseRowValues_quoted_field " 42, (x) " eq_refl). Defined.

Lemma entryOf_cuts_to_columns_witness :
  exists rowObject : gmap string MigrationTransformer.value,
    MigrationTransformer.entryOf ["a"; "b"]
      [MigrationTransformer.Num (ofInteger false 1); MigrationTransformer.Str "x";
       MigrationTransformer.Null]
    = Some (MigrationTransformer.RowObject rowObject)
    /\ dom rowObject = list_to_set (take 3 ["a"; "b"])
    /\ (NoDup ["a"; "b"] ->
        forall i c v, ["a"; "b"] !! i = Some c ->
          [MigrationTransformer.Num (ofInteger false 1); MigrationTransformer.Str "x";
           MigrationTransformer.Null] !! i = Some v ->
          rowObject !! c = Some v).
Proof.
  apply (entryOf_cuts_to_columns ["a"; "b"]
           [MigrationTransformer.Num (ofInteger false 1); MigrationTransformer.Str "x";
            MigrationTransformer.Null]); discriminate.
Defined.

Lemma splitRows_parenthesised_witness :
  MigrationTransformer.splitRows "(1,2,NULL),(3,4,5),(6,7,8)" = ["1,2,NULL"; "3,4,5"; "6,7,8"].
Proof.
  apply (splitRows_parenthesised ["1,2,NULL"; "3,4,5"; "6,7,8"]).
  repeat constructor.
Defined.
